(** * Radar product ingest and cache core: decoders, text products, refresh
      scheduling and record caches.

    A shallow embedding of the parts of the sources that the specification
    makes claims about:

    - [IStream]: the [std::istream] operations the decoders use, over an
      in-memory buffer, with the stream state bits of the C++ standard;
    - [Rda]: [scwx/wsr88d/rda/digital_radar_data.cpp] (Message 31);
    - [Awips]: [scwx/awips/text_product_message.cpp];
    - [Manager]: [scwx/qt/manager/radar_product_manager.cpp] (refresh of a
      provider, record storage and lookup).

    [RdaExtra], [AwipsExtra] and [ManagerExtra] hold what the further facts
    need: the Level-3 lookup, the provider managers, the instances, the
    coordinate loops with [Initialize], and the available products.

    Code the sources call and do not hold is a parameter of what calls it:
    [util::getline] and [WmoHeader::Parse] for the text-product parser, the
    floating-point operations and [GeographicLib::Geodesic::Direct] for
    [Initialize], the constants of [common/constants.hpp].  What a fact
    assumes of a parameter is a hypothesis of its statement.

    The definitions come first; the facts about them follow in
    [StreamFacts], [RdaFacts], [AwipsFacts] and [ManagerFacts], and the
    further facts in [RdaExtraFacts], [AwipsExtraFacts] and
    [ManagerExtraFacts]. *)

From Stdlib Require Import ZArith List String Ascii Bool Lia.
From Stdlib Require QArith.
From stdpp Require Import gmap strings list fin_maps.

Local Open Scope Z_scope.

(** ** Input streams *)

Module IStream.

(** A [std::istream] reading from a buffer: the bytes, the get position of the
    stream buffer, and the two state bits the code can observe ([badbit] is
    never raised by a buffer in memory). *)
Record istream : Type := mk_istream {
  buf : list ascii;
  gpos : nat;
  eofbit : bool;
  failbit : bool
}.

Definition open (data : list ascii) : istream := mk_istream data 0 false false.

Definition good (s : istream) : bool := negb (eofbit s) && negb (failbit s).
Definition eof (s : istream) : bool := eofbit s.
Definition fail (s : istream) : bool := failbit s.

Definition set_fail (s : istream) : istream :=
  mk_istream (buf s) (gpos s) (eofbit s) true.
Definition set_eof (s : istream) : istream :=
  mk_istream (buf s) (gpos s) true (failbit s).
Definition clear_eof (s : istream) : istream :=
  mk_istream (buf s) (gpos s) false (failbit s).
Definition set_gpos (p : nat) (s : istream) : istream :=
  mk_istream (buf s) p (eofbit s) (failbit s).

(** The characters from the get position to the end of the buffer. *)
Definition rest (s : istream) : list ascii := drop (gpos s) (buf s).
Definition avail (s : istream) : nat := (length (buf s) - gpos s)%nat.

(** [istream::sentry(is, true)]: raises [failbit] when the stream is not
    good. *)
Definition sentry (s : istream) : bool * istream :=
  if good s then (true, s) else (false, set_fail s).

(** [is.tellg()]: [-1] when the stream has failed. *)
Definition tellg (s : istream) : Z * istream :=
  let '(_, s1) := sentry s in
  if fail s1 then (-1, s1) else (Z.of_nat (gpos s1), s1).

(** [rdbuf()->pubseekpos(p)] on a buffer in memory: positions outside the
    buffer are refused. *)
Definition pubseekpos (p : Z) (s : istream) : option istream :=
  if (0 <=? p) && (p <=? Z.of_nat (length (buf s)))
  then Some (set_gpos (Z.to_nat p) s) else None.

(** [is.seekg(p, std::ios_base::beg)]: clears [eofbit] first; does nothing on
    a failed stream; raises [failbit] when the position is refused. *)
Definition seekg (p : Z) (s : istream) : istream :=
  let s0 := clear_eof s in
  let '(_, s1) := sentry s0 in
  if fail s1 then s1
  else match pubseekpos p s1 with
       | Some s2 => s2
       | None => set_fail s1
       end.

(** [is.seekg(off, std::ios_base::cur)]. *)
Definition seekg_cur (off : Z) (s : istream) : istream :=
  let s0 := clear_eof s in
  let '(_, s1) := sentry s0 in
  if fail s1 then s1
  else match pubseekpos (Z.of_nat (gpos s1) + off) s1 with
       | Some s2 => s2
       | None => set_fail s1
       end.

(** [is.read(dst, n)]: the characters stored at [dst]; a short read raises
    [eofbit] and [failbit]. *)
Definition read (n : nat) (s : istream) : list ascii * istream :=
  let '(ok, s1) := sentry s in
  if ok then
    let bs := take n (rest s1) in
    let s2 := set_gpos (gpos s1 + length bs) s1 in
    if (length bs <? n)%nat then (bs, set_fail (set_eof s2)) else (bs, s2)
  else ([], s1).

(** [is.peek()]: [None] stands for [EOF]. *)
Definition peek (s : istream) : option ascii * istream :=
  let '(ok, s1) := sentry s in
  if ok then
    match rest s1 with
    | c :: _ => (Some c, s1)
    | [] => (None, set_eof s1)
    end
  else (None, s1).

(** [is.get()]. *)
Definition get (s : istream) : option ascii * istream :=
  let '(ok, s1) := sentry s in
  if ok then
    match rest s1 with
    | c :: _ => (Some c, set_gpos (S (gpos s1)) s1)
    | [] => (None, set_fail (set_eof s1))
    end
  else (None, s1).

(** The read position lies inside the buffer. *)
Definition wf (s : istream) : Prop := (gpos s <= length (buf s))%nat.

End IStream.

(** ** Message 31: Digital Radar Data *)

Module Rda.
Import IStream.

(** *** Reading fixed-layout fields *)

(** Stream computations: the decoder threads the stream through every read. *)
Definition M (A : Type) : Type := istream -> A * istream.
Definition ret {A : Type} (a : A) : M A := fun s => (a, s).
Definition bind {A B : Type} (m : M A) (k : A -> M B) : M B :=
  fun s => let '(a, s') := m s in k a s'.
Notation "x <- m ;; k" := (bind m (fun x => k))
  (at level 100, m at next level, right associativity).
Notation "m ;;; k" := (bind m (fun _ => k))
  (at level 100, right associativity).

Definition byte_val (c : ascii) : Z := Z.of_N (N_of_ascii c).
Definition byte_of (v : Z) : ascii := ascii_of_N (Z.to_N (v mod 256)).
Definition NUL : ascii := "000"%char.

(** The value of an object as the host (little-endian) lays it out. *)
Fixpoint le_decode (bs : list ascii) : Z :=
  match bs with
  | [] => 0
  | b :: r => byte_val b + 256 * le_decode r
  end.

Fixpoint le_encode (n : nat) (v : Z) : list ascii :=
  match n with
  | O => []
  | S k => byte_of v :: le_encode k (v / 256)
  end.

(** An [n]-byte object that held [old], after [bs] were stored at its first
    bytes (a short read leaves the other bytes as they were). *)
Definition stored (n : nat) (old : Z) (bs : list ascii) : Z :=
  le_decode (bs ++ drop (length bs) (le_encode n old)).

(** [ntohs] and [ntohl] on a little-endian host. *)
Definition ntohs (x : Z) : Z :=
  Z.lor (Z.shiftl (Z.land x 255) 8) (Z.land (Z.shiftr x 8) 255).

Definition ntohl (x : Z) : Z :=
  Z.lor (Z.lor (Z.shiftl (Z.land x 255) 24)
               (Z.shiftl (Z.land (Z.shiftr x 8) 255) 16))
        (Z.lor (Z.shiftl (Z.land (Z.shiftr x 16) 255) 8)
               (Z.land (Z.shiftr x 24) 255)).

(** Conversion of a 16-bit pattern to [int16_t]. *)
Definition to_int16 (u : Z) : Z := if u <? 32768 then u else u - 65536.

(** [ntohs] applied to an [int16_t] field and assigned back to it. *)
Definition ntohs_int16 (v : Z) : Z := to_int16 (ntohs (v mod 65536)).

(** Modelled from the spec: [Message::SwapFloat] is not part of the sources;
    the spec swaps a float "by reinterpreting a 32-bit unsigned then
    byte-swapping".  A [float] is kept as its 32-bit pattern. *)
Definition SwapFloat (bits : Z) : Z := ntohl bits.

(** Modelled from the spec: [Message::SwapArray] is not part of the sources;
    the spec has "in-place byte swapping of fixed arrays": the first [size]
    elements of an array of 32-bit words are swapped. *)
Definition SwapArray (arr : list Z) (size : nat) : list Z :=
  map ntohl (take size arr) ++ drop size arr.

(** Modelled from the spec: [Message::SwapVector] is not part of the sources;
    the spec has "in-place byte swapping of ... vectors": every element of a
    vector of 16-bit words is swapped. *)
Definition SwapVector (v : list Z) : list Z := map ntohs v.

(** [is.read(reinterpret_cast<char*>(&field), n)] for an unsigned field. *)
Definition read_uint (n : nat) (old : Z) : M Z :=
  fun s => let '(bs, s') := read n s in (stored n old bs, s').

(** The same for an [int16_t] field. *)
Definition read_int16 (old : Z) : M Z :=
  fun s => let '(bs, s') := read 2 s in
           (to_int16 (stored 2 (old mod 65536) bs), s').

(** [is.read(&str[0], n)] into a string that holds [old]. *)
Definition read_chars (n : nat) (old : list ascii) : M (list ascii) :=
  fun s => let '(bs, s') := read n s in (bs ++ drop (length bs) old, s').

Definition skip (off : Z) : M unit := fun s => (tt, seekg_cur off s).

(** The [n] words of [w] bytes laid out in [mem]. *)
Fixpoint le_words (w n : nat) (mem : list ascii) : list Z :=
  match n with
  | O => []
  | S k => le_decode (take w mem) :: le_words w k (drop w mem)
  end.

(** [is.read(reinterpret_cast<char*>(arr), n)] into an array of [w]-byte
    words that holds [old]. *)
Definition read_words (w : nat) (old : list Z) (n : nat) : M (list Z) :=
  fun s => let '(bs, s') := read n s in
           let mem := concat (map (le_encode w) old) in
           (le_words w (length old) (bs ++ drop (length bs) mem), s').

(** *** Data blocks *)

Inductive DataBlockType : Type :=
| Volume | Elevation | Radial
| MomentRef | MomentVel | MomentSw | MomentZdr | MomentPhi | MomentRho
| MomentCfp
| Unknown.

Definition strToDataBlock_ : gmap string DataBlockType :=
  list_to_map
    [("VOL"%string, Volume); ("ELV"%string, Elevation);
     ("RAD"%string, Radial); ("REF"%string, MomentRef);
     ("VEL"%string, MomentVel); ("SW "%string, MomentSw);
     ("ZDR"%string, MomentZdr); ("PHI"%string, MomentPhi);
     ("RHO"%string, MomentRho); ("CFP"%string, MomentCfp)].

Record MomentDataBlock : Type := mk_MomentDataBlock {
  m_dataBlockType_ : string;
  m_dataName_ : string;
  numberOfDataMomentGates_ : Z;
  dataMomentRange_ : Z;
  dataMomentRangeSampleInterval_ : Z;
  tover_ : Z;
  snrThreshold_ : Z;
  controlFlags_ : Z;
  dataWordSize_ : Z;
  scale_ : Z;
  offset_ : Z;
  momentGates8_ : list ascii;
  momentGates16_ : list Z
}.

Definition MomentDataBlock_new (dataBlockType dataName : string)
  : MomentDataBlock :=
  mk_MomentDataBlock dataBlockType dataName 0 0 0 0 0 0 0 0 0 [] [].

(** [MomentDataBlock::Create] up to the byte swaps of the fixed fields
    (offsets 4 to 27 of the block). *)
Definition MomentDataBlock_fields (dataBlockType dataName : string)
  : M MomentDataBlock :=
  let p := MomentDataBlock_new dataBlockType dataName in
  skip 4 ;;;
  gates <- read_uint 2 (numberOfDataMomentGates_ p) ;;
  range <- read_uint 2 (dataMomentRange_ p) ;;
  interval <- read_uint 2 (dataMomentRangeSampleInterval_ p) ;;
  tover <- read_uint 2 (tover_ p) ;;
  snr <- read_int16 (snrThreshold_ p) ;;
  flags <- read_uint 1 (controlFlags_ p) ;;
  wordSize <- read_uint 1 (dataWordSize_ p) ;;
  scale <- read_uint 4 (scale_ p) ;;
  offset <- read_uint 4 (offset_ p) ;;
  ret (mk_MomentDataBlock dataBlockType dataName
         (ntohs gates) (ntohs range) (ntohs interval) (ntohs tover)
         (ntohs_int16 snr) flags wordSize (SwapFloat scale) (SwapFloat offset)
         (momentGates8_ p) (momentGates16_ p)).

Definition set_momentGates8 (p : MomentDataBlock) (g : list ascii)
  : MomentDataBlock :=
  mk_MomentDataBlock (m_dataBlockType_ p) (m_dataName_ p)
    (numberOfDataMomentGates_ p) (dataMomentRange_ p)
    (dataMomentRangeSampleInterval_ p) (tover_ p) (snrThreshold_ p)
    (controlFlags_ p) (dataWordSize_ p) (scale_ p) (offset_ p)
    g (momentGates16_ p).

Definition set_momentGates16 (p : MomentDataBlock) (g : list Z)
  : MomentDataBlock :=
  mk_MomentDataBlock (m_dataBlockType_ p) (m_dataName_ p)
    (numberOfDataMomentGates_ p) (dataMomentRange_ p)
    (dataMomentRangeSampleInterval_ p) (tover_ p) (snrThreshold_ p)
    (controlFlags_ p) (dataWordSize_ p) (scale_ p) (offset_ p)
    (momentGates8_ p) g.

(** [v.resize(n)] on a vector that holds [v]. *)
Definition resize {A : Type} (n : nat) (fill : A) (v : list A) : list A :=
  take n v ++ replicate (n - length v) fill.

(** The gate data that follows the fixed fields. *)
Definition MomentDataBlock_gates (p : MomentDataBlock) : M MomentDataBlock :=
  let n := numberOfDataMomentGates_ p in
  if (0 <=? n) && (n <=? 1840) then
    if dataWordSize_ p =? 8 then
      let g := resize (Z.to_nat n) NUL (momentGates8_ p) in
      g' <- read_chars (Z.to_nat n) g ;;
      ret (set_momentGates8 p g')
    else if dataWordSize_ p =? 16 then
      let g := resize (Z.to_nat n) 0 (momentGates16_ p) in
      g' <- read_words 2 g (Z.to_nat (n * 2)) ;;
      ret (set_momentGates16 p (SwapVector g'))
    else ret p
  else ret p.

Definition MomentDataBlock_Create (dataBlockType dataName : string)
  : M MomentDataBlock :=
  p <- MomentDataBlock_fields dataBlockType dataName ;;
  MomentDataBlock_gates p.

Record VolumeDataBlock : Type := mk_VolumeDataBlock {
  v_dataBlockType_ : string;
  v_dataName_ : string;
  v_lrtup_ : Z;
  versionNumberMajor_ : Z;
  versionNumberMinor_ : Z;
  latitude_ : Z;
  longitude_ : Z;
  siteHeight_ : Z;
  feedhornHeight_ : Z;
  v_calibrationConstant_ : Z;
  horizontaShvTxPower_ : Z;
  verticalShvTxPower_ : Z;
  systemDifferentialReflectivity_ : Z;
  initialSystemDifferentialPhase_ : Z;
  volumeCoveragePatternNumber_ : Z;
  processingStatus_ : Z
}.

Definition VolumeDataBlock_Create (dataBlockType dataName : string)
  : M VolumeDataBlock :=
  lrtup <- read_uint 2 0 ;;
  major <- read_uint 1 0 ;;
  minor <- read_uint 1 0 ;;
  lat <- read_uint 4 0 ;;
  lon <- read_uint 4 0 ;;
  height <- read_int16 0 ;;
  feedhorn <- read_uint 2 0 ;;
  calib <- read_uint 4 0 ;;
  hpow <- read_uint 4 0 ;;
  vpow <- read_uint 4 0 ;;
  zdr <- read_uint 4 0 ;;
  phi <- read_uint 4 0 ;;
  vcp <- read_uint 2 0 ;;
  status <- read_uint 2 0 ;;
  ret (mk_VolumeDataBlock dataBlockType dataName
         (ntohs lrtup) major minor (SwapFloat lat) (SwapFloat lon)
         (ntohs_int16 height) (ntohs feedhorn) (SwapFloat calib)
         (SwapFloat hpow) (SwapFloat vpow) (SwapFloat zdr) (SwapFloat phi)
         (ntohs vcp) (ntohs status)).

Record ElevationDataBlock : Type := mk_ElevationDataBlock {
  e_dataBlockType_ : string;
  e_dataName_ : string;
  e_lrtup_ : Z;
  atmos_ : Z;
  e_calibrationConstant_ : Z
}.

Definition ElevationDataBlock_Create (dataBlockType dataName : string)
  : M ElevationDataBlock :=
  lrtup <- read_uint 2 0 ;;
  atmos <- read_int16 0 ;;
  calib <- read_uint 4 0 ;;
  ret (mk_ElevationDataBlock dataBlockType dataName
         (ntohs lrtup) (ntohs_int16 atmos) (SwapFloat calib)).

Record RadialDataBlock : Type := mk_RadialDataBlock {
  r_dataBlockType_ : string;
  r_dataName_ : string;
  r_lrtup_ : Z;
  unambigiousRange_ : Z;
  noiseLevelHorizontal_ : Z;
  noiseLevelVertical_ : Z;
  nyquistVelocity_ : Z;
  radialFlags_ : Z;
  calibrationConstantHorizontal_ : Z;
  calibrationConstantVertical_ : Z
}.

Definition RadialDataBlock_Create (dataBlockType dataName : string)
  : M RadialDataBlock :=
  lrtup <- read_uint 2 0 ;;
  range <- read_uint 2 0 ;;
  noiseH <- read_uint 4 0 ;;
  noiseV <- read_uint 4 0 ;;
  nyquist <- read_uint 2 0 ;;
  flags <- read_uint 2 0 ;;
  calibH <- read_uint 4 0 ;;
  calibV <- read_uint 4 0 ;;
  ret (mk_RadialDataBlock dataBlockType dataName
         (ntohs lrtup) (ntohs range) (SwapFloat noiseH) (SwapFloat noiseV)
         (ntohs nyquist) (ntohs flags) (SwapFloat calibH) (SwapFloat calibV)).

(** *** The message *)

(** The fixed fields of [DigitalRadarDataImpl] (offsets 0 to 31). *)
Record Header : Type := mk_Header {
  radarIdentifier_ : list ascii;
  collectionTime_ : Z;
  modifiedJulianDate_ : Z;
  azimuthNumber_ : Z;
  azimuthAngle_ : Z;
  compressionIndicator_ : Z;
  radialLength_ : Z;
  azimuthResolutionSpacing_ : Z;
  radialStatus_ : Z;
  elevationNumber_ : Z;
  cutSectorNumber_ : Z;
  elevationAngle_ : Z;
  radialSpotBlankingStatus_ : Z;
  azimuthIndexingMode_ : Z;
  dataBlockCount_ : Z
}.

(** The block pointers and the blocks of [DigitalRadarDataImpl]; an absent
    block is a null pointer. *)
Record Blocks : Type := mk_Blocks {
  volumeDataBlock_ : option VolumeDataBlock;
  elevationDataBlock_ : option ElevationDataBlock;
  radialDataBlock_ : option RadialDataBlock;
  momentRefDataBlock_ : option MomentDataBlock;
  momentVelDataBlock_ : option MomentDataBlock;
  momentSwDataBlock_ : option MomentDataBlock;
  momentZdrDataBlock_ : option MomentDataBlock;
  momentPhiDataBlock_ : option MomentDataBlock;
  momentRhoDataBlock_ : option MomentDataBlock;
  momentCfpDataBlock_ : option MomentDataBlock
}.

Record DigitalRadarDataImpl : Type := mk_DigitalRadarDataImpl {
  header : Header;
  dataBlockPointer_ : list Z;
  blocks : Blocks
}.

Definition DigitalRadarDataImpl_new : DigitalRadarDataImpl :=
  mk_DigitalRadarDataImpl
    (mk_Header [] 0 0 0 0 0 0 0 0 0 0 0 0 0 0)
    (replicate 10 0)
    (mk_Blocks None None None None None None None None None None).

Definition data_block_count (p : DigitalRadarDataImpl) : Z :=
  dataBlockCount_ (header p).
Definition compression_indicator (p : DigitalRadarDataImpl) : Z :=
  compressionIndicator_ (header p).

Definition set_dataBlockCount (h : Header) (n : Z) : Header :=
  mk_Header (radarIdentifier_ h) (collectionTime_ h) (modifiedJulianDate_ h)
    (azimuthNumber_ h) (azimuthAngle_ h) (compressionIndicator_ h)
    (radialLength_ h) (azimuthResolutionSpacing_ h) (radialStatus_ h)
    (elevationNumber_ h) (cutSectorNumber_ h) (elevationAngle_ h)
    (radialSpotBlankingStatus_ h) (azimuthIndexingMode_ h) n.

(** Lines 477 to 502 of [DigitalRadarData::Parse]: the reads of the fixed
    fields into the object [h], then the byte swaps. *)
Definition Parse_fields (h : Header) : M Header :=
  id <- read_chars 4 (resize 4 NUL (radarIdentifier_ h)) ;;
  time <- read_uint 4 (collectionTime_ h) ;;
  date <- read_uint 2 (modifiedJulianDate_ h) ;;
  azNumber <- read_uint 2 (azimuthNumber_ h) ;;
  azAngle <- read_uint 4 (azimuthAngle_ h) ;;
  compression <- read_uint 1 (compressionIndicator_ h) ;;
  skip 1 ;;;
  length <- read_uint 2 (radialLength_ h) ;;
  spacing <- read_uint 1 (azimuthResolutionSpacing_ h) ;;
  status <- read_uint 1 (radialStatus_ h) ;;
  elNumber <- read_uint 1 (elevationNumber_ h) ;;
  sector <- read_uint 1 (cutSectorNumber_ h) ;;
  elAngle <- read_uint 4 (elevationAngle_ h) ;;
  blanking <- read_uint 1 (radialSpotBlankingStatus_ h) ;;
  indexing <- read_uint 1 (azimuthIndexingMode_ h) ;;
  count <- read_uint 2 (dataBlockCount_ h) ;;
  ret (mk_Header id (ntohl time) (ntohs date) (ntohs azNumber)
         (SwapFloat azAngle) compression (ntohs length) spacing status
         elNumber sector (SwapFloat elAngle) blanking indexing (ntohs count)).

(** Lines 504 to 517: the two validity tests. *)
Definition Parse_checks (h : Header) (messageValid : bool) : Header * bool :=
  let '(h1, v1) :=
    if (dataBlockCount_ h <? 4) || (10 <? dataBlockCount_ h)
    then (set_dataBlockCount h 0, false) else (h, messageValid) in
  if negb (compressionIndicator_ h1 =? 0)
  then (set_dataBlockCount h1 0, false) else (h1, v1).

(** The body of the loop over the data blocks (lines 526 to 590). *)
Definition Parse_block (isBegin : Z) (pointer : Z) (b : Blocks) : M Blocks :=
  fun s =>
  let s := seekg (isBegin + pointer) s in
  let '(dataBlockType, s) := read_chars 1 [NUL] s in
  let '(dataName, s) := read_chars 3 [NUL; NUL; NUL] s in
  let dataBlockType := string_of_list_ascii dataBlockType in
  let dataName := string_of_list_ascii dataName in
  let dataBlock := default Unknown (strToDataBlock_ !! dataName) in
  let moment := MomentDataBlock_Create dataBlockType dataName in
  match dataBlock with
  | Volume =>
      let '(x, s) := VolumeDataBlock_Create dataBlockType dataName s in
      (mk_Blocks (Some x) (elevationDataBlock_ b) (radialDataBlock_ b)
         (momentRefDataBlock_ b) (momentVelDataBlock_ b)
         (momentSwDataBlock_ b) (momentZdrDataBlock_ b)
         (momentPhiDataBlock_ b) (momentRhoDataBlock_ b)
         (momentCfpDataBlock_ b), s)
  | Elevation =>
      let '(x, s) := ElevationDataBlock_Create dataBlockType dataName s in
      (mk_Blocks (volumeDataBlock_ b) (Some x) (radialDataBlock_ b)
         (momentRefDataBlock_ b) (momentVelDataBlock_ b)
         (momentSwDataBlock_ b) (momentZdrDataBlock_ b)
         (momentPhiDataBlock_ b) (momentRhoDataBlock_ b)
         (momentCfpDataBlock_ b), s)
  | Radial =>
      let '(x, s) := RadialDataBlock_Create dataBlockType dataName s in
      (mk_Blocks (volumeDataBlock_ b) (elevationDataBlock_ b) (Some x)
         (momentRefDataBlock_ b) (momentVelDataBlock_ b)
         (momentSwDataBlock_ b) (momentZdrDataBlock_ b)
         (momentPhiDataBlock_ b) (momentRhoDataBlock_ b)
         (momentCfpDataBlock_ b), s)
  | MomentRef =>
      let '(x, s) := moment s in
      (mk_Blocks (volumeDataBlock_ b) (elevationDataBlock_ b)
         (radialDataBlock_ b) (Some x) (momentVelDataBlock_ b)
         (momentSwDataBlock_ b) (momentZdrDataBlock_ b)
         (momentPhiDataBlock_ b) (momentRhoDataBlock_ b)
         (momentCfpDataBlock_ b), s)
  | MomentVel =>
      let '(x, s) := moment s in
      (mk_Blocks (volumeDataBlock_ b) (elevationDataBlock_ b)
         (radialDataBlock_ b) (momentRefDataBlock_ b) (Some x)
         (momentSwDataBlock_ b) (momentZdrDataBlock_ b)
         (momentPhiDataBlock_ b) (momentRhoDataBlock_ b)
         (momentCfpDataBlock_ b), s)
  | MomentSw =>
      let '(x, s) := moment s in
      (mk_Blocks (volumeDataBlock_ b) (elevationDataBlock_ b)
         (radialDataBlock_ b) (momentRefDataBlock_ b) (momentVelDataBlock_ b)
         (Some x) (momentZdrDataBlock_ b)
         (momentPhiDataBlock_ b) (momentRhoDataBlock_ b)
         (momentCfpDataBlock_ b), s)
  | MomentZdr =>
      let '(x, s) := moment s in
      (mk_Blocks (volumeDataBlock_ b) (elevationDataBlock_ b)
         (radialDataBlock_ b) (momentRefDataBlock_ b) (momentVelDataBlock_ b)
         (momentSwDataBlock_ b) (Some x)
         (momentPhiDataBlock_ b) (momentRhoDataBlock_ b)
         (momentCfpDataBlock_ b), s)
  | MomentPhi =>
      let '(x, s) := moment s in
      (mk_Blocks (volumeDataBlock_ b) (elevationDataBlock_ b)
         (radialDataBlock_ b) (momentRefDataBlock_ b) (momentVelDataBlock_ b)
         (momentSwDataBlock_ b) (momentZdrDataBlock_ b)
         (Some x) (momentRhoDataBlock_ b)
         (momentCfpDataBlock_ b), s)
  | MomentRho =>
      let '(x, s) := moment s in
      (mk_Blocks (volumeDataBlock_ b) (elevationDataBlock_ b)
         (radialDataBlock_ b) (momentRefDataBlock_ b) (momentVelDataBlock_ b)
         (momentSwDataBlock_ b) (momentZdrDataBlock_ b)
         (momentPhiDataBlock_ b) (Some x)
         (momentCfpDataBlock_ b), s)
  | MomentCfp =>
      let '(x, s) := moment s in
      (mk_Blocks (volumeDataBlock_ b) (elevationDataBlock_ b)
         (radialDataBlock_ b) (momentRefDataBlock_ b) (momentVelDataBlock_ b)
         (momentSwDataBlock_ b) (momentZdrDataBlock_ b)
         (momentPhiDataBlock_ b) (momentRhoDataBlock_ b)
         (Some x), s)
  | Unknown => (b, s)
  end.

(** [for (uint16_t b = 0; b < p->dataBlockCount_; ++b)] over the pointers
    the loop visits. *)
Fixpoint Parse_blocks (isBegin : Z) (pointers : list Z) (b : Blocks)
  : M Blocks :=
  match pointers with
  | [] => ret b
  | ptr :: more =>
      b' <- Parse_block isBegin ptr b ;;
      Parse_blocks isBegin more b'
  end.

Section Parse.

(** [Message::ValidateMessage(is, bytesRead)] belongs to the base class, which
    is not part of the sources: it is a parameter of the decoder. *)
Variable ValidateMessage : istream -> nat -> bool * istream.

(** [DigitalRadarData::Parse]: the result and the object after the call. *)
Definition Parse (p : DigitalRadarDataImpl)
  : M (bool * DigitalRadarDataImpl) :=
  fun s =>
  let messageValid := true in
  let bytesRead := 0%nat in
  let '(isBegin, s) := tellg s in
  let '(h, s) := Parse_fields (header p) s in
  let '(h, messageValid) := Parse_checks h messageValid in
  let count := Z.to_nat (dataBlockCount_ h) in
  let '(pointers, s) :=
    read_words 4 (dataBlockPointer_ p) (count * 4) s in
  let pointers := SwapArray pointers count in
  let '(b, s) := Parse_blocks isBegin (take count pointers) (blocks p) s in
  let s := seekg isBegin s in
  let '(ok, s) := ValidateMessage s bytesRead in
  let messageValid := if negb ok then false else messageValid in
  ((messageValid, mk_DigitalRadarDataImpl h pointers b), s).

(** [DigitalRadarData::Create]: the message is returned whatever [Parse]
    says. *)
Definition Create : M DigitalRadarDataImpl :=
  fun s => let '((_, p), s') := Parse DigitalRadarDataImpl_new s in (p, s').

End Parse.

(** The 16-bit big-endian words laid out in a run of bytes. *)
Fixpoint be16_words (bs : list ascii) : list Z :=
  match bs with
  | a :: b :: r => (256 * byte_val a + byte_val b) :: be16_words r
  | _ => []
  end.

(** The fixed fields as [Parse] decodes them from a stream, byte swaps
    done (the state of the object at line 503). *)
Definition decoded_header (p : DigitalRadarDataImpl) (s : istream) : Header :=
  fst (Parse_fields (header p) (snd (tellg s))).

(** A good stream [k] characters further on. *)
Definition at_off (s : istream) (k : nat) : istream :=
  mk_istream (buf s) (gpos s + k) false false.

(** A moment block with two 8-bit gates, as the stream holds it after the
    block type and the data name. *)
Definition sample_moment_stream : istream :=
  open (map ascii_of_nat
          [0; 0; 0; 0; 0; 2; 8; 102; 0; 250; 0; 0; 0; 16; 0; 8;
           66; 0; 0; 0; 66; 132; 0; 0; 7; 9; 255]%nat).

(** The fixed fields of scenario S2: radar [KLSX], compression indicator 1,
    six data blocks. *)
Definition sample_compressed_stream : istream :=
  open (map ascii_of_nat
          [75; 76; 83; 88; 0; 0; 0; 0; 0; 0; 0; 1; 0; 0; 0; 0;
           1; 0; 0; 0; 1; 0; 1; 0; 0; 0; 0; 0; 0; 0; 0; 6;
           0; 0; 0; 68; 0; 0; 0; 112]%nat).

End Rda.

(** ** AWIPS text products *)

Module Awips.
Import IStream.

Local Open Scope char_scope.
Local Open Scope string_scope.

Definition CR : ascii := "013".
Definition LF : ascii := "010".
(** Modelled from the spec: [common::Characters::ETX] is declared outside
    the sources; the glossary of the spec gives the byte [0x03]. *)
Definition ETX : ascii := "003".

(** *** Lines *)

(** The number of carriage returns a run starts with. *)
Fixpoint count_CR (l : list ascii) : nat :=
  match l with
  | c :: r => if (c =? CR)%char then S (count_CR r) else O
  | [] => O
  end.

(** The characters of the next line, the number of characters taken from the
    buffer with the line terminator, and whether a terminator was met. *)
Fixpoint scan_line (l : list ascii) : list ascii * nat * bool :=
  match l with
  | [] => ([], O, false)
  | c :: r =>
      if (c =? LF)%char then ([], 1%nat, true)
      else if (c =? CR)%char then
        let k := count_CR r in
        match drop k r with
        | c' :: _ => if (c' =? LF)%char then ([], S (S k), true)
                     else ([], S k, true)
        | [] => ([], S k, true)
        end
      else let '(t, k, term) := scan_line r in (c :: t, S k, term)
  end.

(** Modelled from the spec: the line grammar.  The spec lists a "get_line
    for text streams", describes lines as ended by a carriage-return/
    line-feed sequence with "a bare CR" for a blank line, and writes every
    line end of scenario S3 as CR CR LF.  [getline_lines] takes the
    characters up to the first CR or LF as the line and drops the
    terminator: a lone LF, or a run of CR with the LF that may follow it.
    That is what the parser is taken to get on a good stream with a
    character left (see [line_reader]).  On the other streams
    [getline_lines] is one reader among others, used for the samples: it
    reads from the buffer whatever the state of the stream, raises [eofbit]
    when the buffer ends before a character is read, and raises no
    [failbit]. *)
Definition getline_lines (s : istream) : string * istream :=
  let '(t, k, term) := scan_line (rest s) in
  let s1 := set_gpos (gpos s + k) s in
  (string_of_list_ascii t,
   if negb term && (match t with [] => true | _ => false end)
   then set_eof s1 else s1).

(** The same reader behind a sentry: [failbit] is raised on a stream that is
    not good, and the buffer is read all the same. *)
Definition getline_sentry (s : istream) : string * istream :=
  getline_lines (snd (sentry s)).

(** [util::getline] is not part of the sources, and the spec says of it no
    more than the line grammar: the parser takes it as a parameter.  A
    [line_reader] is what the facts below assume of it: it leaves the buffer
    as it is; on a good stream with a character left it reads a line of the
    grammar and leaves the stream good; at the end of the buffer it reads an
    empty line and leaves the position; and it does not clear [eofbit].
    What it does to [failbit] at the end of the buffer, and what it does on
    a stream that is not good and has characters left, is left open. *)
Record line_reader (getline : istream -> string * istream) : Prop :=
  mk_line_reader {
  reader_buf : forall s, buf (snd (getline s)) = buf s;
  reader_line :
    forall s, good s = true -> rest s <> [] -> getline s = getline_lines s;
  reader_end :
    forall s, rest s = [] ->
              fst (getline s) = "" /\ gpos (snd (getline s)) = gpos s;
  reader_eofbit :
    forall s, eofbit s = true -> eofbit (snd (getline s)) = true
}.

(** A reader that raises no [failbit] when it is called on a good stream at
    the end of the buffer. *)
Definition quiet_at_end (getline : istream -> string * istream) : Prop :=
  forall s, good s = true -> rest s = [] ->
            failbit (snd (getline s)) = false.

(** A reader that raises no [failbit] at the end of the buffer, whatever the
    state of the stream. *)
Definition quiet_at_eof (getline : istream -> string * istream) : Prop :=
  forall s, rest s = [] -> failbit (snd (getline s)) = failbit s.

(** *** Keys of the header lines *)

Definition in_range (lo hi c : ascii) : bool :=
  (nat_of_ascii lo <=? nat_of_ascii c)%nat
  && (nat_of_ascii c <=? nat_of_ascii hi)%nat.
Definition is_digit (c : ascii) : bool := in_range "0" "9" c.
Definition is_upper (c : ascii) : bool := in_range "A" "Z" c.

Fixpoint starts_with (p l : list ascii) : bool :=
  match p, l with
  | [], _ => true
  | a :: p', b :: l' => (a =? b)%char && starts_with p' l'
  | _ :: _, [] => false
  end.

Definition chars (x : string) : list ascii := list_ascii_of_string x.

(** [std::regex_search(line, reDateTimeString)] with
    [reDateTimeString = "^[0-9]{3,4} ([AP]M|UTC)"]. *)
Definition reDateTimeString (line : string) : bool :=
  let meridiem (r : list ascii) :=
    starts_with (chars " AM") r || starts_with (chars " PM") r
    || starts_with (chars " UTC") r in
  match chars line with
  | d1 :: d2 :: d3 :: r =>
      is_digit d1 && is_digit d2 && is_digit d3
      && (meridiem r
          || match r with
             | d4 :: r' => is_digit d4 && meridiem r'
             | [] => false
             end)
  | _ => false
  end.

(** [reUgcString = "^[A-Z]{2}[CZ]([0-9]{3})?[->]"]. *)
Definition reUgcString (line : string) : bool :=
  let separator (r : list ascii) :=
    match r with
    | c :: _ => (c =? "-")%char || (c =? ">")%char
    | [] => false
    end in
  match chars line with
  | s1 :: s2 :: f :: r =>
      is_upper s1 && is_upper s2 && ((f =? "C")%char || (f =? "Z")%char)
      && (match r with
          | d1 :: d2 :: d3 :: r' =>
              is_digit d1 && is_digit d2 && is_digit d3 && separator r'
          | _ => false
          end
          || separator r)
  | _ => false
  end.

(** [rePVtecString = "^/[OTEX]\\."]. *)
Definition rePVtecString (line : string) : bool :=
  match chars line with
  | slash :: k :: dot :: _ =>
      (slash =? "/")%char
      && ((k =? "O")%char || (k =? "T")%char || (k =? "E")%char
          || (k =? "X")%char)
      && (dot =? ".")%char
  | _ => false
  end.

(** [reHVtecString = "^/[A-Z0-9]{5}\\."]. *)
Definition reHVtecString (line : string) : bool :=
  let id (c : ascii) := is_upper c || is_digit c in
  match chars line with
  | slash :: c1 :: c2 :: c3 :: c4 :: c5 :: dot :: _ =>
      (slash =? "/")%char && id c1 && id c2 && id c3 && id c4 && id c5
      && (dot =? ".")%char
  | _ => false
  end.

(** *** The message *)

(** Modelled from the spec: [PVtec] is not part of the sources; the P-VTEC
    of a header is the line that carries the P-VTEC key, and [pVtec_] keeps
    the line that [PVtec::Parse] is given. *)
Record Vtec : Type := mk_Vtec {
  pVtec_ : string;
  hVtec_ : string
}.

Record SegmentHeader : Type := mk_SegmentHeader {
  ugcString_ : string;
  vtecString_ : list Vtec;
  ugcNames_ : list string;
  issuanceDateTime_ : string
}.

Record Segment : Type := mk_Segment {
  header_ : option SegmentHeader;
  productContent_ : list string
}.

Record TextProductMessageImpl : Type := mk_TextProductMessageImpl {
  mndHeader_ : list string;
  segments_ : list Segment
}.

(** The loops of the parser take a line from the stream on every turn; they
    are written with a counter of turns, [None] when the counter runs out.
    [turns s] is more than any loop can take on [s]. *)
Definition turns (s : istream) : nat := S (S (length (buf s))).

Definition is_char (c : ascii) (x : option ascii) : bool :=
  match x with
  | Some c' => (c' =? c)%char
  | None => false
  end.

(** What is left for a loop that takes a line per turn and stops on
    [eofbit]: a bound on the turns it can take. *)
Definition lines_left (s : istream) : nat :=
  (avail s + if eofbit s then 0 else 1)%nat.

Section Getline.

(** [util::getline], a parameter. *)
Variable getline : istream -> string * istream.

(** [while (is.peek() == '\r') util::getline(is, line);] *)
Fixpoint SkipBlankLines_loop (n : nat) (s : istream) : option istream :=
  match n with
  | O => None
  | S n' =>
      let '(c, s) := peek s in
      if is_char CR c then SkipBlankLines_loop n' (snd (getline s))
      else Some s
  end.

Definition SkipBlankLines (s : istream) : option istream :=
  SkipBlankLines_loop (turns s) s.

(** [while (!productContent.empty() && productContent.back().empty())
    productContent.pop_back();] *)
Fixpoint pop_empty_back (l : list string) : list string :=
  match l with
  | [] => []
  | x :: r =>
      match pop_empty_back r with
      | [] => if String.eqb x "" then [] else [x]
      | r' => x :: r'
      end
  end.

Fixpoint ParseProductContent_loop (n : nat) (s : istream)
    (productContent : list string) : option (list string * istream) :=
  match n with
  | O => None
  | S n' =>
      if eof s then Some (productContent, s)
      else
        let '(c, s) := peek s in
        if is_char ETX c then Some (productContent, s)
        else
          let '(line, s) := getline s in
          let productContent := (productContent ++ [line])%list in
          if starts_with (chars "$$") (chars line)
          then Some (productContent, s)
          else ParseProductContent_loop n' s productContent
  end.

Definition ParseProductContent (s : istream)
  : option (list string * istream) :=
  match ParseProductContent_loop (turns s) s [] with
  | Some (productContent, s) => Some (pop_empty_back productContent, s)
  | None => None
  end.

Definition TryParseEndOfProduct (s : istream) : option (bool * istream) :=
  let '(isBegin, s) := tellg s in
  let '(c, s) := peek s in
  let '(endOfStream, s) :=
    if is_char ETX c then (true, snd (get s))
    else let '(c, s) := peek s in
         match c with
         | None => (true, s)
         | Some _ => (false, s)
         end in
  if endOfStream then Some (true, s)
  else
    let '(line, s) := getline s in
    match SkipBlankLines s with
    | None => None
    | Some s =>
        let '(c, s) := peek s in
        let '(endOfStream, s) :=
          if is_char ETX c then (true, snd (get s))
          else let '(c, s) := peek s in
               match c with
               | None => (true, s)
               | Some _ => (false, s)
               end in
        if endOfStream then Some (true, s)
        else Some (false, seekg isBegin s)
    end.

Fixpoint TryParseMndHeader_loop (n : nat) (s : istream)
    (mndHeader : list string) : option (list string * istream) :=
  match n with
  | O => None
  | S n' =>
      if eof s then Some (mndHeader, s)
      else
        let '(c, s) := peek s in
        if is_char CR c then Some (mndHeader, s)
        else
          let '(line, s) := getline s in
          TryParseMndHeader_loop n' s (mndHeader ++ [line])%list
  end.

Definition TryParseMndHeader (s : istream)
  : option (list string * istream) :=
  let '(isBegin, s) := tellg s in
  match TryParseMndHeader_loop (turns s) s [] with
  | None => None
  | Some (mndHeader, s) =>
      let mndHeader :=
        match last mndHeader with
        | Some back => if negb (reDateTimeString back) then [] else mndHeader
        | None => mndHeader
        end in
      match mndHeader with
      | [] => Some ([], seekg isBegin s)
      | _ => Some (mndHeader, s)
      end
  end.

Definition TryParseVtecString (s : istream) : option Vtec * istream :=
  let '(isBegin, s) := tellg s in
  let '(line, s) := getline s in
  if rePVtecString line then
    let pVtec := line in
    let '(isBegin, s) := tellg s in
    let '(line, s) := getline s in
    if reHVtecString line then (Some (mk_Vtec pVtec line), s)
    else (Some (mk_Vtec pVtec ""), seekg isBegin s)
  else (None, seekg isBegin s).

(** [while ((vtec = TryParseVtecString(is)) != std::nullopt)] *)
Fixpoint vtec_loop (n : nat) (s : istream) (vtecString : list Vtec)
  : option (list Vtec * istream) :=
  match n with
  | O => None
  | S n' =>
      match TryParseVtecString s with
      | (Some vtec, s) => vtec_loop n' s (vtecString ++ [vtec])%list
      | (None, s) => Some (vtecString, s)
      end
  end.

(** The loop over the UGC names, up to the issuance date/time line. *)
Fixpoint names_loop (n : nat) (s : istream) (ugcNames : list string)
  : option (list string * string * istream) :=
  match n with
  | O => None
  | S n' =>
      if eof s then Some (ugcNames, "", s)
      else
        let '(c, s) := peek s in
        if is_char CR c then Some (ugcNames, "", s)
        else
          let '(line, s) := getline s in
          if negb (reDateTimeString line)
          then names_loop n' s (ugcNames ++ [line])%list
          else Some (ugcNames, line, s)
  end.

Definition TryParseSegmentHeader (s : istream)
  : option (option SegmentHeader * istream) :=
  let '(isBegin, s) := tellg s in
  let '(line, s) := getline s in
  if reUgcString line then
    match vtec_loop (turns s) s [] with
    | None => None
    | Some (vtecString, s) =>
        match names_loop (turns s) s [] with
        | None => None
        | Some (ugcNames, issuanceDateTime, s) =>
            Some (Some (mk_SegmentHeader line vtecString ugcNames
                          issuanceDateTime), s)
        end
    end
  else Some (None, seekg isBegin s).

Section Parse.

(** [WmoHeader::Parse] is not part of the sources: the parser of the WMO
    header is a parameter; it answers whether the header is valid and leaves
    the stream after it. *)
Variable WmoHeader_Parse : istream -> bool * istream.

(** One turn of the loop over the segments; [i] is the loop index.  The
    result [inl] is the [break]. *)
Definition Parse_segment (i : nat) (s : istream) (p : TextProductMessageImpl)
  : option (TextProductMessageImpl * istream + TextProductMessageImpl * istream) :=
  '(stop, s) ← (if (i =? 0)%nat then Some (false, s)
                else TryParseEndOfProduct s);
  if (stop : bool) then Some (inl (p, s))
  else
    '(header, mndHeader, s) ←
      (if (i =? 0)%nat then
         let '(c, s) := peek s in
         '(header, s) ← (if negb (is_char CR c) then TryParseSegmentHeader s
                         else Some (None, s));
         s ← SkipBlankLines s;
         '(mndHeader, s) ← TryParseMndHeader s;
         s ← SkipBlankLines s;
         Some (header, mndHeader, s)
       else Some (None, mndHeader_ p, s));
    '(header, s) ←
      (match header with
       | Some _ => Some (header, s)
       | None =>
           '(header, s) ← TryParseSegmentHeader s;
           s ← SkipBlankLines s;
           Some (header, s)
       end);
    '(productContent, s) ← ParseProductContent s;
    s ← SkipBlankLines s;
    let segment := mk_Segment header productContent in
    let keep :=
      match header, productContent with
      | None, [] => false
      | _, _ => true
      end in
    Some (inr (mk_TextProductMessageImpl mndHeader
                 (if keep then (segments_ p ++ [segment])%list
                  else segments_ p), s)).

(** [for (size_t i = 0; dataValid && !is.eof(); i++)] with [dataValid] true. *)
Fixpoint Parse_loop (n i : nat) (s : istream) (p : TextProductMessageImpl)
  : option (TextProductMessageImpl * istream) :=
  match n with
  | O => None
  | S n' =>
      if eof s then Some (p, s)
      else
        match Parse_segment i s p with
        | None => None
        | Some (inl done) => Some done
        | Some (inr (p, s)) => Parse_loop n' (S i) s p
        end
  end.

(** [TextProductMessage::Parse]: the validity it returns and the message. *)
Definition Parse (s : istream)
  : option (bool * TextProductMessageImpl * istream) :=
  let p := mk_TextProductMessageImpl [] [] in
  let '(dataValid, s) := WmoHeader_Parse s in
  if dataValid then
    '(p, s) ← Parse_loop (turns s) 0 s p;
    Some (dataValid, p, s)
  else Some (dataValid, p, s).

End Parse.

End Getline.

(** *** Scenario S3 *)

Definition CRCRLF : string := String CR (String CR (String LF "")).

Definition S3_body : string :=
  "/O.NEW.KSTL.SV.W.0001.250101T0000Z-250101T0100Z/" ++ CRCRLF
  ++ "1200 PM CST MON JAN 01 2025" ++ CRCRLF
  ++ "BODY" ++ CRCRLF
  ++ "$$" ++ CRCRLF
  ++ String ETX "".

(** The text of scenario S3; ["<WMO>"] stands for the WMO header. *)
Definition S3 : string := "<WMO>" ++ CRCRLF ++ "KSTL-" ++ CRCRLF ++ S3_body.

(** The same product under a UGC line that names a zone. *)
Definition S3_zone : string :=
  "<WMO>" ++ CRCRLF ++ "MOZ064-" ++ CRCRLF ++ S3_body.

(** A parser for the stand-in header of S3: it takes the line ["<WMO>"] and
    reports a valid header. *)
Definition WmoHeader_placeholder (getline : istream -> string * istream)
    (s : istream) : bool * istream :=
  let '(line, s) := getline s in (String.eqb line "<WMO>", s).

(** A stream at the second line of a product: two lines of text, a blank
    line and a further line follow. *)
Definition sample_text_stream : istream :=
  mk_istream
    (chars ("FIRST" ++ CRCRLF ++ "HELLO" ++ CRCRLF ++ "WORLD" ++ CRCRLF
            ++ CRCRLF ++ "MORE" ++ CRCRLF))
    8 false false.

(** Two lines of text, the second running to the end of the buffer: no
    blank line follows them. *)
Definition sample_unterminated_stream : istream :=
  open (chars ("12345 PM" ++ CRCRLF ++ "123 AM")).

Definition S3_pvtec : string :=
  "/O.NEW.KSTL.SV.W.0001.250101T0000Z-250101T0100Z/".
Definition S3_issuance : string := "1200 PM CST MON JAN 01 2025".

(** What scenario S3 expects of [Parse] on [S3]: one segment, whose header
    has the UGC string, one P-VTEC and the issuance date/time line, and
    whose product content is the line ["BODY"]. *)
Definition S3_expected (getline : istream -> string * istream)
    (wmo : istream -> bool * istream) : Prop :=
  exists (valid : bool) (p : TextProductMessageImpl) (s' : istream)
         (segment : Segment) (h : SegmentHeader) (vtec : Vtec),
    Parse getline wmo (open (chars S3)) = Some (valid, p, s') /\
    segments_ p = [segment] /\
    header_ segment = Some h /\
    ugcString_ h = "KSTL-" /\
    vtecString_ h = [vtec] /\
    issuanceDateTime_ h = S3_issuance /\
    productContent_ segment = ["BODY"].

End Awips.

(** ** The radar product manager *)

Module Manager.

(** *** Records and caches *)

(** Modelled from the spec: [common::RadarProductGroup] is declared outside
    the sources; the spec gives it as the enum [{Level2, Level3}]. *)
Inductive RadarProductGroup : Type := Level2 | Level3.

Definition group_eqb (a b : RadarProductGroup) : bool :=
  match a, b with
  | Level2, Level2 | Level3, Level3 => true
  | _, _ => false
  end.

(** Modelled from the spec: [types::RadarProductRecord] is declared outside
    the sources; the spec gives it a time, a group, a product name, a radar
    id and the parsed file.  Of the file the manager reads its start time
    ([level2_file()->start_time()]).  Time points are counts of ticks of the
    system clock since its epoch. *)
Record NexradFile : Type := mk_NexradFile {
  file_id : nat;
  start_time : Z
}.

Record RadarProductRecord : Type := mk_RadarProductRecord {
  time : Z;
  radar_product_group : RadarProductGroup;
  radar_product : string;
  radar_id : string;
  nexrad_file : NexradFile
}.

Definition level2_file (r : RadarProductRecord) : NexradFile := nexrad_file r.

(** [RadarProductRecordMap]: a [std::map] from time points to records. *)
Abbreviation RadarProductRecordMap := (gmap Z RadarProductRecord).

(** The record caches of [RadarProductManagerImpl]. *)
Record RadarProductManagerImpl : Type := mk_RadarProductManagerImpl {
  level2ProductRecords_ : RadarProductRecordMap;
  level3ProductRecordsMap_ : gmap string RadarProductRecordMap
}.

(** The entry of greatest key among those whose key satisfies [P]. *)
Definition pick_max {V : Type} (P : Z -> bool) (kv : Z * V)
    (acc : option (Z * V)) : option (Z * V) :=
  if P (fst kv) then
    match acc with
    | Some kv' => if fst kv' <? fst kv then Some kv else acc
    | None => Some kv
    end
  else acc.

Definition max_entry {V : Type} (P : Z -> bool) (m : gmap Z V)
  : option (Z * V) :=
  foldr (pick_max P) None (map_to_list m).

(** [m.rbegin()->second] of a map that is not empty. *)
Definition rbegin {V : Type} (m : gmap Z V) : option V :=
  snd <$> max_entry (fun _ => true) m.

(** Modelled from the spec: [util::GetBoundedElementValue] is not part of
    the sources; the spec gives the record map a "greatest key ≤ t" lookup;
    the value is null when no key is at or below [t]. *)
Definition GetBoundedElementValue {V : Type} (m : gmap Z V) (t : Z)
  : option V :=
  snd <$> max_entry (fun k => k <=? t) m.

(** [m[k]] of an [unordered_map] of maps: a missing key is entered with an
    empty map. *)
Definition map_index {V : Type} (m : gmap string (gmap Z V)) (k : string)
  : gmap Z V * gmap string (gmap Z V) :=
  match m !! k with
  | Some v => (v, m)
  | None => (∅, <[k := ∅]> m)
  end.

(** Time points and durations of the system clock are 64-bit counts of
    ticks: a sum or a difference of counts is taken modulo [2^64], in the
    signed range. *)
Definition to_int64 (z : Z) : Z := (z + 2 ^ 63) mod 2 ^ 64 - 2 ^ 63.

Definition in_int64 (z : Z) : Prop := - 2 ^ 63 <= z < 2 ^ 63.

Section Clock.

(** The number of ticks of the system clock in a millisecond. *)
Variable ticks_per_ms : Z.

Definition ticks_per_second : Z := 1000 * ticks_per_ms.

(** [std::chrono::time_point_cast<std::chrono::seconds>(t)], as the time
    point the maps are keyed with: the cast truncates toward zero. *)
Definition time_point_cast_seconds (t : Z) : Z :=
  Z.quot t ticks_per_second * ticks_per_second.

(** [RadarProductManagerImpl::StoreRadarProductRecord]: the record it returns
    and the caches after the call. *)
Definition StoreRadarProductRecord (record : RadarProductRecord)
    (m : RadarProductManagerImpl)
  : RadarProductRecord * RadarProductManagerImpl :=
  let storedRecord := record in
  let timeInSeconds := time_point_cast_seconds (time record) in
  if group_eqb (radar_product_group record) Level2 then
    match level2ProductRecords_ m !! timeInSeconds with
    | Some it => (it, m)
    | None =>
        (storedRecord,
         mk_RadarProductManagerImpl
           (<[timeInSeconds := record]> (level2ProductRecords_ m))
           (level3ProductRecordsMap_ m))
    end
  else if group_eqb (radar_product_group record) Level3 then
    let '(productMap, level3) :=
      map_index (level3ProductRecordsMap_ m) (radar_product record) in
    match productMap !! timeInSeconds with
    | Some it =>
        (it, mk_RadarProductManagerImpl (level2ProductRecords_ m) level3)
    | None =>
        (storedRecord,
         mk_RadarProductManagerImpl (level2ProductRecords_ m)
           (<[radar_product record := <[timeInSeconds := record]> productMap]>
              level3))
    end
  else (storedRecord, m).

(** The cache a record belongs to: the Level-2 map, or the Level-3 map of its
    product (empty when the product has none yet). *)
Definition cache_of (m : RadarProductManagerImpl) (r : RadarProductRecord)
  : RadarProductRecordMap :=
  match radar_product_group r with
  | Level2 => level2ProductRecords_ m
  | Level3 => default ∅ (level3ProductRecordsMap_ m !! radar_product r)
  end.

(** [RadarProductManagerImpl::GetLevel2ProductRecord]; the default time point
    is the epoch of the clock. *)
Definition GetLevel2ProductRecord (m : RadarProductManagerImpl) (t : Z)
  : option RadarProductRecord :=
  if negb (bool_decide (level2ProductRecords_ m = ∅)) && (t =? 0) then
    rbegin (level2ProductRecords_ m)
  else
    match GetBoundedElementValue (level2ProductRecords_ m) t with
    | Some record =>
        if t <? start_time (level2_file record) then None else Some record
    | None => None
    end.

(** *** Refresh of a provider *)

(** [ProviderManager]: the refresh flag and the one-shot timer; an armed
    timer holds the interval, in milliseconds, it was set to expire after. *)
Record ProviderManager : Type := mk_ProviderManager {
  radarId_ : string;
  group_ : RadarProductGroup;
  product_ : string;
  refreshEnabled_ : bool;
  refreshTimer_ : option Z
}.

(** The constructors of [ProviderManager]. *)
Definition ProviderManager_new (radarId : string) (group : RadarProductGroup)
    (product : string) : ProviderManager :=
  mk_ProviderManager radarId group product false None.

Definition ProviderManager_new_group (radarId : string)
    (group : RadarProductGroup) : ProviderManager :=
  ProviderManager_new radarId group "???"%string.

(** Modelled from the spec: [provider::NexradDataProvider] is not part of
    the sources; the spec lists its capabilities ([refresh] with the counts
    of new and of all objects, [find_latest_key], [time_point_by_key],
    [update_period], [last_modified]).  The record holds what the provider
    of a manager answers while one refresh body runs, and the reading of the
    system clock in it. *)
Record Provider : Type := mk_Provider {
  Refresh : nat * nat;
  FindLatestKey : string;
  GetTimePointByKey : string -> Z;
  update_period : Z;
  last_modified : Z;
  now : Z
}.

(** What a call leaves behind besides the new state: a signal, or a refresh
    body handed to the worker pool with [util::async]. *)
Inductive Effect : Type :=
| NewDataAvailable (group : RadarProductGroup) (product : string)
    (latestTime : Z)
| AsyncRefresh.

Definition set_refresh (pm : ProviderManager) (enabled : bool)
    (timer : option Z) : ProviderManager :=
  mk_ProviderManager (radarId_ pm) (group_ pm) (product_ pm) enabled timer.

(** [ProviderManager::Disable]. *)
Definition Disable (pm : ProviderManager) : ProviderManager :=
  set_refresh pm false None.

(** [kRetryInterval_], in milliseconds. *)
Definition kRetryInterval_ : Z := 15 * 1000.

(** [std::chrono::duration_cast<std::chrono::milliseconds>] of a count of
    ticks. *)
Definition duration_cast_ms (ticks : Z) : Z := Z.quot ticks ticks_per_ms.

(** [RadarProductManagerImpl::RefreshData] up to [util::async]: the timer is
    cancelled and the body is handed to the pool. *)
Definition RefreshData (pm : ProviderManager)
  : ProviderManager * list Effect :=
  (set_refresh pm (refreshEnabled_ pm) None, [AsyncRefresh]).

(** The body [RefreshData] hands to the pool, from the call of the provider
    to the end of the branches (lines 472 to 503): the manager, the interval
    in milliseconds and the signals emitted.  The two differences of the
    interval are differences of 64-bit counts of ticks. *)
Definition RefreshData_listing (provider : Provider) (pm : ProviderManager)
  : ProviderManager * Z * list Effect :=
  let '(newObjects, totalObjects) := Refresh provider in
  let interval := kRetryInterval_ in
  if (0 <? newObjects)%nat then
    let key := FindLatestKey provider in
    let latestTime := GetTimePointByKey provider key in
    let updatePeriod := update_period provider in
    let lastModified := last_modified provider in
    let interval :=
      duration_cast_ms
        (to_int64 (updatePeriod - to_int64 (now provider - lastModified))) in
    let interval :=
      if interval <? kRetryInterval_ then kRetryInterval_ else interval in
    (pm, interval, [NewDataAvailable (group_ pm) (product_ pm) latestTime])
  else if refreshEnabled_ pm && (totalObjects =? 0)%nat then
    (set_refresh pm false (refreshTimer_ pm), interval, [])
  else (pm, interval, []).

(** The block of the body under [refreshTimerMutex_] (lines 507 to 535): the
    timer is armed. *)
Definition RefreshData_arm (interval : Z) (pm : ProviderManager)
  : ProviderManager :=
  set_refresh pm (refreshEnabled_ pm) (Some interval).

(** The body [RefreshData] hands to the pool (lines 472 to 536), run without
    another call in between: the flag is tested at line 505, before the
    mutex is taken. *)
Definition RefreshData_body (provider : Provider) (pm : ProviderManager)
  : ProviderManager * list Effect :=
  let '(pm, interval, signals) := RefreshData_listing provider pm in
  if refreshEnabled_ pm
  then (RefreshData_arm interval pm, signals)
  else (pm, signals).

(** The handler of the timer: an expiry runs [RefreshData]; a cancelled
    wait only logs. *)
Definition timer_expired (pm : ProviderManager)
  : ProviderManager * list Effect :=
  RefreshData pm.

(** [RadarProductManagerImpl::EnableRefresh]. *)
Definition EnableRefresh (pm : ProviderManager) (enabled : bool)
  : ProviderManager * list Effect :=
  if negb (eqb (refreshEnabled_ pm) enabled) then
    let pm := set_refresh pm enabled (refreshTimer_ pm) in
    if enabled then RefreshData pm else (pm, [])
  else (pm, []).

End Clock.

(** [(k, r)] is the entry of greatest key of [m]. *)
Definition greatest {V : Type} (m : gmap Z V) (k : Z) (r : V) : Prop :=
  m !! k = Some r /\ forall k' r', m !! k' = Some r' -> k' <= k.

(** [(k, r)] is the entry of greatest key of [m] among the keys at or below
    [t]. *)
Definition greatest_le {V : Type} (m : gmap Z V) (t k : Z) (r : V) : Prop :=
  m !! k = Some r /\ k <= t /\
  forall k' r', m !! k' = Some r' -> k' <= t -> k' <= k.

(** Sample records: two Level-2 volumes a few minutes apart, and a Level-3
    product. *)
Definition sample_record (t : Z) (id : nat) : RadarProductRecord :=
  mk_RadarProductRecord t Level2 "" "KLSX" (mk_NexradFile id t).

Definition sample_level3_record (t : Z) (id : nat) : RadarProductRecord :=
  mk_RadarProductRecord t Level3 "N0B" "KLSX" (mk_NexradFile id t).

Definition sample_caches : RadarProductManagerImpl :=
  mk_RadarProductManagerImpl
    (<[1000000 := sample_record 1000400 1]>
       (<[2000000 := sample_record 2000000 2]> ∅))
    ∅.

(** A Level-2 provider manager with refresh enabled and its timer idle. *)
Definition sample_manager : ProviderManager :=
  mk_ProviderManager "KLSX" Level2 "???" true None.

(** Answers of a provider, with a clock of nanosecond ticks: the listing was
    last modified ten seconds before the refresh and is updated every five
    minutes. *)
Definition sample_provider (newObjects totalObjects : nat) : Provider :=
  mk_Provider (newObjects, totalObjects) "2025/01/01/KLSX/vol"
    (fun _ => 1735689600 * 1000000000)
    (300 * 1000000000)
    (1735689900 * 1000000000)
    (1735689910 * 1000000000).

(** The same answers with an update period of [10^10] seconds, which is
    more ticks of a nanosecond clock than a 64-bit count holds. *)
Definition sample_provider_long : Provider :=
  mk_Provider (2%nat, 5%nat) "2025/01/01/KLSX/vol"
    (fun _ => 1735689600 * 1000000000)
    (10000000000 * 1000000000)
    (1735689900 * 1000000000)
    (1735689910 * 1000000000).

End Manager.

(** ** Message 31: further definitions *)

Module RdaExtra.
Import IStream Rda.

(** The [n] characters a good stream holds [k] characters after its
    position. *)
Definition bytes_at (s : istream) (k n : nat) : list ascii :=
  take n (drop k (rest s)).

(** The big-endian value of a run of bytes. *)
Definition be_decode (bs : list ascii) : Z :=
  fold_left (fun acc b => 256 * acc + byte_val b) bs 0.

(** A stream that was good at [s0] and has been read since: either every
    read went through and it stands [k] characters after [s0], or it has
    failed. *)
Definition track (s0 : istream) (k : nat) (s : istream) : Prop :=
  s = at_off s0 k \/ failbit s = true.

(** A block that is present carries the data name [expected]. *)
Definition named {A : Type} (name_of : A -> string) (expected : string)
    (x : option A) : Prop :=
  match x with
  | Some a => name_of a = expected
  | None => True
  end.

(** Every block that is present sits in the slot of its data name. *)
Definition slots_named (b : Blocks) : Prop :=
  named v_dataName_ "VOL" (volumeDataBlock_ b) /\
  named e_dataName_ "ELV" (elevationDataBlock_ b) /\
  named r_dataName_ "RAD" (radialDataBlock_ b) /\
  named m_dataName_ "REF" (momentRefDataBlock_ b) /\
  named m_dataName_ "VEL" (momentVelDataBlock_ b) /\
  named m_dataName_ "SW " (momentSwDataBlock_ b) /\
  named m_dataName_ "ZDR" (momentZdrDataBlock_ b) /\
  named m_dataName_ "PHI" (momentPhiDataBlock_ b) /\
  named m_dataName_ "RHO" (momentRhoDataBlock_ b) /\
  named m_dataName_ "CFP" (momentCfpDataBlock_ b).

(** A validation that accepts every message. *)
Definition validate_all (s : istream) (bytesRead : nat) : bool * istream :=
  (true, s).

(** The fixed fields of a message with six data blocks and no compression,
    and its six pointers. *)
Definition sample_valid_stream : istream :=
  open (map ascii_of_nat
          [75; 76; 83; 88; 0; 0; 0; 0; 0; 0; 0; 1; 0; 0; 0; 0;
           0; 0; 0; 0; 1; 0; 1; 0; 0; 0; 0; 0; 0; 0; 0; 6;
           0; 0; 0; 200; 0; 0; 0; 200; 0; 0; 0; 200;
           0; 0; 0; 200; 0; 0; 0; 200; 0; 0; 0; 200]%nat).

(** A message cut after 31 bytes. *)
Definition sample_truncated_stream : istream :=
  open (map ascii_of_nat
          [75; 76; 83; 88; 0; 0; 0; 0; 0; 0; 0; 1; 0; 0; 0; 0;
           0; 0; 0; 0; 1; 0; 1; 0; 0; 0; 0; 0; 0; 0; 6]%nat).

(** A moment block that announces 2000 gates of 8 bits, and one that
    announces four gates of 8 bits and is cut after the second. *)
Definition sample_moment_too_many : istream :=
  open (map ascii_of_nat
          [0; 0; 0; 0; 7; 208; 8; 102; 0; 250; 0; 0; 0; 16; 0; 8;
           66; 0; 0; 0; 66; 132; 0; 0; 7; 9; 255]%nat).

Definition sample_moment_cut : istream :=
  open (map ascii_of_nat
          [0; 0; 0; 0; 0; 4; 8; 102; 0; 250; 0; 0; 0; 16; 0; 8;
           66; 0; 0; 0; 66; 132; 0; 0; 7; 9]%nat).

End RdaExtra.

(** ** AWIPS text products: further definitions *)

Module AwipsExtra.
Import IStream Awips.

Local Open Scope string_scope.

(** [line.starts_with("$$")]. *)
Definition is_terminator (line : string) : bool :=
  starts_with (chars "$$") (chars line).

(** A line that starts with ["$$"] is the last line. *)
Definition terminator_last (content : list string) : Prop :=
  forall (i : nat) (line : string),
    content !! i = Some line -> is_terminator line = true ->
    S i = length content.

(** [TextProductMessage::Create]: a message, or null when [Parse] reports an
    invalid product. *)
Definition Create (getline : istream -> string * istream)
    (WmoHeader_Parse : istream -> bool * istream) (s : istream)
  : option (option TextProductMessageImpl * istream) :=
  match Parse getline WmoHeader_Parse s with
  | Some (valid, p, s') => Some (if valid then Some p else None, s')
  | None => None
  end.

(** A segment [Parse] keeps: it has a header or some product content. *)
Definition kept (segment : Segment) : Prop :=
  header_ segment <> None \/ productContent_ segment <> [].

(** A header as [TryParseSegmentHeader] accepts it. *)
Definition header_keyed (h : SegmentHeader) : Prop :=
  reUgcString (ugcString_ h) = true /\
  Forall (fun v => rePVtecString (pVtec_ v) = true /\
                   (hVtec_ v = "" \/ reHVtecString (hVtec_ v) = true))
         (vtecString_ h) /\
  Forall (fun name => reDateTimeString name = false) (ugcNames_ h) /\
  (issuanceDateTime_ h = "" \/
   reDateTimeString (issuanceDateTime_ h) = true).

(** Product content: two lines, blank lines, a terminator and the start of a
    further segment. *)
Definition sample_content_stream : istream :=
  open (chars ("BODY" ++ CRCRLF ++ "MORE" ++ CRCRLF ++ CRCRLF ++ CRCRLF
               ++ "$$" ++ CRCRLF ++ "NEXT" ++ CRCRLF)).

(** Blank lines before a line of text. *)
Definition sample_blank_stream : istream :=
  open (chars (CRCRLF ++ CRCRLF ++ String CR (String LF "")
               ++ "TEXT" ++ CRCRLF)).

(** A P-VTEC line followed by text, and one followed by an H-VTEC line. *)
Definition sample_vtec_stream : istream :=
  open (chars (S3_pvtec ++ CRCRLF ++ S3_issuance ++ CRCRLF)).

Definition sample_hvtec : string :=
  "/00000.0.ER.000000T0000Z.000000T0000Z.000000T0000Z.OO/".

Definition sample_hvtec_stream : istream :=
  open (chars (S3_pvtec ++ CRCRLF ++ sample_hvtec ++ CRCRLF
               ++ S3_issuance ++ CRCRLF)).

(** A segment header with names, followed by a blank line. *)
Definition sample_header_stream : istream :=
  open (chars ("MOZ064-ILZ100-010100-" ++ CRCRLF ++ S3_pvtec ++ CRCRLF
               ++ "ST. LOUIS MO-ST. CLAIR IL-" ++ CRCRLF
               ++ S3_issuance ++ CRCRLF ++ CRCRLF ++ "BODY" ++ CRCRLF)).

(** An MND header: three lines, the issuance time last, then a blank line. *)
Definition sample_mnd_stream : istream :=
  open (chars ("BULLETIN - IMMEDIATE BROADCAST REQUESTED" ++ CRCRLF
               ++ "SEVERE THUNDERSTORM WARNING" ++ CRCRLF
               ++ S3_issuance ++ CRCRLF ++ CRCRLF ++ "BODY" ++ CRCRLF)).

(** The end of a product, and the end of a product after a forecast
    identifier. *)
Definition sample_etx_stream : istream :=
  open (chars (String ETX "TRAILING")).

(** A character of a line end. *)
Definition is_line_end (c : ascii) : Prop := c = CR \/ c = LF.

(** The characters of the buffer between the positions of [s] and [s']. *)
Definition skipped (s s' : istream) : list ascii :=
  take (gpos s' - gpos s) (rest s).

(** A segment as [Parse] stores it: it has a header or some product content,
    its header carries the keys, and its content has the shape
    [ParseProductContent] gives. *)
Definition well_formed_segment (segment : Segment) : Prop :=
  kept segment /\
  (forall h, header_ segment = Some h -> header_keyed h) /\
  last (productContent_ segment) <> Some "" /\
  terminator_last (productContent_ segment).

(** The stream stands at its end or before a blank line. *)
Definition at_blank_or_end (s : istream) : Prop :=
  eofbit s = true \/ fst (peek s) = Some CR.

(** A forecast identifier before the end of the product. *)
Definition sample_identifier_stream : istream :=
  open (chars ("SMITH" ++ CRCRLF ++ CRCRLF ++ String ETX "")).

End AwipsExtra.

(** ** The radar product manager: further definitions *)

Module ManagerExtra.
Import Manager.

(** *** Lookup of a Level-3 record *)

(** [RadarProductManagerImpl::GetLevel3ProductRecord].  For the default time
    point the code takes [it->second.rbegin()->second] without a test for an
    empty map: the outer [None] stands for that read of [rbegin()] of an
    empty map, which has no defined result; [Some None] is the null
    record. *)
Definition GetLevel3ProductRecord (m : RadarProductManagerImpl)
    (product : string) (t : Z) : option (option RadarProductRecord) :=
  match level3ProductRecordsMap_ m !! product with
  | Some productMap =>
      if t =? 0 then
        match rbegin productMap with
        | Some record => Some (Some record)
        | None => None
        end
      else Some (GetBoundedElementValue productMap t)
  | None => Some None
  end.

Section Clock.

Variable ticks_per_ms : Z.

(** The keys of a cache are time points of whole seconds, as
    [StoreRadarProductRecord] enters them. *)
Definition whole_seconds (cache : RadarProductRecordMap) : Prop :=
  forall k r, cache !! k = Some r ->
              time_point_cast_seconds ticks_per_ms k = k.

(** The caches as [StoreRadarProductRecord] builds them: keys of whole
    seconds, and no Level-3 product with an empty map. *)
Definition caches_ok (m : RadarProductManagerImpl) : Prop :=
  whole_seconds (level2ProductRecords_ m) /\
  forall product productMap,
    level3ProductRecordsMap_ m !! product = Some productMap ->
    productMap <> ∅ /\ whole_seconds productMap.

End Clock.

(** No records yet. *)
Definition no_records : RadarProductManagerImpl :=
  mk_RadarProductManagerImpl ∅ ∅.

(** *** Provider managers *)

(** The provider managers of a [RadarProductManagerImpl]: the one of
    Level 2, made by the constructor, and the map of those of the Level-3
    products.  The managers are shared objects: a manager is the entry of
    the map, and what a call does to it is seen in the map. *)
Record ProviderManagers : Type := mk_ProviderManagers {
  impl_radarId_ : string;
  level2ProviderManager_ : ProviderManager;
  level3ProviderManagerMap_ : gmap string ProviderManager
}.

(** The constructor of [RadarProductManagerImpl], for the provider
    managers. *)
Definition ProviderManagers_new (radarId : string) : ProviderManagers :=
  mk_ProviderManagers radarId (ProviderManager_new_group radarId Level2) ∅.

(** [RadarProductManagerImpl::GetLevel3ProviderManager]: the manager of the
    product, entered in the map when the map does not contain it; the map
    contains the product when [at(product)] reads it. *)
Definition GetLevel3ProviderManager (p : ProviderManagers) (product : string)
  : ProviderManager * ProviderManagers :=
  let p :=
    if negb (bool_decide (is_Some (level3ProviderManagerMap_ p !! product)))
    then mk_ProviderManagers (impl_radarId_ p) (level2ProviderManager_ p)
           (<[product := ProviderManager_new (impl_radarId_ p) Level3 product]>
              (level3ProviderManagerMap_ p))
    else p in
  (default (ProviderManager_new (impl_radarId_ p) Level3 product)
     (level3ProviderManagerMap_ p !! product), p).

(** [RadarProductManager::EnableRefresh].  For a Level-3 product the body
    handed to the pool runs as one step; [availableProducts] is what the
    provider answers to [GetAvailableProducts] in it. *)
Definition RadarProductManager_EnableRefresh (availableProducts : list string)
    (p : ProviderManagers) (group : RadarProductGroup) (product : string)
    (enabled : bool) : ProviderManagers * list Effect :=
  if group_eqb group Level2 then
    let '(providerManager, effects) :=
      EnableRefresh (level2ProviderManager_ p) enabled in
    (mk_ProviderManagers (impl_radarId_ p) providerManager
       (level3ProviderManagerMap_ p), effects)
  else
    let '(providerManager, p) := GetLevel3ProviderManager p product in
    if bool_decide (product ∈ availableProducts) then
      let '(providerManager, effects) :=
        EnableRefresh providerManager enabled in
      (mk_ProviderManagers (impl_radarId_ p) (level2ProviderManager_ p)
         (<[product := providerManager]> (level3ProviderManagerMap_ p)),
       effects)
    else (p, []).

(** A provider manager of the Level-3 map belongs to the product it is
    entered for. *)
Definition keyed_by_product (p : ProviderManagers) : Prop :=
  forall product pm,
    level3ProviderManagerMap_ p !! product = Some pm ->
    radarId_ pm = impl_radarId_ p /\ group_ pm = Level3 /\
    product_ pm = product.

(** *** The instances *)

(** The managers are objects on the heap: an instance is named by the
    number of its allocation.  [instanceMap_] holds weak pointers: whether
    one can still be locked depends on who holds the instance, which the
    callers of [Instance] tell with [alive]. *)
Record Instances : Type := mk_Instances {
  instanceMap_ : gmap string nat;
  allocated : nat
}.

Inductive Signal : Type :=
| RadarProductManagerCreated (radarSite : string).

(** [RadarProductManager::Instance]: the instance, the signals emitted and
    the registry after the call. *)
Definition Instance (alive : nat -> bool) (reg : Instances)
    (radarSite : string) : nat * list Signal * Instances :=
  let instance :=
    match instanceMap_ reg !! radarSite with
    | Some it => if alive it then Some it else None
    | None => None
    end in
  match instance with
  | Some instance => (instance, [], reg)
  | None =>
      let instance := allocated reg in
      (instance, [RadarProductManagerCreated radarSite],
       mk_Instances (<[radarSite := instance]> (instanceMap_ reg))
         (S (allocated reg)))
  end.

(** [RadarProductManager::Cleanup], for the instances. *)
Definition Cleanup (reg : Instances) : Instances :=
  mk_Instances ∅ (allocated reg).

(** Every instance of the registry has been allocated. *)
Definition instances_ok (reg : Instances) : Prop :=
  forall site it, instanceMap_ reg !! site = Some it ->
                  (it < allocated reg)%nat.

(** *** The coordinates *)

Section Coordinates.

(** [common::MAX_DATA_MOMENT_GATES] and the number of radials are constants
    of [common/constants.hpp], which is not part of the sources; the values
    computed in floating point and by [geodesic.Direct] for a radial and a
    gate are taken as given. *)
Variable MAX_DATA_MOMENT_GATES : Z.
Variable MAX_RADIALS : Z.
Variable F : Type.
Variable Direct : Z -> Z -> F * F.

Definition NUM_RADIAL_GATES : Z := MAX_RADIALS * MAX_DATA_MOMENT_GATES.
Definition NUM_COORIDNATES : Z := NUM_RADIAL_GATES * 2.

(** [static_cast<uint16_t>], and the arithmetic of [uint32_t]. *)
Definition to_uint16 (x : Z) : Z := x mod 65536.
Definition to_uint32 (x : Z) : Z := x mod 4294967296.

(** The body of the loop over the radial gates: the two slots it writes. *)
Definition set_coordinates (coordinates : list F) (radialGate : Z) : list F :=
  let gate := to_uint16 (radialGate mod MAX_DATA_MOMENT_GATES) in
  let radial := to_uint16 (radialGate / MAX_DATA_MOMENT_GATES) in
  let offset := Z.to_nat (to_uint32 (radialGate * 2)) in
  let '(latitude, longitude) := Direct radial gate in
  <[S offset := longitude]> (<[offset := latitude]> coordinates).

(** [std::for_each] over the radial gates, taken in the order [order];
    [fill] is what [resize] puts in the new slots. *)
Definition calculate_coordinates (fill : F) (order : list Z) : list F :=
  foldl set_coordinates (replicate (Z.to_nat NUM_COORIDNATES) fill) order.

(** [boost::irange<uint32_t>(0, NUM_RADIAL_GATES)]. *)
Definition radialGates : list Z :=
  Z.of_nat <$> seq 0 (Z.to_nat NUM_RADIAL_GATES).

End Coordinates.

(** The slots of a radial and a gate in the vector of coordinates. *)
Definition latitude_slot (MAX_DATA_MOMENT_GATES radial gate : Z) : nat :=
  Z.to_nat ((radial * MAX_DATA_MOMENT_GATES + gate) * 2).

Definition longitude_slot (MAX_DATA_MOMENT_GATES radial gate : Z) : nat :=
  S (latitude_slot MAX_DATA_MOMENT_GATES radial gate).

(** The constants fit the types of the code: the gate and the radial fit
    [uint16_t], the number of coordinates fits [uint32_t]. *)
Definition constants_fit (MAX_DATA_MOMENT_GATES MAX_RADIALS : Z) : Prop :=
  0 < MAX_DATA_MOMENT_GATES <= 65536 /\ 0 <= MAX_RADIALS <= 65536 /\
  NUM_COORIDNATES MAX_DATA_MOMENT_GATES MAX_RADIALS < 4294967296.

(** *** [Initialize] *)

(** The slots one turn of the loop writes. *)
Definition written (radialGate : Z) : list nat :=
  let offset := Z.to_nat (to_uint32 (radialGate * 2)) in [offset; S offset].

(** The types [float] and [double] and the operations of the code on them
    are taken as given: the conversion of an [int] to [float], the product
    and the difference of two [float], the five literals, the value a
    [resize] fills with, the promotion of a [float] argument to [double]
    and the conversion of a [double] to the [float] of a vector element.
    [float_value] and [double_value] give the number a value stands for,
    none for an infinity or a NaN.  [Geodesic_Direct] is
    [GeographicLib::Geodesic::Direct(lat1, lon1, azi1, s12, lat2, lon2)] on
    the WGS-84 ellipsoid, a function of an external library: the latitude
    and the longitude of the second point. *)
Class Arithmetic : Type := mk_Arithmetic {
  float : Type;
  double : Type;
  float_of_int : Z -> float;
  float_mul : float -> float -> float;
  float_sub : float -> float -> float;
  literal_0_5f : float;
  literal_0_25f : float;
  literal_1_0f : float;
  literal_150_0f : float;
  literal_250_0f : float;
  float_zero : float;
  double_of_float : float -> double;
  float_of_double : double -> float;
  float_value : float -> option QArith_base.Q;
  double_value : double -> option QArith_base.Q;
  Geodesic_Direct : double -> double -> double -> double -> double * double
}.

(** [lo <= x <= hi] for the number [x] of a floating-point value that is
    finite. *)
Definition within (lo hi : Z) (x : option QArith_base.Q) : Prop :=
  match x with
  | Some q =>
      QArith_base.Qle (QArith_base.inject_Z lo) q /\
      QArith_base.Qle q (QArith_base.inject_Z hi)
  | None => False
  end.

Definition finite (x : option QArith_base.Q) : Prop := x <> None.

Section Initialize.

Context {arithmetic : Arithmetic}.

(** The constants of [common/constants.hpp], which is not part of the
    sources. *)
Variable MAX_DATA_MOMENT_GATES : Z.
Variable MAX_0_5_DEGREE_RADIALS : Z.
Variable MAX_1_DEGREE_RADIALS : Z.

(** Modelled from the spec: [config::RadarSite] is not part of the sources;
    the spec gives a radar site an id, a type, a latitude and a
    longitude. *)
Record RadarSite : Type := mk_RadarSite {
  site_id : string;
  type : string;
  latitude : double;
  longitude : double
}.

(** The coordinate vectors of [RadarProductManagerImpl] and the flag that
    guards them. *)
Record Coordinates : Type := mk_Coordinates {
  initialized_ : bool;
  coordinates0_5Degree_ : list float;
  coordinates1Degree_ : list float
}.

(** The state the constructor of [RadarProductManagerImpl] leaves. *)
Definition Coordinates_new : Coordinates := mk_Coordinates false [] [].

Definition NUM_RADIAL_GATES_0_5_DEGREE : Z :=
  MAX_0_5_DEGREE_RADIALS * MAX_DATA_MOMENT_GATES.
Definition NUM_RADIAL_GATES_1_DEGREE : Z :=
  MAX_1_DEGREE_RADIALS * MAX_DATA_MOMENT_GATES.
Definition NUM_COORIDNATES_0_5_DEGREE : Z := NUM_RADIAL_GATES_0_5_DEGREE * 2.
Definition NUM_COORIDNATES_1_DEGREE : Z := NUM_RADIAL_GATES_1_DEGREE * 2.

(** [RadarProductManager::gate_size]. *)
Definition gate_size (site : RadarSite) : float :=
  if String.eqb (type site) "tdwr" then literal_150_0f else literal_250_0f.

(** [radial * 0.5f - 0.25f] and [radial * 1.0f - 0.5f]. *)
Definition angle_0_5_degree (radial : Z) : float :=
  float_sub (float_mul (float_of_int radial) literal_0_5f) literal_0_25f.
Definition angle_1_degree (radial : Z) : float :=
  float_sub (float_mul (float_of_int radial) literal_1_0f) literal_0_5f.

(** [(gate + 1) * gateSize]. *)
Definition range (gateSize : float) (gate : Z) : float :=
  float_mul (float_of_int (gate + 1)) gateSize.

(** The call of [geodesic.Direct] for a radial and a gate, and the two
    values as they are stored in the vector of [float]. *)
Definition direct (radar : double * double) (angle : Z -> float)
    (gateSize : float) (radial gate : Z) : float * float :=
  let '(latitude, longitude) :=
    Geodesic_Direct (fst radar) (snd radar)
      (double_of_float (angle radial))
      (double_of_float (range gateSize gate)) in
  (float_of_double latitude, float_of_double longitude).

(** [v.resize(n)]: the first [n] elements, filled up with zeros. *)
Definition resize (n : nat) (v : list float) : list float :=
  (take n v ++ replicate (n - length v) float_zero)%list.

(** [RadarProductManager::Initialize]; the two loops run over their radial
    gates in the orders [order0_5] and [order1]. *)
Definition Initialize (site : RadarSite) (order0_5 order1 : list Z)
    (p : Coordinates) : Coordinates :=
  if initialized_ p then p
  else
    let radar := (latitude site, longitude site) in
    let gateSize := gate_size site in
    let coordinates0_5Degree :=
      foldl (set_coordinates MAX_DATA_MOMENT_GATES float
               (direct radar angle_0_5_degree gateSize))
        (resize (Z.to_nat NUM_COORIDNATES_0_5_DEGREE)
           (coordinates0_5Degree_ p))
        order0_5 in
    let coordinates1Degree :=
      foldl (set_coordinates MAX_DATA_MOMENT_GATES float
               (direct radar angle_1_degree gateSize))
        (resize (Z.to_nat NUM_COORIDNATES_1_DEGREE)
           (coordinates1Degree_ p))
        order1 in
    mk_Coordinates true coordinates0_5Degree coordinates1Degree.

(** What is assumed of the floating-point operations and of the library.
    The azimuths and the ranges of the loops are finite.  The promotion to
    [double] keeps the number.  The conversion to [float] rounds between
    any two integers up to [2^24] that bound the number, for they are
    numbers of [float].  [Geodesic_Direct] is as its documentation has it:
    from a latitude between -90 and 90 and finite arguments it gives a
    latitude between -90 and 90 and a longitude between -180 and 180. *)
Record arithmetic_as_documented : Prop := mk_arithmetic_as_documented {
  angles_finite :
    forall radial, 0 <= radial < 65536 ->
      finite (float_value (angle_0_5_degree radial)) /\
      finite (float_value (angle_1_degree radial));
  ranges_finite :
    forall site gate, 0 <= gate < 65536 ->
      finite (float_value (range (gate_size site) gate));
  promotion_exact :
    forall x, double_value (double_of_float x) = float_value x;
  conversion_monotone :
    forall lo hi x, Z.abs lo <= 2 ^ 24 -> Z.abs hi <= 2 ^ 24 ->
      within lo hi (double_value x) ->
      within lo hi (float_value (float_of_double x));
  Direct_range :
    forall lat1 lon1 azi1 s12,
      within (-90) 90 (double_value lat1) ->
      finite (double_value lon1) -> finite (double_value azi1) ->
      finite (double_value s12) ->
      within (-90) 90 (double_value (fst (Geodesic_Direct lat1 lon1 azi1 s12)))
      /\ within (-180) 180
           (double_value (snd (Geodesic_Direct lat1 lon1 azi1 s12)))
}.

End Initialize.

(** A sample of the arithmetic: rational numbers for both floating-point
    types, and a stand-in for the geodesic that moves north by the range in
    kilometres and east by the azimuth, cut to the ranges of a latitude and
    of a longitude. *)
Definition clamp (lo hi : Z) (q : QArith_base.Q) : QArith_base.Q :=
  if QArith_base.Qle_bool q (QArith_base.inject_Z lo)
  then QArith_base.inject_Z lo
  else if QArith_base.Qle_bool (QArith_base.inject_Z hi) q
       then QArith_base.inject_Z hi else q.

Definition sample_Direct (lat1 lon1 azi1 s12 : QArith_base.Q)
  : QArith_base.Q * QArith_base.Q :=
  (clamp (-90) 90
     (QArith_base.Qplus lat1
        (QArith_base.Qmult s12 (QArith_base.Qmake 1 1000))),
   clamp (-180) 180 (QArith_base.Qplus lon1 azi1)).

Definition sample_arithmetic : Arithmetic :=
  mk_Arithmetic QArith_base.Q QArith_base.Q QArith_base.inject_Z
    QArith_base.Qmult QArith_base.Qminus
    (QArith_base.Qmake 1 2) (QArith_base.Qmake 1 4) (QArith_base.Qmake 1 1)
    (QArith_base.Qmake 150 1) (QArith_base.Qmake 250 1)
    (QArith_base.Qmake 0 1) (fun x => x) (fun x => x) Some Some
    sample_Direct.

Definition sample_site : @RadarSite sample_arithmetic :=
  @mk_RadarSite sample_arithmetic "KLSX" "wsr88d"
    (QArith_base.Qmake 387 10) (QArith_base.Qmake (-907) 10).

(** *** The available Level-3 products *)

Inductive Level3Signal : Type :=
| Level3ProductsChanged.

Section Level3Products.

(** [common::Level3ProductCategory], its iterator and the tables of the
    products of a category and of the AWIPS ids of a product belong to
    [common/products.hpp], which is not part of the sources: they are taken
    as given. *)
Context {Level3ProductCategory : Type}
  `{Countable Level3ProductCategory}.
Variable Level3ProductCategoryIterator : list Level3ProductCategory.
Variable GetLevel3ProductsByCategory : Level3ProductCategory -> list string.
Variable GetLevel3AwipsIdsByProduct : string -> list string.

(** [common::Level3ProductCategoryMap]. *)
Definition Level3ProductCategoryMap : Type :=
  gmap Level3ProductCategory (gmap string (list string)).

Record Level3Products : Type := mk_Level3Products {
  level3ProductsInitialized_ : bool;
  availableCategoryMap_ : Level3ProductCategoryMap
}.

(** The loop over the AWIPS ids of a product. *)
Definition availableAwipsIds_of (updatedAwipsIdList : list string)
    (product : string) : list string :=
  foldl (fun availableAwipsIds awipsId =>
           if bool_decide (awipsId ∈ updatedAwipsIdList)
           then (availableAwipsIds ++ [awipsId])%list
           else availableAwipsIds)
    [] (GetLevel3AwipsIdsByProduct product).

(** The loop over the products of a category. *)
Definition availableProducts_of (updatedAwipsIdList : list string)
    (category : Level3ProductCategory) : gmap string (list string) :=
  foldl (fun availableProducts product =>
           let availableAwipsIds :=
             availableAwipsIds_of updatedAwipsIdList product in
           match availableAwipsIds with
           | [] => availableProducts
           | _ => <[product := availableAwipsIds]> availableProducts
           end)
    ∅ (GetLevel3ProductsByCategory category).

(** The loop over the categories. *)
Definition update_categories (updatedAwipsIdList : list string)
    (availableCategoryMap : Level3ProductCategoryMap)
  : Level3ProductCategoryMap :=
  foldl (fun availableCategoryMap category =>
           let availableProducts :=
             availableProducts_of updatedAwipsIdList category in
           if negb (bool_decide (availableProducts = ∅))
           then <[category := availableProducts]> availableCategoryMap
           else delete category availableCategoryMap)
    availableCategoryMap Level3ProductCategoryIterator.

(** [kDefaultLevel3Product_]. *)
Definition kDefaultLevel3Product_ : string := "N0B".

(** [RadarProductManager::UpdateAvailableProducts]; the body handed to the
    pool runs as one step, and [updatedAwipsIdList] is what the provider of
    the default product answers to [GetAvailableProducts] in it. *)
Definition UpdateAvailableProducts (updatedAwipsIdList : list string)
    (p : ProviderManagers) (l3 : Level3Products)
  : ProviderManagers * Level3Products * list Level3Signal :=
  if level3ProductsInitialized_ l3 then (p, l3, [])
  else
    let '(level3ProviderManager, p) :=
      GetLevel3ProviderManager p kDefaultLevel3Product_ in
    (p,
     mk_Level3Products true
       (update_categories updatedAwipsIdList (availableCategoryMap_ l3)),
     [Level3ProductsChanged]).

End Level3Products.

(** *** Samples *)

(** A clock of nanosecond ticks; two Level-3 records of a product in cache,
    at whole seconds. *)
Definition sample_ticks_per_ms : Z := 1000000.

Definition sample_level3_caches : RadarProductManagerImpl :=
  mk_RadarProductManagerImpl ∅
    (<["N0B"%string :=
         <[1000 * 1000000000 := sample_level3_record (1000 * 1000000000) 1]>
           (<[1300 * 1000000000
              := sample_level3_record (1300 * 1000000000 + 5) 2]> ∅)]> ∅).

(** Two categories, numbered, with their products and AWIPS ids. *)
Definition sample_products (category : nat) : list string :=
  match category with
  | 0%nat => ["SDR"; "SDV"]
  | 1%nat => ["DHR"]
  | _ => []
  end%string.

Definition sample_awips_ids (product : string) : list string :=
  (if String.eqb product "SDR" then ["N0B"; "N1B"; "N2B"]
   else if String.eqb product "SDV" then ["N0G"; "N1G"]
   else if String.eqb product "DHR" then ["DHR"]
   else [])%string.

End ManagerExtra.

(** ** Facts about the stream operations *)

Module StreamFacts.
Import IStream.

Lemma length_rest (s : istream) : length (rest s) = avail s.
Proof. unfold rest, avail. apply length_drop. Qed.

Lemma read_good (n : nat) (s : istream) :
  good s = true -> (n <= avail s)%nat ->
  read n s = (take n (rest s), set_gpos (gpos s + n) s).
Proof.
  intros Hg Hn. unfold read, sentry. rewrite Hg.
  assert (Hl : length (take n (rest s)) = n).
  { rewrite length_take, length_rest. lia. }
  rewrite Hl. destruct (Nat.ltb_spec n n); [lia | reflexivity].
Qed.

Lemma good_set_gpos (k : nat) (s : istream) :
  good (set_gpos k s) = good s.
Proof. reflexivity. Qed.

Lemma rest_set_gpos (k : nat) (s : istream) :
  rest (set_gpos (gpos s + k) s) = drop k (rest s).
Proof. unfold rest. cbn. rewrite drop_drop. reflexivity. Qed.

Lemma avail_set_gpos (k : nat) (s : istream) :
  avail (set_gpos (gpos s + k) s) = (avail s - k)%nat.
Proof. unfold avail. cbn. lia. Qed.

Lemma good_bits (s : istream) :
  good s = true <-> eofbit s = false /\ failbit s = false.
Proof.
  unfold good. destruct (eofbit s), (failbit s); cbn; intuition congruence.
Qed.

Lemma tellg_good (s : istream) :
  good s = true -> tellg s = (Z.of_nat (gpos s), s).
Proof.
  intros Hg. unfold tellg, sentry, fail. rewrite Hg.
  apply good_bits in Hg as [_ ->]. reflexivity.
Qed.

(** Seeking back to the position of a good stream [s], from any later state
    of the same buffer that has not failed, gives [s] back. *)
Lemma seekg_restore (s s' : istream) :
  good s = true -> wf s -> buf s' = buf s -> failbit s' = false ->
  seekg (Z.of_nat (gpos s)) s' = s.
Proof.
  intros Hg Hwf Hbuf Hfail. apply good_bits in Hg as [He Hf].
  destruct s as [b g e f], s' as [b' g' e' f']. unfold wf in Hwf.
  cbn in *. subst.
  unfold seekg, sentry, good, fail, clear_eof, pubseekpos. cbn.
  destruct (Z.leb_spec 0 (Z.of_nat g)); [| lia].
  destruct (Z.leb_spec (Z.of_nat g) (Z.of_nat (length b))); [| lia].
  cbn. unfold set_gpos. cbn. rewrite Nat2Z.id. reflexivity.
Qed.

Lemma peek_buf (s : istream) :
  buf (snd (peek s)) = buf s /\ gpos (snd (peek s)) = gpos s.
Proof.
  unfold peek, sentry. destruct (good s); [| auto].
  destruct (rest s); auto.
Qed.

(** [peek] answers a character only on a good stream, which it leaves as it
    is. *)
Lemma peek_Some (s s' : istream) (c : ascii) :
  peek s = (Some c, s') -> s' = s /\ good s = true /\ rest s <> [].
Proof.
  unfold peek, sentry. destruct (good s); [| discriminate].
  destruct (rest s) as [| c' r]; [discriminate |].
  intros H. injection H as _ <-. auto.
Qed.

Lemma peek_good_nil (s : istream) :
  good s = true -> rest s = [] -> peek s = (None, set_eof s).
Proof. intros Hg Hr. unfold peek, sentry. rewrite Hg, Hr. reflexivity. Qed.

Lemma peek_good_cons (s : istream) (c : ascii) (r : list ascii) :
  good s = true -> rest s = c :: r -> peek s = (Some c, s).
Proof. intros Hg Hr. unfold peek, sentry. rewrite Hg, Hr. reflexivity. Qed.

Lemma rest_nil_avail (s : istream) : rest s = [] <-> avail s = 0%nat.
Proof.
  rewrite <- length_rest. destruct (rest s); cbn; intuition (try discriminate).
Qed.

End StreamFacts.

(** ** Facts about the Message 31 decoder *)

Module RdaFacts.
Import IStream StreamFacts Rda.

Lemma byte_val_range (c : ascii) : 0 <= byte_val c < 256.
Proof.
  unfold byte_val. pose proof (N_ascii_bounded c) as H.
  split; [apply N2Z.is_nonneg | lia].
Qed.

Lemma ntohs_nonneg (x : Z) : 0 <= ntohs x.
Proof.
  unfold ntohs. apply Z.lor_nonneg. split.
  - apply Z.shiftl_nonneg. apply Z.land_nonneg. right. lia.
  - apply Z.land_nonneg. right. lia.
Qed.

Lemma lor_shiftl_low (a b n : Z) :
  0 <= n -> 0 <= b < 2 ^ n -> Z.lor (Z.shiftl a n) b = a * 2 ^ n + b.
Proof.
  intros Hn Hb.
  assert (Hland : Z.land (Z.shiftl a n) b = 0).
  { apply Z.bits_inj'. intros m Hm.
    rewrite Z.land_spec, Z.bits_0.
    destruct (Z.lt_ge_cases m n) as [Hlt | Hge].
    - rewrite Z.shiftl_spec_low by assumption. reflexivity.
    - destruct (Z.eq_dec b 0) as [-> | Hb0].
      + rewrite Z.bits_0. apply andb_false_r.
      + rewrite (Z.bits_above_log2 b m); [apply andb_false_r | lia |].
        assert (Z.log2 b < n) by (apply Z.log2_lt_pow2; lia). lia. }
  rewrite <- Z.lxor_lor by assumption.
  rewrite <- Z.add_nocarry_lxor by assumption.
  rewrite Z.shiftl_mul_pow2 by assumption. reflexivity.
Qed.

(** A 16-bit word read from the bytes [a], [b] and swapped is the big-endian
    value of the two bytes. *)
Lemma ntohs_le_decode (a b : ascii) :
  ntohs (le_decode [a; b]) = 256 * byte_val a + byte_val b.
Proof.
  pose proof (byte_val_range a) as Ha. pose proof (byte_val_range b) as Hb.
  unfold ntohs. cbn [le_decode].
  set (va := byte_val a) in *. set (vb := byte_val b) in *.
  replace (va + 256 * (vb + 256 * 0)) with (va + vb * 256) by lia.
  change 255 with (Z.ones 8).
  rewrite !Z.land_ones by lia.
  rewrite Z.shiftr_div_pow2 by lia.
  change (2 ^ 8) with 256.
  rewrite Z.div_add by lia. rewrite Z.mod_add by lia.
  rewrite (Z.div_small va) by lia. rewrite (Z.mod_small va) by lia.
  rewrite Z.add_0_l. rewrite (Z.mod_small vb) by lia.
  rewrite lor_shiftl_low by (change (2 ^ 8) with 256; lia).
  change (2 ^ 8) with 256. lia.
Qed.

Lemma stored_full (n : nat) (old : Z) (bs : list ascii) :
  length bs = n -> stored n old bs = le_decode bs.
Proof.
  intros H. unfold stored.
  assert (Hl : length (le_encode n old) = n).
  { clear. revert old. induction n; intros; cbn; [reflexivity | f_equal; auto]. }
  rewrite drop_ge by lia. rewrite app_nil_r. reflexivity.
Qed.

Lemma SwapVector_le_words (n : nat) (l : list ascii) :
  length l = (2 * n)%nat -> SwapVector (le_words 2 n l) = be16_words l.
Proof.
  revert l. induction n as [| n IH]; intros l Hl.
  - destruct l; [reflexivity | discriminate].
  - destruct l as [| a [| b r]]; try (cbn in Hl; lia).
    cbn [le_words SwapVector map]. change (take 2 (a :: b :: r)) with [a; b].
    change (drop 2 (a :: b :: r)) with r.
    rewrite ntohs_le_decode. cbn [be16_words]. f_equal.
    apply IH. cbn in Hl. lia.
Qed.

Lemma length_zero_words (w n : nat) :
  length (concat (map (le_encode w) (replicate n 0))) = (n * w)%nat.
Proof.
  induction n as [| n IH]; [reflexivity |].
  cbn [replicate map concat]. rewrite length_app, IH.
  assert (Hl : forall v, length (le_encode w v) = w).
  { clear. induction w; intros; cbn; [reflexivity | f_equal; auto]. }
  rewrite Hl. lia.
Qed.

Lemma resize_nil {A : Type} (n : nat) (fill : A) :
  resize n fill [] = replicate n fill.
Proof. unfold resize. rewrite take_nil. cbn. f_equal. lia. Qed.

(** The fixed fields leave both gate vectors as the constructor made them. *)
Lemma MomentDataBlock_fields_gates (t name : string) (s : istream) :
  momentGates8_ (fst (MomentDataBlock_fields t name s)) = [] /\
  momentGates16_ (fst (MomentDataBlock_fields t name s)) = [] /\
  0 <= numberOfDataMomentGates_ (fst (MomentDataBlock_fields t name s)).
Proof.
  unfold MomentDataBlock_fields, bind, ret, skip.
  repeat match goal with
         | |- context [read_uint ?n ?o ?x] => destruct (read_uint n o x)
         | |- context [read_int16 ?o ?x] => destruct (read_int16 o x)
         end.
  cbn. auto using ntohs_nonneg.
Qed.

(** C2. A moment data block whose decoded gate count is at most 1840: with
    8-bit words the decoder takes exactly [n_gates] further bytes from the
    stream into the 8-bit gate vector; with 16-bit words it takes exactly
    [2 * n_gates] further bytes into the 16-bit gate vector, every element
    byte-swapped (so that it holds the big-endian value of its two bytes);
    with any other word size it takes no further byte and both gate vectors
    stay empty.  The gate bytes are those the stream holds after the fixed
    fields. *)
Theorem moment_gates_read (t name : string) (s s1 s2 : istream)
    (p p' : MomentDataBlock) :
  MomentDataBlock_fields t name s = (p, s1) ->
  MomentDataBlock_Create t name s = (p', s2) ->
  numberOfDataMomentGates_ p <= 1840 ->
  good s1 = true ->
  let n := Z.to_nat (numberOfDataMomentGates_ p) in
  (dataWordSize_ p = 8 -> (n <= avail s1)%nat ->
     gpos s2 = (gpos s1 + n)%nat /\
     momentGates8_ p' = take n (rest s1) /\
     length (momentGates8_ p') = n /\
     momentGates16_ p' = []) /\
  (dataWordSize_ p = 16 -> (2 * n <= avail s1)%nat ->
     gpos s2 = (gpos s1 + 2 * n)%nat /\
     momentGates16_ p' = SwapVector (le_words 2 n (take (2 * n) (rest s1))) /\
     momentGates16_ p' = be16_words (take (2 * n) (rest s1)) /\
     length (momentGates16_ p') = n /\
     momentGates8_ p' = []) /\
  (dataWordSize_ p <> 8 -> dataWordSize_ p <> 16 ->
     s2 = s1 /\ momentGates8_ p' = [] /\ momentGates16_ p' = []).
Proof.
  intros Hfields Hcreate Hn Hgood n.
  pose proof (MomentDataBlock_fields_gates t name s) as Hf.
  unfold MomentDataBlock_Create, bind in Hcreate.
  rewrite Hfields in Hcreate, Hf. cbn [fst] in Hf.
  destruct Hf as (Hg8 & Hg16 & Hn0).
  rename Hcreate into Hgates.
  unfold MomentDataBlock_gates in Hgates.
  replace ((0 <=? numberOfDataMomentGates_ p)
           && (numberOfDataMomentGates_ p <=? 1840)) with true in Hgates
    by (symmetry; apply andb_true_intro; split; apply Z.leb_le; lia).
  split; [| split].
  - (* 8-bit words *)
    intros Hw Hav. rewrite Hw in Hgates. cbn [Z.eqb Pos.eqb] in Hgates.
    unfold bind, ret, read_chars in Hgates. fold n in Hgates.
    rewrite read_good in Hgates by assumption.
    assert (Hlen : length (take n (rest s1)) = n)
      by (rewrite length_take, length_rest; lia).
    rewrite Hlen, Hg8, resize_nil in Hgates.
    rewrite drop_ge in Hgates by (rewrite length_replicate; lia).
    rewrite app_nil_r in Hgates.
    injection Hgates as <- <-. cbn. auto.
  - (* 16-bit words *)
    intros Hw Hav. rewrite Hw in Hgates. cbn [Z.eqb Pos.eqb] in Hgates.
    unfold bind, ret, read_words in Hgates.
    replace (Z.to_nat (numberOfDataMomentGates_ p * 2)) with (2 * n)%nat
      in Hgates by (unfold n; lia).
    fold n in Hgates. rewrite read_good in Hgates by assumption.
    assert (Hlen : length (take (2 * n) (rest s1)) = (2 * n)%nat)
      by (rewrite length_take, length_rest; lia).
    rewrite Hlen, Hg16, resize_nil in Hgates.
    rewrite drop_ge in Hgates by (rewrite length_zero_words; lia).
    rewrite app_nil_r, length_replicate in Hgates.
    pose proof (SwapVector_le_words n _ Hlen) as Hsw.
    assert (Hbe : forall k l, length l = (2 * k)%nat ->
                              length (be16_words l) = k).
    { clear. induction k as [| k IH]; intros l Hl.
      - destruct l; [reflexivity | discriminate].
      - destruct l as [| a [| b r]]; try (cbn in Hl; lia).
        cbn [be16_words length]. f_equal. apply IH. cbn in Hl. lia. }
    injection Hgates as <- <-.
    cbn [gpos set_gpos momentGates16_ momentGates8_ set_momentGates16].
    split; [reflexivity |]. split; [reflexivity |].
    split; [exact Hsw |]. split; [| exact Hg8].
    change (n + (n + 0))%nat with (2 * n)%nat.
    rewrite Hsw. apply Hbe. exact Hlen.
  - intros H8 H16.
    destruct (Z.eqb_spec (dataWordSize_ p) 8); [contradiction |].
    destruct (Z.eqb_spec (dataWordSize_ p) 16); [contradiction |].
    unfold ret in Hgates. injection Hgates as <- <-. auto.
Qed.

Lemma moment_gates_read_witness :
  gpos (snd (MomentDataBlock_Create "D" "REF" sample_moment_stream)) = 26%nat
  /\ momentGates8_
       (fst (MomentDataBlock_Create "D" "REF" sample_moment_stream))
     = map ascii_of_nat [7; 9]%nat.
Proof.
  pose (f := MomentDataBlock_fields "D" "REF" sample_moment_stream).
  pose (c := MomentDataBlock_Create "D" "REF" sample_moment_stream).
  assert (Hle : numberOfDataMomentGates_ (fst f) <= 1840)
    by (vm_compute; discriminate).
  destruct (moment_gates_read "D" "REF" sample_moment_stream
              (snd f) (snd c) (fst f) (fst c)
              eq_refl eq_refl Hle eq_refl) as [H8 _].
  destruct H8 as (Hpos & Hg & _); [reflexivity | vm_compute; lia |].
  split; [exact Hpos | exact Hg].
Defined.

(** *** Rejected headers *)

Lemma Parse_checks_invalid (h : Header) (v : bool) :
  dataBlockCount_ h < 4 \/ 10 < dataBlockCount_ h
  \/ compressionIndicator_ h <> 0 ->
  snd (Parse_checks h v) = false /\
  dataBlockCount_ (fst (Parse_checks h v)) = 0.
Proof.
  intros H. unfold Parse_checks.
  destruct ((dataBlockCount_ h <? 4) || (10 <? dataBlockCount_ h)) eqn:Hc.
  - cbn [set_dataBlockCount compressionIndicator_].
    destruct (negb (compressionIndicator_ h =? 0)); cbn; auto.
  - apply orb_false_elim in Hc as [H4 H10].
    apply Z.ltb_ge in H4, H10.
    destruct (Z.eqb_spec (compressionIndicator_ h) 0) as [H0 | H0].
    + lia.
    + cbn. auto.
Qed.

(** A header that passes both tests is left as decoded. *)
Lemma Parse_checks_valid (h : Header) (v : bool) :
  4 <= dataBlockCount_ h <= 10 -> compressionIndicator_ h = 0 ->
  Parse_checks h v = (h, v).
Proof.
  intros Hc H0. unfold Parse_checks.
  destruct (Z.ltb_spec (dataBlockCount_ h) 4); [lia |].
  destruct (Z.ltb_spec 10 (dataBlockCount_ h)); [lia |].
  cbn [orb]. rewrite H0. reflexivity.
Qed.

(** C1. For every stream and every object: when the decoded, byte-swapped
    block count is below 4 or above 10, or the decoded compression indicator
    is not zero, [Parse] returns [false] and leaves the block count of the
    object at 0, whatever the validation of the base class answers. *)
Theorem Parse_rejects_header
    (ValidateMessage : istream -> nat -> bool * istream)
    (p : DigitalRadarDataImpl) (s : istream) :
  dataBlockCount_ (decoded_header p s) < 4
  \/ 10 < dataBlockCount_ (decoded_header p s)
  \/ compressionIndicator_ (decoded_header p s) <> 0 ->
  fst (fst (Parse ValidateMessage p s)) = false /\
  data_block_count (snd (fst (Parse ValidateMessage p s))) = 0.
Proof.
  unfold decoded_header, Parse.
  destruct (tellg s) as [isBegin s0]. cbn [snd].
  destruct (Parse_fields (header p) s0) as [h s1]. cbn [fst].
  intros H. destruct (Parse_checks_invalid h true H) as [Hv Hc].
  destruct (Parse_checks h true) as [h' v]. cbn [fst snd] in Hv, Hc.
  subst v. rewrite Hc.
  destruct (read_words 4 (dataBlockPointer_ p) (Z.to_nat 0 * 4) s1)
    as [ptrs s2].
  destruct (Parse_blocks isBegin
              (take (Z.to_nat 0) (SwapArray ptrs (Z.to_nat 0))) (blocks p) s2)
    as [b s3].
  destruct (ValidateMessage (seekg isBegin s3) 0%nat) as [ok s4].
  cbn. split; [destruct ok; reflexivity | exact Hc].
Qed.

Lemma at_off_0 (s : istream) : good s = true -> s = at_off s 0.
Proof.
  destruct s as [b g e f]. unfold good, at_off. cbn.
  destruct e, f; try discriminate. intros _. f_equal. lia.
Qed.

Lemma read_at_off (n k : nat) (s : istream) :
  (k + n <= avail s)%nat ->
  read n (at_off s k) = (take n (drop k (rest s)), at_off s (k + n)).
Proof.
  intros H. rewrite read_good; [| reflexivity | unfold avail in *; cbn; lia].
  unfold rest, at_off, set_gpos. cbn. rewrite drop_drop.
  do 2 f_equal. lia.
Qed.

Lemma read_uint_at_off (n k : nat) (old : Z) (s : istream) :
  (k + n <= avail s)%nat ->
  read_uint n old (at_off s k)
  = (le_decode (take n (drop k (rest s))), at_off s (k + n)).
Proof.
  intros H. unfold read_uint. rewrite read_at_off by assumption.
  rewrite stored_full; [reflexivity |].
  rewrite length_take, length_drop, length_rest. lia.
Qed.

Lemma read_chars_at_off (n k : nat) (old : list ascii) (s : istream) :
  (k + n <= avail s)%nat ->
  fst (read_chars n old (at_off s k)) = take n (drop k (rest s)) ++ drop n old
  /\ snd (read_chars n old (at_off s k)) = at_off s (k + n).
Proof.
  intros H. unfold read_chars. rewrite read_at_off by assumption.
  cbn [fst snd]. split; [| reflexivity]. do 2 f_equal.
  rewrite length_take, length_drop, length_rest. lia.
Qed.

Lemma skip_at_off (k : nat) (off : nat) (s : istream) :
  (gpos s + k + off <= length (buf s))%nat ->
  skip (Z.of_nat off) (at_off s k) = (tt, at_off s (k + off)).
Proof.
  intros H. unfold skip, seekg_cur, sentry, pubseekpos. cbn.
  destruct (Z.leb_spec 0 (Z.of_nat (gpos s + k) + Z.of_nat off)); [| lia].
  destruct (Z.leb_spec (Z.of_nat (gpos s + k) + Z.of_nat off)
              (Z.of_nat (length (buf s)))); [| lia].
  cbn. unfold at_off, set_gpos. cbn. do 2 f_equal. lia.
Qed.

Lemma take_drop_1 {A : Type} (l : list A) (k : nat) (a : A) :
  l !! k = Some a -> take 1 (drop k l) = [a].
Proof.
  intros Ha. destruct (drop k l) as [| x r] eqn:Hd.
  - pose proof (lookup_drop l k 0) as H0. rewrite Hd, Nat.add_0_r, Ha in H0.
    discriminate.
  - pose proof (lookup_drop l k 0) as H0. rewrite Hd, Nat.add_0_r, Ha in H0.
    cbn in H0. injection H0 as ->. reflexivity.
Qed.

Lemma take_drop_2 {A : Type} (l : list A) (k : nat) (a b : A) :
  l !! k = Some a -> l !! S k = Some b -> take 2 (drop k l) = [a; b].
Proof.
  intros Ha Hb.
  pose proof (lookup_drop l k 0) as H0. rewrite Nat.add_0_r, Ha in H0.
  pose proof (lookup_drop l k 1) as H1.
  replace (k + 1)%nat with (S k) in H1 by lia. rewrite Hb in H1.
  destruct (drop k l) as [| x [| y r]]; try discriminate.
  cbn in H0, H1. injection H0 as ->. injection H1 as ->. reflexivity.
Qed.

(** On a good stream that holds the 32 bytes of the fixed fields, the decoded
    block count is the big-endian value of the bytes at offsets 30 and 31 and
    the decoded compression indicator is the byte at offset 16. *)
Lemma decoded_header_offsets (p : DigitalRadarDataImpl) (s : istream)
    (c a b : ascii) :
  good s = true ->
  rest s !! 16%nat = Some c ->
  rest s !! 30%nat = Some a ->
  rest s !! 31%nat = Some b ->
  dataBlockCount_ (decoded_header p s) = 256 * byte_val a + byte_val b /\
  compressionIndicator_ (decoded_header p s) = byte_val c.
Proof.
  intros Hg Hc Ha Hb.
  assert (Hav : (32 <= avail s)%nat).
  { apply lookup_lt_Some in Hb. rewrite length_rest in Hb. lia. }
  assert (Hlen : (gpos s + 32 <= length (buf s))%nat).
  { unfold avail in Hav. lia. }
  unfold decoded_header, tellg, sentry, fail. rewrite Hg.
  assert (Hf : failbit s = false).
  { unfold good in Hg. destruct (eofbit s), (failbit s); try discriminate.
    reflexivity. }
  rewrite Hf. cbn [snd].
  remember (Parse_fields (header p) s) as X eqn:HX.
  rewrite (at_off_0 s Hg) in HX.
  unfold Parse_fields, bind, ret in HX.
  destruct (read_chars_at_off 4 0 (resize 4 NUL (radarIdentifier_ (header p)))
              s ltac:(lia)) as [_ Hs].
  destruct (read_chars 4 _ (at_off s 0)) as [id s1]. cbn [snd] in Hs. subst s1.
  repeat (first [ rewrite read_uint_at_off in HX by lia
                | rewrite (skip_at_off _ 1) in HX by lia ];
          cbn [Nat.add] in HX).
  subst X. cbn [dataBlockCount_ compressionIndicator_ fst].
  rewrite (take_drop_2 _ _ _ _ Ha Hb), (take_drop_1 _ _ _ Hc).
  rewrite ntohs_le_decode. cbn [le_decode]. split; lia.
Qed.

Lemma Parse_rejects_header_witness :
  compression_indicator
    (snd (fst (Parse (fun s _ => (true, s)) DigitalRadarDataImpl_new
                 sample_compressed_stream))) = 1 /\
  fst (fst (Parse (fun s _ => (true, s)) DigitalRadarDataImpl_new
              sample_compressed_stream)) = false /\
  data_block_count
    (snd (fst (Parse (fun s _ => (true, s)) DigitalRadarDataImpl_new
                 sample_compressed_stream))) = 0.
Proof.
  split; [reflexivity |].
  apply (Parse_rejects_header (fun s _ => (true, s)) DigitalRadarDataImpl_new
           sample_compressed_stream).
  right. right. vm_compute. discriminate.
Defined.

End RdaFacts.

(** ** Facts about the text-product parser *)

Module AwipsFacts.
Import IStream StreamFacts Awips AwipsExtra.

Local Open Scope string_scope.

(** *** Facts about lines *)

Lemma count_CR_le (l : list ascii) : (count_CR l <= length l)%nat.
Proof.
  induction l as [| c r IH]; cbn; [lia |].
  destruct (c =? CR)%char; lia.
Qed.

Lemma scan_line_spec (l : list ascii) :
  let '(t, k, term) := scan_line l in
  (k <= length l)%nat /\
  (l <> [] -> (1 <= k)%nat /\ (term = true \/ t <> [])) /\
  (l = [] -> k = 0%nat /\ t = [] /\ term = false).
Proof.
  induction l as [| c r IH]; cbn [scan_line].
  - repeat split; auto; congruence.
  - destruct (c =? LF)%char.
    { cbn. repeat split; auto; try lia; congruence. }
    destruct (c =? CR)%char.
    { pose proof (count_CR_le r) as Hk.
      destruct (drop (count_CR r) r) as [| c' r'] eqn:Hd.
      - cbn. repeat split; auto; try lia; congruence.
      - assert (count_CR r < length r)%nat.
        { destruct (Nat.lt_ge_cases (count_CR r) (length r)) as [? | Hge];
            [assumption |].
          rewrite drop_ge in Hd by lia. discriminate. }
        destruct (c' =? LF)%char; cbn; repeat split; auto; try lia;
          congruence. }
    destruct (scan_line r) as [[t k] term]. destruct IH as (Hk & _ & _).
    cbn. repeat split; try lia; try congruence. right. congruence.
Qed.

(** [getline_lines] keeps the buffer and the [failbit]; it moves forward inside
    the buffer; it takes at least one character when one is left, and then
    keeps the [eofbit]; at the end of the buffer it raises the [eofbit]. *)
Lemma getline_lines_spec (s : istream) :
  let s' := snd (getline_lines s) in
  buf s' = buf s /\ failbit s' = failbit s /\
  (gpos s <= gpos s')%nat /\ (wf s -> wf s') /\
  (rest s <> [] -> (gpos s < gpos s')%nat /\ eofbit s' = eofbit s) /\
  (rest s = [] -> gpos s' = gpos s /\ eofbit s' = true).
Proof.
  unfold getline_lines. pose proof (scan_line_spec (rest s)) as H.
  destruct (scan_line (rest s)) as [[t k] term].
  destruct H as (Hk & Hne & Hnil). rewrite length_rest in Hk.
  set (b := negb term && match t with [] => true | _ :: _ => false end).
  assert (Hs : snd (string_of_list_ascii t,
                    if b then set_eof (set_gpos (gpos s + k) s)
                    else set_gpos (gpos s + k) s)
               = mk_istream (buf s) (gpos s + k)
                   (if b then true else eofbit s) (failbit s)).
  { destruct b; reflexivity. }
  cbn zeta. rewrite Hs. cbn [buf gpos eofbit failbit].
  split; [reflexivity |]. split; [reflexivity |]. split; [lia |].
  split; [| split].
  - unfold wf, avail in *. cbn. lia.
  - intros Hr. destruct (Hne Hr) as [H1 Ht]. split; [lia |].
    subst b. destruct Ht as [-> | Ht]; [reflexivity |].
    destruct t; [congruence |]. rewrite andb_false_r. reflexivity.
  - intros Hr. destruct (Hnil Hr) as (-> & -> & ->). subst b. cbn.
    split; [lia | reflexivity].
Qed.

(** At the end of the buffer the line is empty. *)
Lemma getline_lines_nil (s : istream) :
  rest s = [] -> fst (getline_lines s) = "".
Proof.
  intros Hr. unfold getline_lines. rewrite Hr. reflexivity.
Qed.

(** The keys on some lines. *)
Example reDateTimeString_samples :
  reDateTimeString "1200 PM CST MON JAN 01 2025" = true /\
  reDateTimeString "930 AM CDT" = true /\
  reDateTimeString "1830 UTC" = true /\
  reDateTimeString "12000 PM" = false /\
  reDateTimeString "BODY" = false /\
  reDateTimeString "" = false.
Proof. repeat split. Qed.

Example reUgcString_samples :
  reUgcString "MOZ064-" = true /\
  reUgcString "MOC189>191-" = true /\
  reUgcString "ILZ-" = true /\
  reUgcString "MOZ06-" = false /\
  reUgcString "KSTL-" = false.
Proof. repeat split. Qed.

Example reVtecString_samples :
  rePVtecString "/O.NEW.KSTL.SV.W.0001.250101T0000Z-250101T0100Z/" = true /\
  rePVtecString "/00000.0.ER.000000T0000Z.000000T0000Z.000000T0000Z.OO/"
  = false /\
  reHVtecString "/00000.0.ER.000000T0000Z.000000T0000Z.000000T0000Z.OO/"
  = true /\
  reHVtecString "1200 PM CST MON JAN 01 2025" = false.
Proof. repeat split. Qed.

(** A line ends at CR CR LF, at CR LF, at a lone CR and at a lone LF; a line
    that starts with CR is blank. *)
Example getline_lines_samples :
  getline_lines (open (chars ("BODY" ++ CRCRLF ++ "$$")))
  = ("BODY", mk_istream (chars ("BODY" ++ CRCRLF ++ "$$")) 7 false false) /\
  fst (getline_lines (open (chars (String CR (String LF "X"))))) = "" /\
  gpos (snd (getline_lines (open (chars (String CR (String LF "X")))))) = 2%nat /\
  getline_lines (open (chars "$$"))
  = ("$$", mk_istream (chars "$$") 2 false false) /\
  getline_lines (open []) = ("", mk_istream [] 0 true false).
Proof. repeat split. Qed.

(** A line read from a good stream that has a character left: the stream
    stays good and has fewer characters left. *)
Lemma getline_lines_progress (s : istream) :
  good s = true -> wf s -> rest s <> [] ->
  good (snd (getline_lines s)) = true /\ wf (snd (getline_lines s)) /\
  buf (snd (getline_lines s)) = buf s /\
  (avail (snd (getline_lines s)) < avail s)%nat /\
  (gpos s < gpos (snd (getline_lines s)))%nat.
Proof.
  intros Hg Hwf Hr.
  destruct (getline_lines_spec s) as (Hb & Hf & Hle & Hw & Hne & _).
  destruct (Hne Hr) as [Hlt He]. apply good_bits in Hg as [He0 Hf0].
  split; [apply good_bits; split; congruence |].
  split; [auto |]. split; [assumption |].
  specialize (Hw Hwf). unfold wf, avail in *. rewrite Hb in *. lia.
Qed.

(** *** The two readers *)

Lemma getline_lines_reader : line_reader getline_lines.
Proof.
  split.
  - intros s. apply getline_lines_spec.
  - reflexivity.
  - intros s Hr. split; [apply getline_lines_nil; exact Hr |].
    apply getline_lines_spec. exact Hr.
  - intros s He.
    destruct (getline_lines_spec s) as (_ & _ & _ & _ & Hne & Hnil).
    destruct (rest s) as [| c r] eqn:Hr.
    + apply Hnil. reflexivity.
    + destruct Hne as [_ ->]; [discriminate | exact He].
Qed.

Lemma getline_lines_quiet : quiet_at_eof getline_lines.
Proof. intros s _. apply getline_lines_spec. Qed.

Lemma getline_lines_quiet_at_end : quiet_at_end getline_lines.
Proof.
  intros s Hg _. destruct (getline_lines_spec s) as (_ & -> & _).
  apply good_bits in Hg. tauto.
Qed.

Lemma sentry_fields (s : istream) :
  buf (snd (sentry s)) = buf s /\ gpos (snd (sentry s)) = gpos s /\
  eofbit (snd (sentry s)) = eofbit s /\ rest (snd (sentry s)) = rest s.
Proof. unfold sentry. destruct (good s); repeat split. Qed.

Lemma getline_sentry_reader : line_reader getline_sentry.
Proof.
  unfold getline_sentry. split.
  - intros s. destruct (sentry_fields s) as (Hb & _).
    destruct (getline_lines_spec (snd (sentry s))) as (-> & _). exact Hb.
  - intros s Hg _. unfold sentry. rewrite Hg. reflexivity.
  - intros s Hr. destruct (sentry_fields s) as (_ & Hp & _ & Hrest).
    rewrite <- Hrest in Hr. split; [apply getline_lines_nil; exact Hr |].
    destruct (getline_lines_spec (snd (sentry s))) as (_ & _ & _ & _ & _ & H).
    destruct (H Hr) as [-> _]. exact Hp.
  - intros s He. destruct (sentry_fields s) as (_ & _ & He' & _).
    rewrite <- He' in He.
    apply (reader_eofbit _ getline_lines_reader). exact He.
Qed.

Lemma getline_sentry_quiet_at_end : quiet_at_end getline_sentry.
Proof.
  intros s Hg Hr. unfold getline_sentry, sentry. rewrite Hg.
  apply getline_lines_quiet_at_end; assumption.
Qed.

Lemma avail_turns (s : istream) : (avail s + 1 < turns s)%nat.
Proof. unfold turns, avail. lia. Qed.

Lemma is_char_true (c : ascii) (x : option ascii) :
  is_char c x = true -> x = Some c.
Proof.
  destruct x as [c' |]; cbn; [| discriminate].
  intros H. apply Ascii.eqb_eq in H. congruence.
Qed.

Lemma peek_not_good (s : istream) :
  good s = false -> peek s = (None, set_fail s).
Proof. intros Hg. unfold peek, sentry. rewrite Hg. reflexivity. Qed.

(** [seekg] on a stream that has failed leaves the position. *)
Lemma seekg_failed (p : Z) (s : istream) :
  failbit s = true -> seekg p s = set_fail (clear_eof s).
Proof.
  intros Hf. unfold seekg, sentry, good, fail, clear_eof. cbn. rewrite Hf.
  cbn. reflexivity.
Qed.

(** Seeking back to the position of [s] from a state of the same buffer at
    the same position: the position is the one of [s], whatever the state
    bits are. *)
Lemma seekg_same_position (s s1 : istream) :
  wf s -> buf s1 = buf s -> gpos s1 = gpos s ->
  gpos (seekg (Z.of_nat (gpos s)) s1) = gpos s /\
  buf (seekg (Z.of_nat (gpos s)) s1) = buf s.
Proof.
  intros Hwf Hb Hp. destruct (failbit s1) eqn:Hf.
  - rewrite (seekg_failed _ _ Hf). cbn. auto.
  - destruct s1 as [b1 g1 e1 f1]. cbn in Hb, Hp, Hf. subst b1 g1 f1.
    unfold seekg, sentry, good, fail, clear_eof, pubseekpos. cbn.
    unfold wf in Hwf.
    destruct (Z.leb_spec 0 (Z.of_nat (gpos s))); [| lia].
    destruct (Z.leb_spec (Z.of_nat (gpos s)) (Z.of_nat (length (buf s))));
      [| lia].
    cbn. rewrite Nat2Z.id. auto.
Qed.

(** *** Facts about the parser, for every line reader *)

Section Reader.

Variable getline : istream -> string * istream.
Hypothesis Hreader : line_reader getline.

(** A line read from a good stream that has a character left. *)
Lemma reader_progress (s : istream) :
  good s = true -> wf s -> rest s <> [] ->
  good (snd (getline s)) = true /\ wf (snd (getline s)) /\
  buf (snd (getline s)) = buf s /\
  (avail (snd (getline s)) < avail s)%nat /\
  (gpos s < gpos (snd (getline s)))%nat.
Proof.
  intros Hg Hwf Hr. rewrite (reader_line _ Hreader s Hg Hr).
  apply getline_lines_progress; assumption.
Qed.

(** A line that is not empty was read from characters. *)
Lemma reader_nonempty (s : istream) :
  fst (getline s) <> "" -> rest s <> [].
Proof.
  intros Hline Hr. apply Hline. apply (reader_end _ Hreader s Hr).
Qed.

(** A line read at the end of the buffer of a stream with its [eofbit]:
    the position and the [eofbit] stay. *)
Lemma reader_at_eof (s : istream) :
  rest s = [] -> eofbit s = true ->
  fst (getline s) = "" /\ buf (snd (getline s)) = buf s /\
  gpos (snd (getline s)) = gpos s /\ eofbit (snd (getline s)) = true /\
  rest (snd (getline s)) = [].
Proof.
  intros Hr He. destruct (reader_end _ Hreader s Hr) as [Hl Hp].
  pose proof (reader_buf _ Hreader s) as Hb.
  split; [exact Hl |]. split; [exact Hb |]. split; [exact Hp |].
  split; [apply (reader_eofbit _ Hreader s He) |].
  unfold rest in *. rewrite Hb, Hp. exact Hr.
Qed.

(** The result of a seek back to the position of a good stream [s], from
    what [getline] left of [s]: the position of [s]; and [s] itself when a
    character was left to read. *)
Lemma seekg_after_getline (s : istream) :
  good s = true -> wf s ->
  gpos (seekg (Z.of_nat (gpos s)) (snd (getline s))) = gpos s /\
  buf (seekg (Z.of_nat (gpos s)) (snd (getline s))) = buf s /\
  (rest s <> [] -> seekg (Z.of_nat (gpos s)) (snd (getline s)) = s).
Proof.
  intros Hg Hwf. destruct (rest s) as [| c r] eqn:Hr.
  - destruct (reader_end _ Hreader s Hr) as [_ Hp].
    destruct (seekg_same_position s (snd (getline s)) Hwf
                (reader_buf _ Hreader s) Hp) as [H1 H2].
    split; [exact H1 |]. split; [exact H2 |]. intros H. contradiction.
  - assert (Hne : rest s <> []) by (rewrite Hr; discriminate).
    destruct (reader_progress s Hg Hwf Hne) as (Hg1 & _ & Hb1 & _).
    assert (Hs : seekg (Z.of_nat (gpos s)) (snd (getline s)) = s).
    { apply seekg_restore; auto. apply good_bits in Hg1. tauto. }
    rewrite Hs. auto.
Qed.

(** *** The loops return *)

Lemma SkipBlankLines_loop_total (n : nat) (s : istream) :
  good s = true -> wf s -> (avail s < n)%nat ->
  exists s', SkipBlankLines_loop getline n s = Some s' /\
             failbit s' = false /\ buf s' = buf s /\ wf s' /\
             (good s' = true \/ (eofbit s' = true /\ rest s' = [])).
Proof.
  revert s. induction n as [| n IH]; intros s Hg Hwf Hn; [lia |].
  cbn [SkipBlankLines_loop].
  assert (Hf : failbit s = false) by (apply good_bits in Hg; tauto).
  destruct (rest s) as [| c r] eqn:Hr.
  - rewrite (peek_good_nil s Hg Hr). cbn.
    eexists. split; [reflexivity |]. cbn. repeat split; auto.
  - rewrite (peek_good_cons s c r Hg Hr).
    destruct (is_char CR (Some c)).
    + destruct (reader_progress s Hg Hwf) as (Hg1 & Hw1 & Hb1 & Hlt & _).
      { rewrite Hr. discriminate. }
      destruct (IH (snd (getline s)) Hg1 Hw1 ltac:(lia))
        as (s' & Hs & Hf' & Hb & Hw' & Hend).
      exists s'. split; [exact Hs |]. split; [exact Hf' |].
      split; [congruence |]. split; assumption.
    + eexists. split; [reflexivity |]. repeat split; auto.
Qed.

(** The loop of [TryParseMndHeader] on a good stream: it stops on a good
    stream, before a blank line, or at the end of the buffer, where what
    [getline] did to [failbit] is not known. *)
Lemma TryParseMndHeader_loop_total (n : nat) (s : istream)
    (acc : list string) :
  good s = true -> wf s -> (avail s + 1 < n)%nat ->
  exists r s', TryParseMndHeader_loop getline n s acc = Some (r, s') /\
               buf s' = buf s /\
               (good s' = true \/
                (rest s' = [] /\
                 (quiet_at_eof getline -> failbit s' = false))).
Proof.
  revert s acc. induction n as [| n IH]; intros s acc Hg Hwf Hn; [lia |].
  cbn [TryParseMndHeader_loop]. unfold eof.
  apply good_bits in Hg as Hbits. destruct Hbits as [He Hf]. rewrite He.
  destruct (rest s) as [| c r] eqn:Hr.
  - rewrite (peek_good_nil s Hg Hr). cbn [is_char].
    destruct (reader_at_eof (set_eof s) Hr eq_refl)
      as (_ & Hb & _ & He1 & Hr1).
    assert (Hq : quiet_at_eof getline ->
                 failbit (snd (getline (set_eof s))) = false).
    { intros Hquiet. rewrite (Hquiet (set_eof s) Hr). exact Hf. }
    destruct (getline (set_eof s)) as [line s1]. cbn [fst snd] in *.
    destruct n as [| n]; [lia |].
    cbn [TryParseMndHeader_loop]. unfold eof. rewrite He1.
    eexists _, _. split; [reflexivity |]. auto.
  - rewrite (peek_good_cons s c r Hg Hr).
    destruct (is_char CR (Some c)).
    + eexists _, _. split; [reflexivity |]. auto.
    + destruct (reader_progress s Hg Hwf) as (Hg1 & Hw1 & Hb1 & Hlt & _).
      { rewrite Hr. discriminate. }
      destruct (getline s) as [line s1]. cbn [fst snd] in *.
      destruct (IH s1 (acc ++ [line])%list Hg1 Hw1 ltac:(lia))
        as (r' & s' & Hs & Hb' & Hend).
      exists r', s'. split; [exact Hs |]. split; [congruence | exact Hend].
Qed.

Lemma ParseProductContent_loop_total (n : nat) (s : istream)
    (acc : list string) :
  good s = true -> wf s -> (avail s + 1 < n)%nat ->
  exists r s', ParseProductContent_loop getline n s acc = Some (r, s') /\
               buf s' = buf s.
Proof.
  revert s acc. induction n as [| n IH]; intros s acc Hg Hwf Hn; [lia |].
  cbn [ParseProductContent_loop]. unfold eof.
  apply good_bits in Hg as Hbits. destruct Hbits as [He Hf]. rewrite He.
  destruct (rest s) as [| c r] eqn:Hr.
  - rewrite (peek_good_nil s Hg Hr). cbn [is_char].
    destruct (reader_at_eof (set_eof s) Hr eq_refl)
      as (_ & Hb & _ & He1 & Hr1).
    destruct (getline (set_eof s)) as [line s1]. cbn [fst snd] in *.
    destruct (starts_with (chars "$$") (chars line)); [eauto |].
    destruct n as [| n]; [lia |].
    cbn [ParseProductContent_loop]. unfold eof. rewrite He1. eauto.
  - rewrite (peek_good_cons s c r Hg Hr).
    destruct (is_char ETX (Some c)); [eauto |].
    destruct (reader_progress s Hg Hwf) as (Hg1 & Hw1 & Hb1 & Hlt & _).
    { rewrite Hr. discriminate. }
    destruct (getline s) as [line s1]. cbn [fst snd] in *.
    destruct (starts_with (chars "$$") (chars line)); [eauto |].
    destruct (IH s1 (acc ++ [line])%list Hg1 Hw1 ltac:(lia))
      as (r' & s' & Hs & Hb').
    exists r', s'. split; [exact Hs | congruence].
Qed.

Lemma rePVtecString_nonempty (line : string) :
  rePVtecString line = true -> line <> "".
Proof. intros H ->. discriminate. Qed.

Lemma reHVtecString_nonempty (line : string) :
  reHVtecString line = true -> line <> "".
Proof. intros H ->. discriminate. Qed.

Lemma reUgcString_nonempty (line : string) :
  reUgcString line = true -> line <> "".
Proof. intros H ->. discriminate. Qed.

(** *** The sub-parsers give the position back when they find nothing *)

Lemma TryParseSegmentHeader_rewinds (s : istream) :
  good s = true -> wf s ->
  (reUgcString (fst (getline s)) = false ->
   TryParseSegmentHeader getline s
   = Some (None, seekg (Z.of_nat (gpos s)) (snd (getline s)))) /\
  (forall r s', TryParseSegmentHeader getline s = Some (r, s') ->
                r = None ->
                gpos s' = gpos s /\ buf s' = buf s /\
                (rest s <> [] -> s' = s)).
Proof.
  intros Hg Hwf. pose proof (seekg_after_getline s Hg Hwf) as Hseek.
  unfold TryParseSegmentHeader. rewrite (tellg_good s Hg).
  destruct (getline s) as [line s1]. cbn [fst snd] in *.
  destruct (reUgcString line).
  - split; [discriminate |]. intros r s' H Hr.
    destruct (vtec_loop getline (turns s1) s1 []) as [[v s2] |];
      [| discriminate].
    destruct (names_loop getline (turns s2) s2 []) as [[[a b] s3] |];
      [| discriminate].
    injection H as <- _. discriminate.
  - split; [reflexivity |]. intros r s' H _. injection H as _ <-.
    exact Hseek.
Qed.

Lemma TryParseVtecString_rewinds (s : istream) :
  good s = true -> wf s ->
  fst (TryParseVtecString getline s) = None ->
  gpos (snd (TryParseVtecString getline s)) = gpos s /\
  buf (snd (TryParseVtecString getline s)) = buf s /\
  (rest s <> [] -> snd (TryParseVtecString getline s) = s).
Proof.
  intros Hg Hwf. pose proof (seekg_after_getline s Hg Hwf) as Hseek.
  unfold TryParseVtecString. rewrite (tellg_good s Hg).
  destruct (getline s) as [line s1]. cbn [fst snd] in *.
  destruct (rePVtecString line).
  - destruct (tellg s1) as [b s1']. destruct (getline s1') as [line2 s2].
    destruct (reHVtecString line2); discriminate.
  - intros _. exact Hseek.
Qed.

Lemma seekg_buf (p : Z) (s : istream) : buf (seekg p s) = buf s.
Proof.
  unfold seekg, sentry, fail, pubseekpos.
  destruct (good (clear_eof s)); cbn; [| reflexivity].
  destruct (failbit s); cbn; [reflexivity |].
  match goal with |- context [if ?b then _ else _] => destruct b end;
    reflexivity.
Qed.

Lemma TryParseMndHeader_rewinds (s : istream) :
  good s = true -> wf s ->
  exists h s',
    TryParseMndHeader getline s = Some (h, s') /\
    buf s' = buf s /\
    (h = [] ->
     (gpos s' = gpos s \/ (failbit s' = true /\ rest s' = [])) /\
     (failbit s' = false -> s' = s) /\
     (quiet_at_eof getline -> s' = s)).
Proof.
  intros Hg Hwf. unfold TryParseMndHeader.
  rewrite (tellg_good s Hg).
  destruct (TryParseMndHeader_loop_total (turns s) s [] Hg Hwf
              (avail_turns s)) as (m & s1 & Hloop & Hb1 & Hend).
  rewrite Hloop.
  set (m' := match last m with
             | Some back => if negb (reDateTimeString back) then [] else m
             | None => m
             end).
  destruct m' as [| x m'].
  - eexists _, _. split; [reflexivity |].
    split; [rewrite seekg_buf; exact Hb1 |]. intros _.
    destruct (failbit s1) eqn:Hf1.
    + destruct Hend as [Hg1 | [Hr1 Hq]].
      { apply good_bits in Hg1. destruct Hg1 as [_ Hg1]. congruence. }
      rewrite (seekg_failed _ _ Hf1).
      split; [right; split; [reflexivity | exact Hr1] |].
      split; [cbn; discriminate |].
      intros Hquiet. specialize (Hq Hquiet). congruence.
    + rewrite (seekg_restore s s1 Hg Hwf Hb1 Hf1). auto.
  - eexists _, _. split; [reflexivity |]. split; [exact Hb1 |]. discriminate.
Qed.

Lemma TryParseEndOfProduct_rewinds (s : istream) :
  good s = true -> wf s ->
  exists r s', TryParseEndOfProduct getline s = Some (r, s') /\
               (r = false -> s' = s).
Proof.
  intros Hg Hwf. unfold TryParseEndOfProduct.
  rewrite (tellg_good s Hg).
  destruct (rest s) as [| c r] eqn:Hr.
  - (* the end of the buffer: the end of the product *)
    rewrite (peek_good_nil s Hg Hr). cbn [is_char].
    rewrite (peek_not_good (set_eof s)) by reflexivity.
    eexists _, _. split; [reflexivity | discriminate].
  - rewrite (peek_good_cons s c r Hg Hr).
    destruct (is_char ETX (Some c)).
    { eexists _, _. split; [reflexivity | discriminate]. }
    rewrite (peek_good_cons s c r Hg Hr).
    destruct (reader_progress s Hg Hwf) as (Hg1 & Hw1 & Hb1 & _).
    { rewrite Hr. discriminate. }
    destruct (getline s) as [line s1]. cbn [snd] in *.
    destruct (SkipBlankLines_loop_total (turns s1) s1 Hg1 Hw1)
      as (s2 & Hskip & Hf2 & Hb2 & _).
    { pose proof (avail_turns s1). lia. }
    unfold SkipBlankLines. rewrite Hskip.
    pose proof (peek_buf s2) as [Hb3 _].
    destruct (peek s2) as [c3 s3] eqn:Hp3. cbn [snd] in Hb3.
    destruct (is_char ETX c3) eqn:Hetx.
    { eexists _, _. split; [reflexivity | discriminate]. }
    destruct (peek s3) as [[c4 |] s4] eqn:Hp4.
    + apply peek_Some in Hp4 as (-> & Hg3 & _).
      eexists _, _. split; [reflexivity |]. intros _.
      apply seekg_restore; auto; [congruence |].
      apply good_bits in Hg3. tauto.
    + eexists _, _. split; [reflexivity | discriminate].
Qed.


End Reader.

(** On [sample_text_stream], with the reader of the line grammar, each of
    the four finds nothing and gives the stream back. *)
Example sample_text_stream_misses :
  TryParseSegmentHeader getline_lines sample_text_stream
  = Some (None, sample_text_stream)
  /\ TryParseMndHeader getline_lines sample_text_stream
     = Some ([], sample_text_stream)
  /\ TryParseVtecString getline_lines sample_text_stream
     = (None, sample_text_stream)
  /\ TryParseEndOfProduct getline_lines sample_text_stream
     = Some (false, sample_text_stream).
Proof. repeat split; vm_compute; reflexivity. Qed.



(** *** What the parser returns, for every [getline] *)

Section Shape.

Variable getline : istream -> string * istream.

(** Dropping the empty lines at the back leaves a front part that does not
    end with an empty line. *)
Lemma pop_empty_back_spec (l : list string) :
  (exists k, l = (pop_empty_back l ++ replicate k "")%list) /\
  last (pop_empty_back l) <> Some "".
Proof.
  induction l as [| x r [(k & Hk) Hlast]]; cbn [pop_empty_back].
  - split; [exists 0%nat; reflexivity | discriminate].
  - destruct (pop_empty_back r) as [| y r'] eqn:Hp.
    + destruct (String.eqb_spec x "") as [-> | Hx].
      * split; [| discriminate]. exists (S k). cbn. f_equal. exact Hk.
      * split; [exists k; cbn; f_equal; exact Hk |].
        cbn. congruence.
    + split; [exists k; cbn; f_equal; exact Hk |].
      intros H. apply Hlast. rewrite <- H. reflexivity.
Qed.

Lemma is_terminator_empty : is_terminator "" = false.
Proof. reflexivity. Qed.

Lemma terminator_last_app (front : list string) (k : nat) :
  terminator_last (front ++ replicate k "")%list -> terminator_last front.
Proof.
  intros H i line Hi Ht.
  assert (Hlt : (i < length front)%nat) by (eapply lookup_lt_Some; eauto).
  specialize (H i line). rewrite lookup_app_l in H by exact Hlt.
  specialize (H Hi Ht). rewrite length_app in H. lia.
Qed.

Lemma terminator_last_snoc (acc : list string) (line : string) :
  Forall (fun l => is_terminator l = false) acc ->
  terminator_last (acc ++ [line])%list.
Proof.
  intros Hacc i l Hi Ht. rewrite length_app. cbn.
  destruct (Nat.lt_ge_cases i (length acc)) as [Hlt | Hge].
  - rewrite lookup_app_l in Hi by exact Hlt.
    rewrite Forall_forall in Hacc.
    rewrite (Hacc l) in Ht; [discriminate |].
    eapply list_elem_of_lookup_2. exact Hi.
  - apply lookup_lt_Some in Hi. rewrite length_app in Hi. cbn in Hi. lia.
Qed.

Lemma Forall_terminator_last (acc : list string) :
  Forall (fun l => is_terminator l = false) acc -> terminator_last acc.
Proof.
  intros Hacc i l Hi Ht. rewrite Forall_forall in Hacc.
  rewrite (Hacc l) in Ht; [discriminate |].
  eapply list_elem_of_lookup_2. exact Hi.
Qed.

Lemma ParseProductContent_loop_shape (n : nat) (s s' : istream)
    (acc content : list string) :
  ParseProductContent_loop getline n s acc = Some (content, s') ->
  Forall (fun l => is_terminator l = false) acc ->
  terminator_last content.
Proof.
  revert s acc. induction n as [| n IH]; intros s acc Hloop Hacc;
    [discriminate |].
  cbn [ParseProductContent_loop] in Hloop.
  destruct (eof s).
  { injection Hloop as <- <-. apply Forall_terminator_last. exact Hacc. }
  destruct (peek s) as [c s0].
  destruct (is_char ETX c).
  { injection Hloop as <- <-. apply Forall_terminator_last. exact Hacc. }
  destruct (getline s0) as [line s1].
  fold (is_terminator line) in Hloop.
  destruct (is_terminator line) eqn:Ht.
  - injection Hloop as <- <-. apply terminator_last_snoc. exact Hacc.
  - apply (IH s1 (acc ++ [line])%list Hloop).
    apply Forall_app. split; [exact Hacc |]. constructor; [exact Ht |].
    constructor.
Qed.

Lemma ParseProductContent_shape_of (s s' : istream) (content : list string) :
  ParseProductContent getline s = Some (content, s') ->
  last content <> Some "" /\ terminator_last content.
Proof.
  unfold ParseProductContent. intros H.
  destruct (ParseProductContent_loop getline (turns s) s [])
    as [[raw s1] |] eqn:Hl; [| discriminate].
  injection H as <- <-.
  pose proof (ParseProductContent_loop_shape _ _ _ _ _ Hl (Forall_nil_2 _))
    as Ht.
  destruct (pop_empty_back_spec raw) as [(k & Hk) Hlast].
  split; [exact Hlast |].
  apply (terminator_last_app _ k). rewrite <- Hk. exact Ht.
Qed.

Lemma TryParseVtecString_keyed (s : istream) (v : Vtec) :
  fst (TryParseVtecString getline s) = Some v ->
  rePVtecString (pVtec_ v) = true /\
  (hVtec_ v = "" \/ reHVtecString (hVtec_ v) = true).
Proof.
  unfold TryParseVtecString. destruct (tellg s) as [b s0].
  destruct (getline s0) as [line s1].
  destruct (rePVtecString line) eqn:Hp; [| cbn; discriminate].
  destruct (tellg s1) as [b1 s1']. destruct (getline s1') as [line2 s2].
  destruct (reHVtecString line2) eqn:Hh; cbn; intros H; injection H as <-;
    cbn; auto.
Qed.

Lemma vtec_loop_keyed (n : nat) (s s' : istream) (acc r : list Vtec) :
  vtec_loop getline n s acc = Some (r, s') ->
  Forall (fun v => rePVtecString (pVtec_ v) = true /\
                   (hVtec_ v = "" \/ reHVtecString (hVtec_ v) = true)) acc ->
  Forall (fun v => rePVtecString (pVtec_ v) = true /\
                   (hVtec_ v = "" \/ reHVtecString (hVtec_ v) = true)) r.
Proof.
  revert s acc. induction n as [| n IH]; intros s acc Hloop Hacc;
    [discriminate |].
  cbn [vtec_loop] in Hloop.
  pose proof (TryParseVtecString_keyed s) as Hk.
  destruct (TryParseVtecString getline s) as [[v |] s1]; cbn [fst] in Hk.
  - apply (IH _ _ Hloop). apply Forall_app. split; [exact Hacc |].
    constructor; [apply Hk; reflexivity | constructor].
  - injection Hloop as <- <-. exact Hacc.
Qed.

Lemma names_loop_spec (n : nat) (s s' : istream) (acc names : list string)
    (issuance : string) :
  names_loop getline n s acc = Some (names, issuance, s') ->
  Forall (fun name => reDateTimeString name = false) acc ->
  Forall (fun name => reDateTimeString name = false) names /\
  ((issuance = "" /\ at_blank_or_end s') \/
   reDateTimeString issuance = true).
Proof.
  revert s acc. induction n as [| n IH]; intros s acc Hloop Hacc;
    [discriminate |].
  cbn [names_loop] in Hloop. unfold eof in Hloop.
  destruct (eofbit s) eqn:He.
  { injection Hloop as <- <- <-. split; [exact Hacc |]. left.
    split; [reflexivity | left; exact He]. }
  destruct (peek s) as [c s0] eqn:Hpeek.
  destruct (is_char CR c) eqn:Hc.
  { injection Hloop as <- <- <-. split; [exact Hacc |]. left.
    split; [reflexivity |]. right.
    apply is_char_true in Hc. subst c.
    apply peek_Some in Hpeek as Hs. destruct Hs as (-> & _ & _).
    rewrite Hpeek. reflexivity. }
  destruct (getline s0) as [line s1].
  destruct (reDateTimeString line) eqn:Hd; cbn [negb] in Hloop.
  - injection Hloop as <- <- <-. split; [exact Hacc |]. right. exact Hd.
  - apply (IH _ _ Hloop). apply Forall_app. split; [exact Hacc |].
    constructor; [exact Hd | constructor].
Qed.

Lemma TryParseSegmentHeader_header (s s' : istream) (h : SegmentHeader) :
  TryParseSegmentHeader getline s = Some (Some h, s') ->
  header_keyed h /\
  ugcString_ h = fst (getline (snd (tellg s))) /\
  (issuanceDateTime_ h = "" -> at_blank_or_end s').
Proof.
  unfold TryParseSegmentHeader. intros H.
  destruct (tellg s) as [b s0]. cbn [snd].
  destruct (getline s0) as [line s1]. cbn [fst].
  destruct (reUgcString line) eqn:Hu; [| discriminate].
  destruct (vtec_loop getline (turns s1) s1 []) as [[vtecs s2] |] eqn:Hv;
    [| discriminate].
  destruct (names_loop getline (turns s2) s2 [])
    as [[[names issuance] s3] |] eqn:Hn; [| discriminate].
  injection H as <- <-.
  pose proof (vtec_loop_keyed _ _ _ _ _ Hv (Forall_nil_2 _)) as Hvk.
  destruct (names_loop_spec _ _ _ _ _ _ Hn (Forall_nil_2 _)) as [Hnk Hi].
  split; [| split].
  - unfold header_keyed. cbn. repeat split; auto.
    destruct Hi as [[-> _] | Hi]; auto.
  - reflexivity.
  - cbn. intros ->. destruct Hi as [[_ Hi] | Hi]; [exact Hi | discriminate].
Qed.

Lemma TryParseSegmentHeader_Some_keyed (s s' : istream)
    (header : option SegmentHeader) :
  TryParseSegmentHeader getline s = Some (header, s') ->
  forall h, header = Some h -> header_keyed h.
Proof.
  intros H h ->. apply (TryParseSegmentHeader_header s s' h H).
Qed.

Lemma Parse_segment_segments (i : nat) (s : istream)
    (p : TextProductMessageImpl)
    (r : TextProductMessageImpl * istream + TextProductMessageImpl * istream) :
  Parse_segment getline i s p = Some r ->
  Forall well_formed_segment (segments_ p) ->
  Forall well_formed_segment
    (segments_ (fst (match r with inl x => x | inr x => x end))).
Proof.
  unfold Parse_segment. intros H Hp.
  destruct (if (i =? 0)%nat then Some (false, s) else TryParseEndOfProduct getline s)
    as [[stop s1] |]; [| discriminate].
  cbn [mbind option_bind] in H.
  destruct stop.
  { injection H as <-. exact Hp. }
  match type of H with
  | (?m ≫= _) = _ =>
      destruct m as [[[header m'] s2] |] eqn:HX; [| discriminate]
  end.
  assert (Hfirst : forall h, header = Some h -> header_keyed h).
  { intros h ->.
    destruct (i =? 0)%nat; [| discriminate].
    destruct (peek s1) as [c s0].
    destruct (negb (is_char CR c)).
    - destruct (TryParseSegmentHeader getline s0) as [[header s3] |] eqn:Hh;
        [| discriminate].
      cbn [mbind option_bind] in HX.
      destruct (SkipBlankLines getline s3) as [s4 |]; [| discriminate].
      cbn [mbind option_bind] in HX.
      destruct (TryParseMndHeader getline s4) as [[m1 s5] |]; [| discriminate].
      cbn [mbind option_bind] in HX.
      destruct (SkipBlankLines getline s5) as [s6 |]; [| discriminate].
      cbn [mbind option_bind] in HX. injection HX as -> _ _.
      apply (TryParseSegmentHeader_Some_keyed _ _ _ Hh). reflexivity.
    - cbn [mbind option_bind] in HX.
      destruct (SkipBlankLines getline s0) as [s4 |]; [| discriminate].
      cbn [mbind option_bind] in HX.
      destruct (TryParseMndHeader getline s4) as [[m1 s5] |]; [| discriminate].
      cbn [mbind option_bind] in HX.
      destruct (SkipBlankLines getline s5) as [s6 |]; [| discriminate].
      cbn [mbind option_bind] in HX. discriminate. }
  cbn [mbind option_bind] in H.
  match type of H with
  | (?m ≫= _) = _ =>
      destruct m as [[header' s3] |] eqn:HY; [| discriminate]
  end.
  assert (Hsecond : forall h, header' = Some h -> header_keyed h).
  { intros h ->.
    destruct header as [h0 |].
    - injection HY as -> _. apply Hfirst. reflexivity.
    - destruct (TryParseSegmentHeader getline s2) as [[header s4] |] eqn:Hh;
        [| discriminate].
      cbn [mbind option_bind] in HY.
      destruct (SkipBlankLines getline s4) as [s5 |]; [| discriminate].
      cbn [mbind option_bind] in HY. injection HY as -> _.
      apply (TryParseSegmentHeader_Some_keyed _ _ _ Hh). reflexivity. }
  cbn [mbind option_bind] in H.
  destruct (ParseProductContent getline s3) as [[content s4] |] eqn:Hc;
    [| discriminate].
  cbn [mbind option_bind] in H.
  destruct (SkipBlankLines getline s4) as [s5 |]; [| discriminate].
  cbn [mbind option_bind] in H. injection H as <-. cbn [fst segments_].
  destruct (ParseProductContent_shape_of _ _ _ Hc) as (Hlast & Hterm).
  assert (Hseg : header' <> None \/ content <> [] ->
                 well_formed_segment (mk_Segment header' content)).
  { intros Hk. split; [exact Hk |]. split; [exact Hsecond |].
    split; assumption. }
  destruct header' as [h |]; [| destruct content as [| l content]].
  - apply Forall_app. split; [exact Hp |].
    constructor; [apply Hseg; left; discriminate | constructor].
  - exact Hp.
  - apply Forall_app. split; [exact Hp |].
    constructor; [apply Hseg; right; discriminate | constructor].
Qed.

Lemma Parse_loop_segments (n i : nat) (s s' : istream)
    (p p' : TextProductMessageImpl) :
  Parse_loop getline n i s p = Some (p', s') ->
  Forall well_formed_segment (segments_ p) ->
  Forall well_formed_segment (segments_ p').
Proof.
  revert i s p. induction n as [| n IH]; intros i s p Hloop Hp;
    [discriminate |].
  cbn [Parse_loop] in Hloop.
  destruct (eof s).
  { injection Hloop as <- _. exact Hp. }
  pose proof (Parse_segment_segments i s p) as Hseg.
  destruct (Parse_segment getline i s p) as [[[p1 s1] | [p1 s1]] |];
    [| | discriminate].
  - injection Hloop as <- _. apply (Hseg _ eq_refl Hp).
  - apply (IH _ _ _ Hloop). apply (Hseg _ eq_refl Hp).
Qed.

End Shape.
(** Whatever the reader, a header [Parse] stores carries the UGC key. *)
Lemma Parse_headers_keyed (getline : istream -> string * istream)
    (wmo : istream -> bool * istream) (s s' : istream) (valid : bool)
    (p : TextProductMessageImpl) (segment : Segment) (h : SegmentHeader) :
  Parse getline wmo s = Some (valid, p, s') ->
  segment ∈ segments_ p -> header_ segment = Some h ->
  reUgcString (ugcString_ h) = true.
Proof.
  intros HP Hin Hh. unfold Parse in HP.
  destruct (wmo s) as [dataValid s0].
  assert (Hall : Forall well_formed_segment (segments_ p)).
  { destruct dataValid.
    - destruct (Parse_loop getline (turns s0) 0 s0
                  (mk_TextProductMessageImpl [] [])) as [[p1 s1] |] eqn:HL;
        [| discriminate].
      cbn in HP. injection HP as _ <- _.
      apply (Parse_loop_segments getline _ _ _ _ _ _ HL). constructor.
    - injection HP as _ <- _. constructor. }
  rewrite Forall_forall in Hall.
  destruct (Hall segment Hin) as (_ & Hkey & _).
  destruct (Hkey h Hh) as [HU _]. exact HU.
Qed.

(** Scenario S3 fails for every reader and every parser of the WMO header:
    the line ["KSTL-"] does not carry the UGC key. *)
Lemma S3_not_expected (getline : istream -> string * istream)
    (wmo : istream -> bool * istream) : ~ S3_expected getline wmo.
Proof.
  intros (valid & p & s' & segment & h & vtec & HP & Hs & Hh & Hu & _).
  assert (Hin : segment ∈ segments_ p)
    by (rewrite Hs; apply list_elem_of_here).
  pose proof (Parse_headers_keyed _ _ _ _ _ _ _ _ HP Hin Hh) as HU.
  rewrite Hu in HU. vm_compute in HU. discriminate.
Qed.

(** *** Scenario S3 *)

Section S3.

Variable getline : istream -> string * istream.
Hypothesis Hreader : line_reader getline.

(** A reader that raises no [failbit] at the end of the buffer gives a
    stream with its [eofbit] back as it is. *)
Lemma reader_quiet_at_eof (s : istream) :
  quiet_at_eof getline -> rest s = [] -> eofbit s = true ->
  getline s = ("", s).
Proof.
  intros Hq Hr He.
  destruct (reader_at_eof getline Hreader s Hr He) as (Hl & Hb & Hp & He' & _).
  pose proof (Hq s Hr) as Hf.
  destruct (getline s) as [line s1]. cbn [fst snd] in *.
  destruct s, s1; cbn in *. subst. reflexivity.
Qed.

(** One step of a run on a stream written out: the call of [getline] the
    run waits for is on a good stream with a character left, where the
    reader reads a line of the grammar. *)
Ltac read_line_with g H :=
  match goal with
  | |- ?L = _ => let L' := eval lazy head in L in change L with L'
  end;
  match goal with
  | |- context [g ?s] =>
      lazymatch s with context [g] => fail | _ => idtac end;
      let v := eval vm_compute in (getline_lines s) in
      let st := fresh "st" in
      let E := fresh "E" in
      let Hnil := fresh "Hnil" in
      set (st := s);
      assert (E : g st = v)
        by (rewrite (reader_line _ H st);
            [vm_compute; reflexivity | vm_compute; reflexivity
             | intros Hnil; vm_compute in Hnil; discriminate Hnil]);
      rewrite E; clear E; subst st
  end.

(** The step at the end of the buffer, for a quiet reader. *)
Ltac read_end_with g H Hq :=
  match goal with
  | |- ?L = _ => let L' := eval lazy head in L in change L with L'
  end;
  match goal with
  | |- context [g ?s] =>
      lazymatch s with context [g] => fail | _ => idtac end;
      let st := fresh "st" in
      let E := fresh "E" in
      set (st := s);
      assert (E : g st = ("", st))
        by (apply (reader_quiet_at_eof st Hq); vm_compute; reflexivity);
      rewrite E; clear E; subst st
  end.

Ltac read_line := read_line_with getline Hreader.

Lemma S3_header_attempt :
  TryParseSegmentHeader getline (mk_istream (chars S3) 8 false false)
  = Some (None, mk_istream (chars S3) 8 false false).
Proof. read_line. vm_compute. reflexivity. Qed.

Lemma S3_content :
  ParseProductContent getline (mk_istream (chars S3) 97 false false)
  = Some (["BODY"; "$$"], mk_istream (chars S3) 109 false false).
Proof. read_line. read_line. vm_compute. reflexivity. Qed.

Lemma S3_zone_header :
  TryParseSegmentHeader getline (mk_istream (chars S3_zone) 8 false false)
  = Some (Some (mk_SegmentHeader "MOZ064-" [mk_Vtec S3_pvtec ""] []
                  S3_issuance),
          mk_istream (chars S3_zone) 99 false false).
Proof.
  read_line. read_line. read_line. read_line. read_line.
  vm_compute. reflexivity.
Qed.

Lemma S3_zone_content :
  ParseProductContent getline (mk_istream (chars S3_zone) 99 false false)
  = Some (["BODY"; "$$"], mk_istream (chars S3_zone) 111 false false).
Proof. read_line. read_line. vm_compute. reflexivity. Qed.

Lemma S3_quiet (wmo : istream -> bool * istream) :
  quiet_at_eof getline ->
  wmo (open (chars S3)) = (true, mk_istream (chars S3) 8 false false) ->
  Parse getline wmo (open (chars S3))
  = Some (true,
          mk_TextProductMessageImpl []
            [mk_Segment None
               ["KSTL-"; S3_pvtec; S3_issuance; "BODY"; "$$"]],
          mk_istream (chars S3) 110 false false).
Proof.
  intros Hq Hwmo. unfold Parse. rewrite Hwmo.
  read_line.
  do 6 read_line. read_end_with getline Hreader Hq.
  read_line.
  do 5 read_line.
  vm_compute. reflexivity.
Qed.

Lemma S3_zone_quiet (wmo : istream -> bool * istream) :
  quiet_at_eof getline ->
  wmo (open (chars S3_zone))
  = (true, mk_istream (chars S3_zone) 8 false false) ->
  Parse getline wmo (open (chars S3_zone))
  = Some (true,
          mk_TextProductMessageImpl []
            [mk_Segment
               (Some (mk_SegmentHeader "MOZ064-" [mk_Vtec S3_pvtec ""] []
                        S3_issuance))
               ["BODY"; "$$"]],
          mk_istream (chars S3_zone) 112 false false).
Proof.
  intros Hq Hwmo. unfold Parse. rewrite Hwmo.
  do 5 read_line.
  do 3 read_line. read_end_with getline Hreader Hq.
  do 2 read_line.
  vm_compute. reflexivity.
Qed.

(** C7, as the code has it.  With any line reader, parsing the S3 text never
    gives a segment whose header holds the UGC string ["KSTL-"]: every
    header [Parse] stores carries the UGC key, the line ["KSTL-"] does not,
    and [TryParseSegmentHeader] at that line returns none and rewinds.
    [ParseProductContent] at the line ["BODY"] returns ["BODY"] and ["$$"]:
    the terminator line is kept as the last line of the content.  On
    [S3_zone], whose UGC line carries the key, [TryParseSegmentHeader]
    returns a header with that UGC string, exactly one P-VTEC and the
    issuance date/time line.  With a reader that raises no [failbit] at the
    end of the stream, [Parse] as a whole gives exactly one segment: on [S3]
    with no header and the five lines from ["KSTL-"] to ["$$"] as content,
    on [S3_zone] with that header and the content ["BODY"], ["$$"]. *)
Theorem Parse_S3 (wmo : istream -> bool * istream) :
  (forall valid p s' segment h,
     Parse getline wmo (open (chars S3)) = Some (valid, p, s') ->
     segment ∈ segments_ p -> header_ segment = Some h ->
     reUgcString (ugcString_ h) = true /\ ugcString_ h <> "KSTL-") /\
  TryParseSegmentHeader getline (mk_istream (chars S3) 8 false false)
  = Some (None, mk_istream (chars S3) 8 false false) /\
  ParseProductContent getline (mk_istream (chars S3) 97 false false)
  = Some (["BODY"; "$$"], mk_istream (chars S3) 109 false false) /\
  TryParseSegmentHeader getline (mk_istream (chars S3_zone) 8 false false)
  = Some (Some (mk_SegmentHeader "MOZ064-" [mk_Vtec S3_pvtec ""] []
                  S3_issuance),
          mk_istream (chars S3_zone) 99 false false) /\
  ParseProductContent getline (mk_istream (chars S3_zone) 99 false false)
  = Some (["BODY"; "$$"], mk_istream (chars S3_zone) 111 false false) /\
  (quiet_at_eof getline ->
   (wmo (open (chars S3)) = (true, mk_istream (chars S3) 8 false false) ->
    Parse getline wmo (open (chars S3))
    = Some (true,
            mk_TextProductMessageImpl []
              [mk_Segment None
                 ["KSTL-"; S3_pvtec; S3_issuance; "BODY"; "$$"]],
            mk_istream (chars S3) 110 false false)) /\
   (wmo (open (chars S3_zone))
    = (true, mk_istream (chars S3_zone) 8 false false) ->
    Parse getline wmo (open (chars S3_zone))
    = Some (true,
            mk_TextProductMessageImpl []
              [mk_Segment
                 (Some (mk_SegmentHeader "MOZ064-" [mk_Vtec S3_pvtec ""] []
                          S3_issuance))
                 ["BODY"; "$$"]],
            mk_istream (chars S3_zone) 112 false false))).
Proof.
  split.
  { intros valid p s' segment h HP Hin Hh.
    pose proof (Parse_headers_keyed _ _ _ _ _ _ _ _ HP Hin Hh) as HU.
    split; [exact HU |]. intros Hk. rewrite Hk in HU.
    vm_compute in HU. discriminate. }
  split; [exact S3_header_attempt |]. split; [exact S3_content |].
  split; [exact S3_zone_header |]. split; [exact S3_zone_content |].
  intros Hq. split; [apply S3_quiet | apply S3_zone_quiet]; exact Hq.
Qed.

End S3.

Lemma Parse_S3_witness :
  TryParseSegmentHeader getline_lines (mk_istream (chars S3) 8 false false)
  = Some (None, mk_istream (chars S3) 8 false false) /\
  ParseProductContent getline_lines (mk_istream (chars S3) 97 false false)
  = Some (["BODY"; "$$"], mk_istream (chars S3) 109 false false) /\
  Parse getline_lines (WmoHeader_placeholder getline_lines)
    (open (chars S3_zone))
  = Some (true,
          mk_TextProductMessageImpl []
            [mk_Segment
               (Some (mk_SegmentHeader "MOZ064-" [mk_Vtec S3_pvtec ""] []
                        S3_issuance))
               ["BODY"; "$$"]],
          mk_istream (chars S3_zone) 112 false false).
Proof.
  destruct (Parse_S3 getline_lines getline_lines_reader
              (WmoHeader_placeholder getline_lines))
    as (_ & H1 & H2 & _ & _ & H5).
  split; [exact H1 |]. split; [exact H2 |].
  destruct (H5 getline_lines_quiet) as [_ Hz]. apply Hz.
  vm_compute. reflexivity.
Defined.

(** Scenario S3 as the spec expects it holds for no reader and no parser of
    the WMO header.  With the reader of the line grammar, [Parse] on [S3]
    gives one segment without a header whose content is the five lines from
    ["KSTL-"] to ["$$"]; with the reader behind a sentry, which raises
    [failbit] at the end of the stream, it gives no segment at all. *)
Lemma S3_counterexample :
  (forall getline wmo, ~ S3_expected getline wmo) /\
  reUgcString "KSTL-" = false /\
  line_reader getline_lines /\
  (fst <$> Parse getline_lines (WmoHeader_placeholder getline_lines)
             (open (chars S3)))
  = Some (true,
          mk_TextProductMessageImpl []
            [mk_Segment None
               ["KSTL-"; S3_pvtec; S3_issuance; "BODY"; "$$"]]) /\
  line_reader getline_sentry /\
  (fst <$> Parse getline_sentry (WmoHeader_placeholder getline_sentry)
             (open (chars S3)))
  = Some (true, mk_TextProductMessageImpl [] []).
Proof.
  split; [exact S3_not_expected |]. split; [reflexivity |].
  split; [exact getline_lines_reader |].
  split; [vm_compute; reflexivity |].
  split; [exact getline_sentry_reader |]. vm_compute. reflexivity.
Qed.

End AwipsFacts.

(** ** Facts about the radar product manager *)

Module ManagerFacts.
Import Manager.

(** *** The entry of greatest key *)

Lemma foldr_pick_max_spec {V : Type} (P : Z -> bool) (l : list (Z * V)) :
  match foldr (pick_max P) None l with
  | Some kv =>
      kv ∈ l /\ P (fst kv) = true /\
      forall kv', kv' ∈ l -> P (fst kv') = true -> fst kv' <= fst kv
  | None => forall kv', kv' ∈ l -> P (fst kv') = false
  end.
Proof.
  induction l as [| x l IH]; cbn [foldr].
  - intros kv' H. inversion H.
  - unfold pick_max at 1. destruct (P (fst x)) eqn:HP.
    + destruct (foldr (pick_max P) None l) as [kv |].
      * destruct IH as (Hin & HPkv & Hmax).
        destruct (Z.ltb_spec (fst kv) (fst x)).
        -- split; [left |]. split; [exact HP |].
           intros kv' Hin' HP'. apply elem_of_cons in Hin' as [-> | Hin'];
             [lia |]. specialize (Hmax kv' Hin' HP'). lia.
        -- split; [right; exact Hin |]. split; [exact HPkv |].
           intros kv' Hin' HP'. apply elem_of_cons in Hin' as [-> | Hin'];
             [lia |]. apply Hmax; assumption.
      * split; [left |]. split; [exact HP |].
        intros kv' Hin' HP'. apply elem_of_cons in Hin' as [-> | Hin'];
          [lia |]. rewrite (IH kv' Hin') in HP'. discriminate.
    + destruct (foldr (pick_max P) None l) as [kv |].
      * destruct IH as (Hin & HPkv & Hmax).
        split; [right; exact Hin |]. split; [exact HPkv |].
        intros kv' Hin' HP'. apply elem_of_cons in Hin' as [-> | Hin'];
          [congruence |]. apply Hmax; assumption.
      * intros kv' Hin'. apply elem_of_cons in Hin' as [-> | Hin'];
          [exact HP | apply IH; exact Hin'].
Qed.

Lemma max_entry_Some {V : Type} (P : Z -> bool) (m : gmap Z V)
    (k : Z) (v : V) :
  max_entry P m = Some (k, v) ->
  m !! k = Some v /\ P k = true /\
  forall k' v', m !! k' = Some v' -> P k' = true -> k' <= k.
Proof.
  unfold max_entry. intros H.
  pose proof (foldr_pick_max_spec P (map_to_list m)) as Hs.
  rewrite H in Hs. destruct Hs as (Hin & HP & Hmax).
  apply elem_of_map_to_list in Hin. split; [exact Hin |].
  split; [exact HP |]. intros k' v' Hk' HP'.
  apply (Hmax (k', v')); [apply elem_of_map_to_list; exact Hk' | exact HP'].
Qed.

Lemma max_entry_None {V : Type} (P : Z -> bool) (m : gmap Z V) :
  max_entry P m = None -> forall k v, m !! k = Some v -> P k = false.
Proof.
  unfold max_entry. intros H k v Hk.
  pose proof (foldr_pick_max_spec P (map_to_list m)) as Hs.
  rewrite H in Hs. apply (Hs (k, v)). apply elem_of_map_to_list. exact Hk.
Qed.

Lemma max_entry_greatest {V : Type} (P : Z -> bool) (m : gmap Z V)
    (k : Z) (v : V) :
  m !! k = Some v -> P k = true ->
  (forall k' v', m !! k' = Some v' -> P k' = true -> k' <= k) ->
  max_entry P m = Some (k, v).
Proof.
  intros Hk HP Hmax. destruct (max_entry P m) as [[k2 v2] |] eqn:H.
  - apply max_entry_Some in H as (Hk2 & HP2 & Hmax2).
    assert (k = k2).
    { specialize (Hmax k2 v2 Hk2 HP2). specialize (Hmax2 k v Hk HP). lia. }
    subst k2. congruence.
  - rewrite (max_entry_None P m H k v Hk) in HP. discriminate.
Qed.

(** [rbegin] of a map that is not empty is its entry of greatest key. *)
Lemma rbegin_greatest {V : Type} (m : gmap Z V) :
  m <> ∅ -> exists k r, greatest m k r /\ rbegin m = Some r.
Proof.
  intros Hne. unfold rbegin.
  destruct (max_entry (fun _ => true) m) as [[k v] |] eqn:H.
  - apply max_entry_Some in H as (Hk & _ & Hmax).
    exists k, v. split; [| reflexivity]. split; [exact Hk |]. eauto.
  - exfalso. apply Hne. apply map_empty. intros i.
    destruct (m !! i) as [x |] eqn:Hi; [| reflexivity].
    pose proof (max_entry_None _ m H i x Hi). discriminate.
Qed.

(** [GetBoundedElementValue] is the lookup of the greatest key at or below
    the time. *)
Lemma GetBoundedElementValue_greatest_le {V : Type} (m : gmap Z V)
    (t k : Z) (r : V) :
  greatest_le m t k r -> GetBoundedElementValue m t = Some r.
Proof.
  intros (Hk & Hle & Hmax). unfold GetBoundedElementValue.
  rewrite (max_entry_greatest (fun k => k <=? t) m k r); [reflexivity | | |].
  - exact Hk.
  - apply Z.leb_le. exact Hle.
  - intros k' v' Hk' HP. apply (Hmax k' v' Hk'). apply Z.leb_le. exact HP.
Qed.

Lemma GetBoundedElementValue_Some {V : Type} (m : gmap Z V) (t : Z) (r : V) :
  GetBoundedElementValue m t = Some r -> exists k, greatest_le m t k r.
Proof.
  unfold GetBoundedElementValue.
  destruct (max_entry (fun k => k <=? t) m) as [[k v] |] eqn:H;
    [| discriminate].
  cbn. intros [= <-]. apply max_entry_Some in H as (Hk & HP & Hmax).
  exists k. split; [exact Hk |]. split; [apply Z.leb_le; exact HP |].
  intros k' r' Hk' Hle. apply (Hmax k' r' Hk'). apply Z.leb_le. exact Hle.
Qed.

Lemma GetBoundedElementValue_None {V : Type} (m : gmap Z V) (t : Z) :
  (forall k r, m !! k = Some r -> t < k) -> GetBoundedElementValue m t = None.
Proof.
  intros Hall. unfold GetBoundedElementValue.
  destruct (max_entry (fun k => k <=? t) m) as [[k v] |] eqn:H;
    [| reflexivity].
  apply max_entry_Some in H as (Hk & HP & _).
  apply Z.leb_le in HP. specialize (Hall k v Hk). lia.
Qed.

(** *** Lookup of a Level-2 record *)

(** C10. When the Level-2 cache is not empty and the time asked for is the
    default time point, the lookup returns the record of greatest cached
    time.  For any other time it returns the record of greatest key at or
    below the time, save that it returns null when the start time of the
    Level-2 file of that record is after the time asked for; it returns
    null when no key is at or below the time. *)
Theorem GetLevel2ProductRecord_spec (m : RadarProductManagerImpl) (t : Z) :
  (level2ProductRecords_ m <> ∅ -> t = 0 ->
   exists k r, greatest (level2ProductRecords_ m) k r /\
               GetLevel2ProductRecord m t = Some r) /\
  (t <> 0 ->
   (forall k r, greatest_le (level2ProductRecords_ m) t k r ->
                GetLevel2ProductRecord m t
                = if t <? start_time (level2_file r) then None else Some r) /\
   ((forall k r, level2ProductRecords_ m !! k = Some r -> t < k) ->
    GetLevel2ProductRecord m t = None)).
Proof.
  split.
  - intros Hne ->. unfold GetLevel2ProductRecord.
    rewrite bool_decide_eq_false_2 by exact Hne. cbn [negb andb Z.eqb].
    destruct (rbegin_greatest _ Hne) as (k & r & Hg & Hr). eauto.
  - intros Ht. unfold GetLevel2ProductRecord.
    destruct (Z.eqb_spec t 0) as [? | _]; [contradiction |].
    rewrite andb_false_r. split.
    + intros k r Hg.
      rewrite (GetBoundedElementValue_greatest_le _ t k r Hg). reflexivity.
    + intros Hall. rewrite (GetBoundedElementValue_None _ t Hall).
      reflexivity.
Qed.

(** On [sample_caches]: the default time point gives the later volume; a
    time inside the later volume gives that volume; a time before the start
    of the only volume keyed at or below it gives null. *)
Lemma GetLevel2ProductRecord_spec_witness :
  (exists k r, greatest (level2ProductRecords_ sample_caches) k r /\
               GetLevel2ProductRecord sample_caches 0 = Some r) /\
  GetLevel2ProductRecord sample_caches 2000300
  = Some (sample_record 2000000 2) /\
  GetLevel2ProductRecord sample_caches 1000200 = None.
Proof.
  pose proof (GetLevel2ProductRecord_spec sample_caches 0) as [H0 _].
  pose proof (GetLevel2ProductRecord_spec sample_caches 2000300) as [_ H1].
  pose proof (GetLevel2ProductRecord_spec sample_caches 1000200) as [_ H2].
  split; [| split].
  - apply H0; [| reflexivity]. intros He.
    apply (f_equal (fun m => m !! 1000000)) in He. vm_compute in He.
    discriminate.
  - destruct H1 as [H1 _]; [lia |].
    apply (H1 2000000 (sample_record 2000000 2)).
    split; [reflexivity |]. split; [lia |].
    intros k' r' Hk' _. unfold sample_caches in Hk'. cbn in Hk'.
    destruct (decide (k' = 1000000)) as [-> | ?]; [lia |].
    rewrite lookup_insert_ne in Hk' by congruence.
    destruct (decide (k' = 2000000)) as [-> | ?]; [lia |].
    rewrite lookup_insert_ne in Hk' by congruence. discriminate.
  - destruct H2 as [H2 _]; [lia |].
    apply (H2 1000000 (sample_record 1000400 1)).
    split; [reflexivity |]. split; [lia |].
    intros k' r' Hk' Hle. unfold sample_caches in Hk'. cbn in Hk'.
    destruct (decide (k' = 1000000)) as [-> | ?]; [lia |].
    rewrite lookup_insert_ne in Hk' by congruence.
    destruct (decide (k' = 2000000)) as [-> | ?]; [lia |].
    rewrite lookup_insert_ne in Hk' by congruence. discriminate.
Defined.

(** *** Storing a record *)

(** The two cases of [StoreRadarProductRecord]. *)
Lemma StoreRadarProductRecord_cases (ticks_per_ms : Z)
    (r : RadarProductRecord) (m : RadarProductManagerImpl) :
  (forall old,
     cache_of m r !! time_point_cast_seconds ticks_per_ms (time r) = Some old ->
     StoreRadarProductRecord ticks_per_ms r m = (old, m)) /\
  (cache_of m r !! time_point_cast_seconds ticks_per_ms (time r) = None ->
   fst (StoreRadarProductRecord ticks_per_ms r m) = r /\
   cache_of (snd (StoreRadarProductRecord ticks_per_ms r m)) r
   = <[time_point_cast_seconds ticks_per_ms (time r) := r]> (cache_of m r) /\
   (radar_product_group r = Level2 ->
    level3ProductRecordsMap_ (snd (StoreRadarProductRecord ticks_per_ms r m))
    = level3ProductRecordsMap_ m) /\
   (radar_product_group r = Level3 ->
    level2ProductRecords_ (snd (StoreRadarProductRecord ticks_per_ms r m))
    = level2ProductRecords_ m /\
    forall product, product <> radar_product r ->
      level3ProductRecordsMap_
        (snd (StoreRadarProductRecord ticks_per_ms r m)) !! product
      = level3ProductRecordsMap_ m !! product)).
Proof.
  unfold StoreRadarProductRecord, cache_of.
  set (s := time_point_cast_seconds ticks_per_ms (time r)).
  destruct m as [l2 l3]. cbn [level2ProductRecords_ level3ProductRecordsMap_].
  destruct (radar_product_group r); cbn [group_eqb].
  - (* Level 2 *)
    split.
    + intros old ->. reflexivity.
    + intros ->. cbn. repeat split; congruence.
  - (* Level 3 *)
    unfold map_index. destruct (l3 !! radar_product r) as [pm |] eqn:Hp.
    + change (default ∅ (Some pm)) with pm. split.
      * intros old H. rewrite H. reflexivity.
      * intros H. rewrite H.
        cbn [fst snd level2ProductRecords_ level3ProductRecordsMap_].
        rewrite lookup_insert_eq.
        split; [reflexivity |]. split; [reflexivity |].
        split; [discriminate |]. intros _. split; [reflexivity |].
        intros product Hne. rewrite lookup_insert_ne by congruence.
        reflexivity.
    + change (default ∅ None) with (∅ : gmap Z RadarProductRecord). split.
      * intros old H. rewrite lookup_empty in H. discriminate.
      * intros _. rewrite lookup_empty.
        cbn [fst snd level2ProductRecords_ level3ProductRecordsMap_].
        rewrite lookup_insert_eq.
        split; [reflexivity |]. split; [reflexivity |].
        split; [discriminate |]. intros _. split; [reflexivity |].
        intros product Hne. rewrite !lookup_insert_ne by congruence.
        reflexivity.
Qed.

(** The key of a record is the whole second of its time, the time cut
    toward zero: a multiple of the ticks of a second, at most a second from
    the time, and never further from the epoch than the time. *)
Lemma time_point_cast_seconds_whole (ticks_per_ms t : Z) :
  0 < ticks_per_ms ->
  (exists n, time_point_cast_seconds ticks_per_ms t
             = n * ticks_per_second ticks_per_ms) /\
  (0 <= t ->
   time_point_cast_seconds ticks_per_ms t <= t
   < time_point_cast_seconds ticks_per_ms t + ticks_per_second ticks_per_ms) /\
  (t <= 0 ->
   time_point_cast_seconds ticks_per_ms t - ticks_per_second ticks_per_ms
   < t <= time_point_cast_seconds ticks_per_ms t).
Proof.
  intros Hp. unfold time_point_cast_seconds, ticks_per_second.
  set (d := 1000 * ticks_per_ms). assert (Hd : 0 < d) by (subst d; lia).
  pose proof (Z.quot_rem' t d) as Hqr.
  split; [eexists; reflexivity |]. split.
  - intros Ht. pose proof (Z.rem_bound_pos t d Ht Hd). lia.
  - intros Ht. pose proof (Z.rem_bound_pos_neg t d Hd Ht). lia.
Qed.

(** C6. Records are stored by their time truncated to the second [s]: when
    the cache of the record (the Level-2 map, or the Level-3 map of its
    product) holds an entry at [s], [StoreRadarProductRecord] returns that
    entry and leaves the caches as they are; otherwise it returns the record
    and enters it at [s] in its cache, and in no other.  The key [s] is the
    whole second of the time of the record, cut toward zero: a multiple of
    the ticks of a second that lies less than a second from the time, on
    the side of the epoch. *)
Theorem StoreRadarProductRecord_dedup (ticks_per_ms : Z)
    (r : RadarProductRecord) (m : RadarProductManagerImpl) :
  (forall old,
     cache_of m r !! time_point_cast_seconds ticks_per_ms (time r) = Some old ->
     StoreRadarProductRecord ticks_per_ms r m = (old, m)) /\
  (cache_of m r !! time_point_cast_seconds ticks_per_ms (time r) = None ->
   fst (StoreRadarProductRecord ticks_per_ms r m) = r /\
   cache_of (snd (StoreRadarProductRecord ticks_per_ms r m)) r
   = <[time_point_cast_seconds ticks_per_ms (time r) := r]> (cache_of m r) /\
   (radar_product_group r = Level2 ->
    level3ProductRecordsMap_ (snd (StoreRadarProductRecord ticks_per_ms r m))
    = level3ProductRecordsMap_ m) /\
   (radar_product_group r = Level3 ->
    level2ProductRecords_ (snd (StoreRadarProductRecord ticks_per_ms r m))
    = level2ProductRecords_ m /\
    forall product, product <> radar_product r ->
      level3ProductRecordsMap_
        (snd (StoreRadarProductRecord ticks_per_ms r m)) !! product
      = level3ProductRecordsMap_ m !! product)) /\
  (0 < ticks_per_ms ->
   (exists n, time_point_cast_seconds ticks_per_ms (time r)
              = n * (1000 * ticks_per_ms)) /\
   (0 <= time r ->
    time_point_cast_seconds ticks_per_ms (time r) <= time r
    < time_point_cast_seconds ticks_per_ms (time r) + 1000 * ticks_per_ms) /\
   (time r <= 0 ->
    time_point_cast_seconds ticks_per_ms (time r) - 1000 * ticks_per_ms
    < time r <= time_point_cast_seconds ticks_per_ms (time r))).
Proof.
  destruct (StoreRadarProductRecord_cases ticks_per_ms r m) as [H1 H2].
  split; [exact H1 |]. split; [exact H2 |].
  intros Hp. exact (time_point_cast_seconds_whole ticks_per_ms (time r) Hp).
Qed.

(** A second record of the same cache whose time truncates to the same
    second: the first one is returned and nothing is stored. *)
Corollary StoreRadarProductRecord_twice (ticks_per_ms : Z)
    (r1 r2 : RadarProductRecord) (m : RadarProductManagerImpl) :
  cache_of m r1 !! time_point_cast_seconds ticks_per_ms (time r1) = None ->
  radar_product_group r2 = radar_product_group r1 ->
  radar_product r2 = radar_product r1 ->
  time_point_cast_seconds ticks_per_ms (time r2)
  = time_point_cast_seconds ticks_per_ms (time r1) ->
  StoreRadarProductRecord ticks_per_ms r2
    (snd (StoreRadarProductRecord ticks_per_ms r1 m))
  = (r1, snd (StoreRadarProductRecord ticks_per_ms r1 m)).
Proof.
  intros Hnone Hg Hp Ht.
  destruct (StoreRadarProductRecord_cases ticks_per_ms r1 m) as [_ H1].
  destruct (H1 Hnone) as (_ & Hc & _).
  destruct (StoreRadarProductRecord_cases ticks_per_ms r2
              (snd (StoreRadarProductRecord ticks_per_ms r1 m))) as [H2 _].
  apply H2. rewrite Ht.
  replace (cache_of (snd (StoreRadarProductRecord ticks_per_ms r1 m)) r2)
    with (cache_of (snd (StoreRadarProductRecord ticks_per_ms r1 m)) r1)
    by (unfold cache_of; rewrite Hg, Hp; reflexivity).
  rewrite Hc. apply lookup_insert_eq.
Qed.

(** Two Level-2 volumes 0.4 s apart in the same second, with nanosecond
    ticks: the second store returns the first record; a Level-3 record goes
    to the map of its product; and the key of the second volume is the
    second it lies in. *)
Lemma StoreRadarProductRecord_dedup_witness :
  StoreRadarProductRecord 1000000 (sample_record 1000000300000000 7)
    (snd (StoreRadarProductRecord 1000000
            (sample_record 1000000700000000 3) sample_caches))
  = (sample_record 1000000700000000 3,
     snd (StoreRadarProductRecord 1000000
            (sample_record 1000000700000000 3) sample_caches))
  /\ fst (StoreRadarProductRecord 1000000
            (sample_level3_record 1000000700000000 4) sample_caches)
     = sample_level3_record 1000000700000000 4
  /\ time_point_cast_seconds 1000000 1000000300000000 <= 1000000300000000
     < time_point_cast_seconds 1000000 1000000300000000 + 1000 * 1000000.
Proof.
  split; [| split].
  - apply (StoreRadarProductRecord_dedup 1000000
             (sample_record 1000000300000000 7)).
    vm_compute. reflexivity.
  - apply (StoreRadarProductRecord_dedup 1000000
             (sample_level3_record 1000000700000000 4) sample_caches).
    vm_compute. reflexivity.
  - apply (StoreRadarProductRecord_dedup 1000000
             (sample_record 1000000300000000 7) sample_caches); cbn; lia.
Defined.

(** The key is not the second below the time: half a second before the
    epoch the key is the epoch. *)
Example time_point_cast_seconds_samples :
  time_point_cast_seconds 1000000 1000000300000000 = 1000000000000000 /\
  time_point_cast_seconds 1000000 (-500000000) = 0 /\
  time_point_cast_seconds 1000000 (-1500000000) = -1000000000.
Proof. repeat split. Qed.

(** *** Refresh of a provider *)

(** A signal is not among the effects of a list written out. *)
Ltac not_in_list :=
  let H := fresh "H" in
  intros H;
  repeat match goal with
         | H' : _ ∈ [] |- _ => inversion H'
         | H' : _ ∈ _ :: _ |- _ => inversion H'; clear H'; subst
         end.

Lemma duration_cast_ms_max (ticks_per_ms x c : Z) :
  0 < ticks_per_ms ->
  Z.max (duration_cast_ms ticks_per_ms x) c
  = duration_cast_ms ticks_per_ms (Z.max x (c * ticks_per_ms)).
Proof.
  intros Hpos. unfold duration_cast_ms.
  destruct (Z.le_ge_cases x (c * ticks_per_ms)) as [Hle | Hge].
  - rewrite (Z.max_r x) by assumption. rewrite Z.quot_mul by lia.
    apply Z.max_r. rewrite <- (Z.quot_mul c ticks_per_ms) by lia.
    apply Z.quot_le_mono; lia.
  - rewrite (Z.max_l x) by assumption. apply Z.max_l.
    rewrite <- (Z.quot_mul c ticks_per_ms) by lia.
    apply Z.quot_le_mono; lia.
Qed.

Lemma to_int64_in_range (z : Z) : in_int64 z -> to_int64 z = z.
Proof.
  unfold in_int64, to_int64. intros Hz.
  rewrite Z.mod_small by lia. lia.
Qed.

Lemma to_int64_range (z : Z) : in_int64 (to_int64 z).
Proof.
  unfold in_int64, to_int64.
  pose proof (Z.mod_pos_bound (z + 2 ^ 63) (2 ^ 64) ltac:(lia)). lia.
Qed.


(** An update period that does not fit a 64-bit count of ticks wraps to a
    negative count, and the timer is armed at the retry interval. *)
Example refresh_interval_wraps :
  ~ in_int64 (update_period sample_provider_long) /\
  refreshTimer_
    (fst (RefreshData_body 1000000 sample_provider_long sample_manager))
  = Some (15 * 1000).
Proof.
  split; [| vm_compute; reflexivity].
  unfold in_int64. cbn. lia.
Qed.



(** C4. The body of a refresh emits [NewDataAvailable] exactly when the
    refresh found new objects, and then once, with the group and the product
    of the manager and the time of the latest key; a refresh that found
    nothing new emits nothing.  Enabling the refresh, [RefreshData] up to the
    hand-over and the timer emit no [NewDataAvailable]. *)
Theorem NewDataAvailable_iff_new (ticks_per_ms : Z) (provider : Provider)
    (pm : ProviderManager) :
  (forall g p t,
     NewDataAvailable g p t ∈ snd (RefreshData_body ticks_per_ms provider pm)
     <-> (0 < fst (Refresh provider))%nat /\ g = group_ pm /\
         p = product_ pm /\
         t = GetTimePointByKey provider (FindLatestKey provider)) /\
  ((0 < fst (Refresh provider))%nat ->
   snd (RefreshData_body ticks_per_ms provider pm)
   = [NewDataAvailable (group_ pm) (product_ pm)
        (GetTimePointByKey provider (FindLatestKey provider))]) /\
  (fst (Refresh provider) = 0%nat ->
   snd (RefreshData_body ticks_per_ms provider pm) = []) /\
  (forall enabled g p t,
     (NewDataAvailable g p t ∉ snd (EnableRefresh pm enabled)) /\
     (NewDataAvailable g p t ∉ snd (RefreshData pm)) /\
     (NewDataAvailable g p t ∉ snd (timer_expired pm))).
Proof.
  assert (Hsig :
    snd (RefreshData_body ticks_per_ms provider pm)
    = if (0 <? fst (Refresh provider))%nat
      then [NewDataAvailable (group_ pm) (product_ pm)
              (GetTimePointByKey provider (FindLatestKey provider))]
      else []).
  { unfold RefreshData_body, RefreshData_listing.
    destruct (Refresh provider) as [newObjects totalObjects]. cbn [fst].
    destruct (0 <? newObjects)%nat.
    - destruct (refreshEnabled_ pm); reflexivity.
    - destruct (refreshEnabled_ pm && (totalObjects =? 0)%nat);
        [reflexivity |]. destruct (refreshEnabled_ pm); reflexivity. }
  rewrite Hsig. split; [| split; [| split]].
  - intros g p t. destruct (Nat.ltb_spec 0 (fst (Refresh provider))).
    + rewrite list_elem_of_singleton. split.
      * intros [= -> -> ->]. auto.
      * intros (_ & -> & -> & ->). reflexivity.
    + split; [intros H0; inversion H0 | lia].
  - intros Hnew. destruct (Nat.ltb_spec 0 (fst (Refresh provider)));
      [reflexivity | lia].
  - intros ->. reflexivity.
  - intros enabled g p t. unfold EnableRefresh, timer_expired, RefreshData.
    repeat split.
    + destruct (negb (eqb (refreshEnabled_ pm) enabled)), enabled; cbn;
        not_in_list.
    + cbn. not_in_list.
    + cbn. not_in_list.
Qed.

(** C5. A provider manager is made with the refresh disabled.  When the
    refresh is enabled and its body sees no new object and no object at all,
    the body disables the refresh, leaves the timer as it is (idle, after
    [RefreshData] cancelled it) and emits nothing; enabling the refresh
    again sets the flag and hands a new refresh body to the pool. *)
Theorem refresh_stops_on_empty_listing (ticks_per_ms : Z)
    (radarId product : string) (group : RadarProductGroup)
    (provider : Provider) (pm : ProviderManager) :
  Refresh provider = (0%nat, 0%nat) ->
  refreshEnabled_ pm = true ->
  refreshEnabled_ (ProviderManager_new radarId group product) = false /\
  refreshEnabled_ (ProviderManager_new_group radarId group) = false /\
  refreshEnabled_ (fst (RefreshData_body ticks_per_ms provider pm)) = false /\
  refreshTimer_ (fst (RefreshData_body ticks_per_ms provider pm))
  = refreshTimer_ pm /\
  refreshTimer_
    (fst (RefreshData_body ticks_per_ms provider (fst (RefreshData pm))))
  = None /\
  snd (RefreshData_body ticks_per_ms provider pm) = [] /\
  refreshEnabled_
    (fst (EnableRefresh
            (fst (RefreshData_body ticks_per_ms provider pm)) true)) = true /\
  snd (EnableRefresh (fst (RefreshData_body ticks_per_ms provider pm)) true)
  = [AsyncRefresh].
Proof.
  intros Href Hen. unfold RefreshData_body, RefreshData_listing, RefreshData.
  rewrite Href. cbn. rewrite Hen. cbn. repeat split.
Qed.

Lemma refresh_stops_on_empty_listing_witness :
  refreshEnabled_
    (fst (RefreshData_body 1000000 (sample_provider 0 0) sample_manager))
  = false /\
  refreshTimer_
    (fst (RefreshData_body 1000000 (sample_provider 0 0) sample_manager))
  = None /\
  snd (EnableRefresh
         (fst (RefreshData_body 1000000 (sample_provider 0 0) sample_manager))
         true)
  = [AsyncRefresh].
Proof.
  destruct (refresh_stops_on_empty_listing 1000000 "KLSX" "???" Level2
              (sample_provider 0 0) sample_manager eq_refl eq_refl)
    as (_ & _ & H1 & H2 & _ & _ & _ & H3).
  split; [exact H1 |]. split; [exact H2 | exact H3].
Defined.

End ManagerFacts.

(** ** Further facts about the Message 31 decoder *)

Module RdaExtraFacts.
Import IStream StreamFacts Rda RdaFacts RdaExtra.

(** *** The result of [Parse] *)

(** [Parse] answers the conjunction of the two header tests and of the
    validation, and keeps the header the tests leave. *)
Lemma Parse_unfold (ValidateMessage : istream -> nat -> bool * istream)
    (p : DigitalRadarDataImpl) (s : istream) :
  exists ptrs b sv,
    Parse ValidateMessage p s
    = ((snd (Parse_checks (decoded_header p s) true)
        && fst (ValidateMessage sv 0%nat),
        mk_DigitalRadarDataImpl
          (fst (Parse_checks (decoded_header p s) true)) ptrs b),
       snd (ValidateMessage sv 0%nat)).
Proof.
  unfold decoded_header, Parse.
  destruct (tellg s) as [isBegin s0]. cbn [snd].
  destruct (Parse_fields (header p) s0) as [h s1]. cbn [fst].
  destruct (Parse_checks h true) as [h' v]. cbn [fst snd].
  destruct (read_words 4 (dataBlockPointer_ p)
              (Z.to_nat (dataBlockCount_ h') * 4) s1) as [ptrs s2].
  destruct (Parse_blocks isBegin
              (take (Z.to_nat (dataBlockCount_ h'))
                 (SwapArray ptrs (Z.to_nat (dataBlockCount_ h'))))
              (blocks p) s2) as [b s3].
  exists (SwapArray ptrs (Z.to_nat (dataBlockCount_ h'))), b,
    (seekg isBegin s3).
  destruct (ValidateMessage (seekg isBegin s3) 0%nat) as [ok s4].
  cbn [fst snd]. destruct ok, v; reflexivity.
Qed.

(** X1. With a validation that accepts, [Parse] returns [true] exactly for
    a decoded header whose block count is between 4 and 10 and whose
    compression indicator is 0; with a validation that refuses it returns
    [false]; and for a header that passes the two tests the object holds the
    fields as decoded, block count included. *)
Theorem Parse_accepts (ValidateMessage : istream -> nat -> bool * istream)
    (p : DigitalRadarDataImpl) (s : istream) :
  ((forall s' n, fst (ValidateMessage s' n) = true) ->
   (fst (fst (Parse ValidateMessage p s)) = true <->
    4 <= dataBlockCount_ (decoded_header p s) <= 10 /\
    compressionIndicator_ (decoded_header p s) = 0)) /\
  ((forall s' n, fst (ValidateMessage s' n) = false) ->
   fst (fst (Parse ValidateMessage p s)) = false) /\
  (4 <= dataBlockCount_ (decoded_header p s) <= 10 ->
   compressionIndicator_ (decoded_header p s) = 0 ->
   header (snd (fst (Parse ValidateMessage p s))) = decoded_header p s).
Proof.
  destruct (Parse_unfold ValidateMessage p s) as (ptrs & b & sv & ->).
  cbn [fst snd header]. split; [| split].
  - intros Hv. rewrite Hv, andb_true_r. split.
    + intros Htrue.
      destruct (Z_lt_dec (dataBlockCount_ (decoded_header p s)) 4) as [H4 |];
        [| destruct (Z_lt_dec 10 (dataBlockCount_ (decoded_header p s)))
             as [H10 |];
           [| destruct (Z.eq_dec (compressionIndicator_ (decoded_header p s))
                          0) as [H0 | H0]; [lia |] ] ].
      * destruct (Parse_checks_invalid (decoded_header p s) true) as [Hf _];
          [auto | congruence].
      * destruct (Parse_checks_invalid (decoded_header p s) true) as [Hf _];
          [auto | congruence].
      * destruct (Parse_checks_invalid (decoded_header p s) true) as [Hf _];
          [auto | congruence].
    + intros [Hc H0]. rewrite Parse_checks_valid by assumption. reflexivity.
  - intros Hv. rewrite Hv. apply andb_false_r.
  - intros Hc H0. rewrite Parse_checks_valid by assumption. reflexivity.
Qed.

Lemma Parse_accepts_witness :
  fst (fst (Parse validate_all DigitalRadarDataImpl_new sample_valid_stream))
  = true /\
  data_block_count
    (snd (fst (Parse validate_all DigitalRadarDataImpl_new
                 sample_valid_stream))) = 6.
Proof.
  destruct (Parse_accepts validate_all DigitalRadarDataImpl_new
              sample_valid_stream) as (Hiff & _ & Hkeep).
  assert (Hc : 4 <= dataBlockCount_
                      (decoded_header DigitalRadarDataImpl_new
                         sample_valid_stream) <= 10)
    by (vm_compute; split; discriminate).
  split.
  - apply Hiff; [reflexivity |]. split; [exact Hc | reflexivity].
  - unfold data_block_count. rewrite (Hkeep Hc eq_refl). reflexivity.
Defined.

(** *** A message cut short *)

Lemma track_start (s : istream) : track s 0 (snd (tellg s)).
Proof.
  unfold track, tellg, sentry. destruct (good s) eqn:Hg.
  - apply good_bits in Hg as Hb. destruct Hb as [_ Hf]. unfold fail.
    rewrite Hf. cbn. left. apply at_off_0. exact Hg.
  - cbn. right. reflexivity.
Qed.

(** A read on a tracked stream: it stays tracked; a failed stream gives no
    byte; a stream that stands at [k] gives the bytes it holds there. *)
Lemma read_track (s0 s : istream) (k n : nat) :
  track s0 k s ->
  track s0 (k + n) (snd (read n s)) /\
  ((fst (read n s) = [] /\ failbit (snd (read n s)) = true) \/
   (s = at_off s0 k /\ fst (read n s) = bytes_at s0 k n)).
Proof.
  intros [-> | Hf].
  - assert (Hrest : rest (at_off s0 k) = drop k (rest s0)).
    { unfold rest, at_off. cbn. rewrite drop_drop. reflexivity. }
    unfold read, sentry. cbn [good at_off eofbit failbit negb andb].
    rewrite Hrest. fold (bytes_at s0 k n).
    destruct (Nat.ltb_spec (length (bytes_at s0 k n)) n) as [Hlt | Hge].
    + cbn [fst snd]. split; [right; reflexivity |]. right. auto.
    + cbn [fst snd]. split; [| right; auto]. left.
      assert (Hlen : length (bytes_at s0 k n) = n).
      { unfold bytes_at in *. rewrite length_take in *. lia. }
      rewrite Hlen. unfold at_off, set_gpos. cbn. f_equal. lia.
  - unfold read, sentry, good. rewrite Hf, andb_false_r. cbn.
    split; [right; reflexivity | left; auto].
Qed.

Lemma skip_track (s0 s : istream) (k : nat) (off : nat) :
  track s0 k s -> track s0 (k + off) (snd (skip (Z.of_nat off) s)).
Proof.
  intros [-> | Hf]; unfold skip, seekg_cur, sentry, pubseekpos; cbn.
  - destruct ((0 <=? Z.of_nat (gpos s0 + k) + Z.of_nat off)
              && (Z.of_nat (gpos s0 + k) + Z.of_nat off
                  <=? Z.of_nat (length (buf s0)))); cbn.
    + left. unfold at_off, set_gpos. cbn. f_equal. lia.
    + right. reflexivity.
  - rewrite Hf. cbn. right. reflexivity.
Qed.

Lemma read_uint_track (s0 s : istream) (k n : nat) (old : Z) :
  track s0 k s -> track s0 (k + n) (snd (read_uint n old s)).
Proof.
  intros H. unfold read_uint. destruct (read_track s0 s k n H) as [Ht _].
  destruct (read n s). exact Ht.
Qed.

Lemma read_chars_track (s0 s : istream) (k n : nat) (old : list ascii) :
  track s0 k s -> track s0 (k + n) (snd (read_chars n old s)).
Proof.
  intros H. unfold read_chars. destruct (read_track s0 s k n H) as [Ht _].
  destruct (read n s). exact Ht.
Qed.

(** A 16-bit field that held 0, read from a tracked stream that holds less
    than two bytes there, and swapped: 0, or 256 and more. *)
Lemma short_count (s0 s : istream) (k : nat) :
  track s0 k s -> (avail s0 < k + 2)%nat ->
  ntohs (fst (read_uint 2 0 s)) = 0 \/ 256 <= ntohs (fst (read_uint 2 0 s)).
Proof.
  intros Ht Hav. unfold read_uint.
  destruct (read_track s0 s k 2 Ht) as [_ [[Hnil _] | [_ Hbytes]]];
    destruct (read 2 s) as [bs s']; cbn [fst] in *.
  - subst bs. left. reflexivity.
  - subst bs. unfold bytes_at.
    assert (Hlen : (length (drop k (rest s0)) < 2)%nat).
    { rewrite length_drop, length_rest. lia. }
    destruct (drop k (rest s0)) as [| a [| b r]]; cbn in Hlen; try lia.
    + left. reflexivity.
    + change (stored 2 0 (take 2 [a])) with (le_decode [a; NUL]).
      rewrite ntohs_le_decode. pose proof (byte_val_range a).
      change (byte_val NUL) with 0.
      destruct (Z.eq_dec (byte_val a) 0); [left | right]; lia.
Qed.

(** The block count that [Parse] decodes into a new object from a stream
    that holds less than the 32 bytes of the fixed fields. *)
Lemma decoded_count_short (s : istream) :
  (avail s < 32)%nat ->
  dataBlockCount_ (decoded_header DigitalRadarDataImpl_new s) = 0 \/
  256 <= dataBlockCount_ (decoded_header DigitalRadarDataImpl_new s).
Proof.
  intros Hav. unfold decoded_header.
  pose proof (track_start s) as H0.
  destruct (tellg s) as [isBegin s0]. cbn [snd] in *.
  unfold Parse_fields, bind, ret, DigitalRadarDataImpl_new. cbn [header].
  cbn [radarIdentifier_ collectionTime_ modifiedJulianDate_ azimuthNumber_
       azimuthAngle_ compressionIndicator_ radialLength_
       azimuthResolutionSpacing_ radialStatus_ elevationNumber_
       cutSectorNumber_ elevationAngle_ radialSpotBlankingStatus_
       azimuthIndexingMode_ dataBlockCount_].
  repeat match goal with
         | H : track s ?k ?x
           |- context [read_chars ?n ?o ?x] =>
             let H' := fresh "H" in
             pose proof (read_chars_track s x k n o H) as H';
             destruct (read_chars n o x); cbn [snd Nat.add] in H'; clear H
         | H : track s ?k ?x
           |- context [skip 1 ?x] =>
             let H' := fresh "H" in
             pose proof (skip_track s x k 1 H) as H';
             change (Z.of_nat 1) with 1 in H';
             destruct (skip 1 x); cbn [snd Nat.add] in H'; clear H
         | H : track s ?k ?x
           |- context [read_uint ?n ?o ?x] =>
             lazymatch k with
             | 30%nat => fail
             | _ =>
                 let H' := fresh "H" in
                 pose proof (read_uint_track s x k n o H) as H';
                 destruct (read_uint n o x); cbn [snd Nat.add] in H'; clear H
             end
         end.
  match goal with
  | H : track s 30 ?x |- _ =>
      pose proof (short_count s x 30 H ltac:(lia)) as Hc;
      destruct (read_uint 2 0 x)
  end.
  cbn [fst dataBlockCount_] in *. exact Hc.
Qed.

(** X2. A stream that holds less than the 32 bytes of the fixed fields:
    [Parse] on a new object returns [false] and leaves the block count at 0,
    whatever the bytes are and whatever the validation answers. *)
Theorem Parse_rejects_short_header
    (ValidateMessage : istream -> nat -> bool * istream) (s : istream) :
  (avail s < 32)%nat ->
  fst (fst (Parse ValidateMessage DigitalRadarDataImpl_new s)) = false /\
  data_block_count (snd (fst (Parse ValidateMessage DigitalRadarDataImpl_new s)))
  = 0.
Proof.
  intros Hav.
  destruct (Parse_unfold ValidateMessage DigitalRadarDataImpl_new s)
    as (ptrs & b & sv & ->).
  cbn [fst snd]. unfold data_block_count. cbn [header].
  destruct (Parse_checks_invalid
              (decoded_header DigitalRadarDataImpl_new s) true) as [Hf Hc].
  { destruct (decoded_count_short s Hav) as [H0 | H256]; [left | right; left];
      lia. }
  rewrite Hf, Hc. auto.
Qed.

Lemma Parse_rejects_short_header_witness :
  fst (fst (Parse validate_all DigitalRadarDataImpl_new
              sample_truncated_stream)) = false /\
  data_block_count
    (snd (fst (Parse validate_all DigitalRadarDataImpl_new
                 sample_truncated_stream))) = 0.
Proof.
  apply (Parse_rejects_short_header validate_all sample_truncated_stream).
  vm_compute. lia.
Defined.

(** *** Blocks and their slots *)

Lemma strToDataBlock_elem (name : string) (t : DataBlockType) :
  strToDataBlock_ !! name = Some t ->
  (name, t) ∈ [("VOL"%string, Volume); ("ELV"%string, Elevation);
               ("RAD"%string, Radial); ("REF"%string, MomentRef);
               ("VEL"%string, MomentVel); ("SW "%string, MomentSw);
               ("ZDR"%string, MomentZdr); ("PHI"%string, MomentPhi);
               ("RHO"%string, MomentRho); ("CFP"%string, MomentCfp)].
Proof. unfold strToDataBlock_. apply elem_of_list_to_map_2. Qed.

(** The data name the table gives a block type to. *)
Lemma strToDataBlock_name (name : string) (t : DataBlockType) :
  strToDataBlock_ !! name = Some t ->
  match t with
  | Volume => name = "VOL"%string
  | Elevation => name = "ELV"%string
  | Radial => name = "RAD"%string
  | MomentRef => name = "REF"%string
  | MomentVel => name = "VEL"%string
  | MomentSw => name = "SW "%string
  | MomentZdr => name = "ZDR"%string
  | MomentPhi => name = "PHI"%string
  | MomentRho => name = "RHO"%string
  | MomentCfp => name = "CFP"%string
  | Unknown => False
  end.
Proof.
  intros H. apply strToDataBlock_elem in H.
  repeat match goal with
         | H : _ ∈ _ :: _ |- _ => apply elem_of_cons in H as [H | H]
         | H : _ ∈ [] |- _ => inversion H
         | H : (_, _) = (_, _) |- _ => injection H as -> ->
         end; reflexivity.
Qed.

Ltac destruct_reads :=
  repeat match goal with
         | |- context [read_uint ?n ?o ?x] => destruct (read_uint n o x)
         | |- context [read_int16 ?o ?x] => destruct (read_int16 o x)
         | |- context [read_chars ?n ?o ?x] => destruct (read_chars n o x)
         | |- context [read_words ?w ?o ?n ?x] => destruct (read_words w o n x)
         end.

Lemma VolumeDataBlock_Create_name (t name : string) (s : istream) :
  v_dataName_ (fst (VolumeDataBlock_Create t name s)) = name.
Proof.
  unfold VolumeDataBlock_Create, bind, ret. destruct_reads. reflexivity.
Qed.

Lemma ElevationDataBlock_Create_name (t name : string) (s : istream) :
  e_dataName_ (fst (ElevationDataBlock_Create t name s)) = name.
Proof.
  unfold ElevationDataBlock_Create, bind, ret. destruct_reads. reflexivity.
Qed.

Lemma RadialDataBlock_Create_name (t name : string) (s : istream) :
  r_dataName_ (fst (RadialDataBlock_Create t name s)) = name.
Proof.
  unfold RadialDataBlock_Create, bind, ret. destruct_reads. reflexivity.
Qed.

Lemma MomentDataBlock_Create_name (t name : string) (s : istream) :
  m_dataName_ (fst (MomentDataBlock_Create t name s)) = name.
Proof.
  unfold MomentDataBlock_Create, MomentDataBlock_fields, bind, ret, skip.
  destruct_reads. unfold MomentDataBlock_gates, bind, ret.
  cbn [numberOfDataMomentGates_ dataWordSize_ momentGates8_ momentGates16_].
  repeat match goal with
         | |- context [if ?c then _ else _] => destruct c
         end; destruct_reads; reflexivity.
Qed.

Lemma Parse_block_slots (isBegin pointer : Z) (b : Blocks) (s : istream) :
  slots_named b -> slots_named (fst (Parse_block isBegin pointer b s)).
Proof.
  intros Hb. unfold Parse_block.
  destruct (read_chars 1 [NUL] (seekg (isBegin + pointer) s)) as [t s1].
  destruct (read_chars 3 [NUL; NUL; NUL] s1) as [name s2].
  pose proof (strToDataBlock_name (string_of_list_ascii name)) as Hname.
  destruct (strToDataBlock_ !! string_of_list_ascii name) as [d |];
    cbn [default]; [| exact Hb].
  specialize (Hname d eq_refl).
  pose proof (VolumeDataBlock_Create_name (string_of_list_ascii t)
                (string_of_list_ascii name) s2) as Hv.
  pose proof (ElevationDataBlock_Create_name (string_of_list_ascii t)
                (string_of_list_ascii name) s2) as He.
  pose proof (RadialDataBlock_Create_name (string_of_list_ascii t)
                (string_of_list_ascii name) s2) as Hr.
  pose proof (MomentDataBlock_Create_name (string_of_list_ascii t)
                (string_of_list_ascii name) s2) as Hm.
  unfold slots_named in *.
  destruct Hb as (H1 & H2 & H3 & H4 & H5 & H6 & H7 & H8 & H9 & H10).
  destruct d; try contradiction;
    [ destruct (VolumeDataBlock_Create _ _ s2)
    | destruct (ElevationDataBlock_Create _ _ s2)
    | destruct (RadialDataBlock_Create _ _ s2)
    | destruct (MomentDataBlock_Create _ _ s2) ..];
    cbn [fst snd volumeDataBlock_ elevationDataBlock_ radialDataBlock_
         momentRefDataBlock_ momentVelDataBlock_ momentSwDataBlock_
         momentZdrDataBlock_ momentPhiDataBlock_ momentRhoDataBlock_
         momentCfpDataBlock_ named] in *;
    repeat split; try assumption; congruence.
Qed.

Lemma Parse_blocks_slots (isBegin : Z) (pointers : list Z) (b : Blocks)
    (s : istream) :
  slots_named b -> slots_named (fst (Parse_blocks isBegin pointers b s)).
Proof.
  revert b s. induction pointers as [| ptr more IH]; intros b s Hb.
  - exact Hb.
  - cbn [Parse_blocks]. unfold bind.
    pose proof (Parse_block_slots isBegin ptr b s Hb) as H1.
    destruct (Parse_block isBegin ptr b s) as [b' s']. apply IH. exact H1.
Qed.

(** The blocks of the object after [Parse] are those the loop over the
    pointers makes of the blocks before. *)
Lemma Parse_blocks_of (ValidateMessage : istream -> nat -> bool * istream)
    (p : DigitalRadarDataImpl) (s : istream) :
  exists isBegin pointers s2,
    blocks (snd (fst (Parse ValidateMessage p s)))
    = fst (Parse_blocks isBegin pointers (blocks p) s2).
Proof.
  unfold Parse.
  destruct (tellg s) as [isBegin s0].
  destruct (Parse_fields (header p) s0) as [h s1].
  destruct (Parse_checks h true) as [h' v].
  destruct (read_words 4 (dataBlockPointer_ p)
              (Z.to_nat (dataBlockCount_ h') * 4) s1) as [ptrs s2].
  exists isBegin,
    (take (Z.to_nat (dataBlockCount_ h'))
       (SwapArray ptrs (Z.to_nat (dataBlockCount_ h')))), s2.
  destruct (Parse_blocks isBegin _ (blocks p) s2) as [b s3].
  destruct (ValidateMessage (seekg isBegin s3) 0%nat) as [ok s4].
  reflexivity.
Qed.

(** X3. Whatever the stream holds and whatever the pointers are, every block
    of a message made by [Create] sits in the slot of its data name: the
    volume block is named ["VOL"], the moment block of the reflectivity
    ["REF"], and so on for the ten slots; [Parse] keeps this of an object
    that has it. *)
Theorem Create_slots_named
    (ValidateMessage : istream -> nat -> bool * istream)
    (p : DigitalRadarDataImpl) (s : istream) :
  slots_named (blocks (fst (Create ValidateMessage s))) /\
  (slots_named (blocks p) ->
   slots_named (blocks (snd (fst (Parse ValidateMessage p s))))).
Proof.
  split.
  - unfold Create.
    destruct (Parse_blocks_of ValidateMessage DigitalRadarDataImpl_new s)
      as (isBegin & pointers & s2 & H).
    destruct (Parse ValidateMessage DigitalRadarDataImpl_new s)
      as [[valid p'] s']. cbn [fst snd] in *. rewrite H.
    apply Parse_blocks_slots. cbn. unfold slots_named. cbn. tauto.
  - intros Hp.
    destruct (Parse_blocks_of ValidateMessage p s)
      as (isBegin & pointers & s2 & ->).
    apply Parse_blocks_slots. exact Hp.
Qed.

(** *** Gate counts out of range and gate data cut short *)

Lemma length_read (n : nat) (s : istream) :
  (length (fst (read n s)) <= n)%nat.
Proof.
  unfold read, sentry. destruct (good s); cbn [fst snd].
  - destruct (length (take n (rest s)) <? n)%nat; cbn [fst];
      rewrite length_take; lia.
  - cbn [length]. lia.
Qed.

Lemma length_le_words (w n : nat) (mem : list ascii) :
  length (le_words w n mem) = n.
Proof.
  revert mem. induction n as [| n IH]; intros mem; cbn; [reflexivity |].
  f_equal. apply IH.
Qed.

(** A read of more than a good stream holds: it gives what is left and
    leaves the stream at its end with [eofbit] and [failbit]. *)
Lemma read_short (n : nat) (s : istream) :
  good s = true -> (avail s < n)%nat ->
  read n s
  = (rest s, mk_istream (buf s) (gpos s + avail s) true true).
Proof.
  intros Hg Hav. unfold read, sentry. rewrite Hg.
  assert (Ht : take n (rest s) = rest s).
  { apply take_ge. rewrite length_rest. lia. }
  rewrite Ht, length_rest.
  destruct (Nat.ltb_spec (avail s) n); [reflexivity | lia].
Qed.

(** X4. A moment block whose decoded gate count is above 1840: the decoder
    takes nothing after the fixed fields, whatever the word size, and both
    gate vectors are empty. *)
Theorem moment_gates_out_of_range (t name : string) (s : istream) :
  1840 < numberOfDataMomentGates_ (fst (MomentDataBlock_fields t name s)) ->
  MomentDataBlock_Create t name s = MomentDataBlock_fields t name s /\
  momentGates8_ (fst (MomentDataBlock_Create t name s)) = [] /\
  momentGates16_ (fst (MomentDataBlock_Create t name s)) = [].
Proof.
  intros Hn.
  destruct (MomentDataBlock_fields_gates t name s) as (Hg8 & Hg16 & _).
  unfold MomentDataBlock_Create, bind.
  destruct (MomentDataBlock_fields t name s) as [p s1]. cbn [fst] in *.
  unfold MomentDataBlock_gates.
  destruct (Z.leb_spec (numberOfDataMomentGates_ p) 1840); [lia |].
  rewrite andb_false_r. unfold ret. cbn [fst]. auto.
Qed.

Lemma moment_gates_out_of_range_witness :
  numberOfDataMomentGates_
    (fst (MomentDataBlock_Create "D" "REF" sample_moment_too_many)) = 2000 /\
  gpos (snd (MomentDataBlock_Create "D" "REF" sample_moment_too_many))
  = 24%nat /\
  momentGates8_
    (fst (MomentDataBlock_Create "D" "REF" sample_moment_too_many)) = [].
Proof.
  destruct (moment_gates_out_of_range "D" "REF" sample_moment_too_many)
    as (Heq & H8 & _).
  - vm_compute. reflexivity.
  - rewrite Heq. split; [reflexivity |]. split; [reflexivity |].
    rewrite <- Heq. exact H8.
Defined.

(** X5. A moment block whose decoded gate count [n] is at most 1840: with
    8-bit words the gate vector has [n] elements on every stream, and with
    16-bit words too; when the stream holds less than [n] bytes after the
    fixed fields, the 8-bit vector holds those bytes and zeros after them,
    and the stream is left at its end with [eofbit] and [failbit]. *)
Theorem moment_gates_cut_short (t name : string) (s s1 s2 : istream)
    (p p' : MomentDataBlock) :
  MomentDataBlock_fields t name s = (p, s1) ->
  MomentDataBlock_Create t name s = (p', s2) ->
  numberOfDataMomentGates_ p <= 1840 ->
  (dataWordSize_ p = 8 ->
   length (momentGates8_ p') = Z.to_nat (numberOfDataMomentGates_ p) /\
   (good s1 = true ->
    (avail s1 < Z.to_nat (numberOfDataMomentGates_ p))%nat ->
    momentGates8_ p'
    = rest s1
      ++ replicate (Z.to_nat (numberOfDataMomentGates_ p) - avail s1) NUL /\
    gpos s2 = (gpos s1 + avail s1)%nat /\
    eofbit s2 = true /\ failbit s2 = true)) /\
  (dataWordSize_ p = 16 ->
   length (momentGates16_ p') = Z.to_nat (numberOfDataMomentGates_ p)).
Proof.
  intros Hfields Hcreate Hn.
  pose proof (MomentDataBlock_fields_gates t name s) as Hf.
  unfold MomentDataBlock_Create, bind in Hcreate.
  rewrite Hfields in Hcreate, Hf. cbn [fst] in Hf.
  destruct Hf as (Hg8 & Hg16 & Hn0).
  unfold MomentDataBlock_gates in Hcreate.
  replace ((0 <=? numberOfDataMomentGates_ p)
           && (numberOfDataMomentGates_ p <=? 1840)) with true in Hcreate
    by (symmetry; apply andb_true_intro; split; apply Z.leb_le; lia).
  set (n := Z.to_nat (numberOfDataMomentGates_ p)) in *.
  split.
  - intros Hw. rewrite Hw in Hcreate. cbn [Z.eqb Pos.eqb] in Hcreate.
    unfold bind, ret, read_chars in Hcreate.
    rewrite Hg8, resize_nil in Hcreate. split.
    + pose proof (length_read n s1) as Hlen.
      destruct (read n s1) as [bs s']. cbn [fst] in Hlen.
      injection Hcreate as <- <-. cbn [momentGates8_ set_momentGates8].
      rewrite length_app, length_drop, length_replicate. lia.
    + intros Hgood Hav. rewrite (read_short n s1 Hgood Hav) in Hcreate.
      injection Hcreate as <- <-.
      cbn [momentGates8_ set_momentGates8 gpos eofbit failbit].
      rewrite length_rest. split; [| auto].
      f_equal. rewrite drop_replicate. reflexivity.
  - intros Hw. rewrite Hw in Hcreate. cbn [Z.eqb Pos.eqb] in Hcreate.
    unfold bind, ret, read_words in Hcreate.
    rewrite Hg16, resize_nil in Hcreate.
    destruct (read (Z.to_nat (numberOfDataMomentGates_ p * 2)) s1)
      as [bs s'].
    injection Hcreate as <- <-. cbn [momentGates16_ set_momentGates16].
    unfold SwapVector. rewrite length_map, length_le_words.
    apply length_replicate.
Qed.

Lemma moment_gates_cut_short_witness :
  momentGates8_ (fst (MomentDataBlock_Create "D" "REF" sample_moment_cut))
  = map ascii_of_nat [7; 9; 0; 0]%nat /\
  failbit (snd (MomentDataBlock_Create "D" "REF" sample_moment_cut)) = true.
Proof.
  pose (f := MomentDataBlock_fields "D" "REF" sample_moment_cut).
  pose (c := MomentDataBlock_Create "D" "REF" sample_moment_cut).
  assert (Hle : numberOfDataMomentGates_ (fst f) <= 1840)
    by (vm_compute; discriminate).
  destruct (moment_gates_cut_short "D" "REF" sample_moment_cut
              (snd f) (snd c) (fst f) (fst c) eq_refl eq_refl Hle)
    as [H8 _].
  destruct (H8 eq_refl) as [_ Hcut].
  destruct Hcut as (Hg & _ & _ & Hfail); [reflexivity | vm_compute; lia |].
  split; [exact Hg | exact Hfail].
Defined.

(** *** The layout of the blocks and of the fixed fields *)

Lemma read_int16_at_off (k : nat) (old : Z) (s : istream) :
  (k + 2 <= avail s)%nat ->
  snd (read_int16 old (at_off s k)) = at_off s (k + 2).
Proof.
  intros H. unfold read_int16. rewrite read_at_off by assumption.
  reflexivity.
Qed.

Ltac step_reads H :=
  repeat (first
    [ rewrite read_uint_at_off in H by (unfold avail; lia)
    | rewrite (skip_at_off _ 4) in H by lia
    | rewrite (skip_at_off _ 1) in H by lia
    | match type of H with
      | context [read_int16 ?o (at_off ?s ?k)] =>
          let E := fresh "E" in
          let v := fresh "v" in
          let st := fresh "st" in
          pose proof (read_int16_at_off k o s ltac:(unfold avail; lia)) as E;
          destruct (read_int16 o (at_off s k)) as [v st];
          cbn [snd] in E; subst st
      end ];
    cbn [Nat.add] in H).

(** X6. The bytes a block takes from a good stream that holds them: the
    fixed fields of a moment block are the 24 bytes after the data name
    (4 reserved bytes skipped), a volume block takes 40 bytes, an elevation
    block 8 and a radial block 24; the stream stays good. *)
Theorem block_sizes (t name : string) (s : istream) :
  good s = true ->
  ((gpos s + 24 <= length (buf s))%nat ->
   snd (MomentDataBlock_fields t name s) = at_off s 24) /\
  ((gpos s + 40 <= length (buf s))%nat ->
   snd (VolumeDataBlock_Create t name s) = at_off s 40) /\
  ((gpos s + 8 <= length (buf s))%nat ->
   snd (ElevationDataBlock_Create t name s) = at_off s 8) /\
  ((gpos s + 24 <= length (buf s))%nat ->
   snd (RadialDataBlock_Create t name s) = at_off s 24).
Proof.
  intros Hg. repeat split; intros Hlen.
  - remember (MomentDataBlock_fields t name s) as X eqn:HX.
    rewrite (at_off_0 s Hg) in HX.
    unfold MomentDataBlock_fields, MomentDataBlock_new, bind, ret in HX.
    cbn [numberOfDataMomentGates_ dataMomentRange_
         dataMomentRangeSampleInterval_ tover_ snrThreshold_ controlFlags_
         dataWordSize_ scale_ offset_] in HX.
    change 4 with (Z.of_nat 4) in HX.
    step_reads HX. subst X. reflexivity.
  - remember (VolumeDataBlock_Create t name s) as X eqn:HX.
    rewrite (at_off_0 s Hg) in HX.
    unfold VolumeDataBlock_Create, bind, ret in HX.
    step_reads HX. subst X. reflexivity.
  - remember (ElevationDataBlock_Create t name s) as X eqn:HX.
    rewrite (at_off_0 s Hg) in HX.
    unfold ElevationDataBlock_Create, bind, ret in HX.
    step_reads HX. subst X. reflexivity.
  - remember (RadialDataBlock_Create t name s) as X eqn:HX.
    rewrite (at_off_0 s Hg) in HX.
    unfold RadialDataBlock_Create, bind, ret in HX.
    step_reads HX. subst X. reflexivity.
Qed.

Lemma block_sizes_witness :
  snd (MomentDataBlock_fields "D" "REF" sample_moment_stream)
  = at_off sample_moment_stream 24.
Proof.
  apply (block_sizes "D" "REF" sample_moment_stream eq_refl).
  vm_compute. lia.
Defined.

Lemma div_mod_unique (m r q : Z) :
  0 <= r < m -> (r + m * q) / m = q /\ (r + m * q) mod m = r.
Proof.
  intros Hr. split.
  - symmetry. apply (Z.div_unique _ _ q r); [left; exact Hr | lia].
  - symmetry. apply (Z.mod_unique _ _ q r); [left; exact Hr | lia].
Qed.

(** A 32-bit word read from four bytes and swapped is the big-endian value
    of the bytes. *)
Lemma ntohl_le_decode (a b c d : ascii) :
  ntohl (le_decode [a; b; c; d]) = be_decode [a; b; c; d].
Proof.
  pose proof (byte_val_range a) as Ha. pose proof (byte_val_range b) as Hb.
  pose proof (byte_val_range c) as Hc. pose proof (byte_val_range d) as Hd.
  unfold ntohl, be_decode. cbn [le_decode fold_left].
  set (va := byte_val a) in *. set (vb := byte_val b) in *.
  set (vc := byte_val c) in *. set (vd := byte_val d) in *.
  set (x := va + 256 * (vb + 256 * (vc + 256 * (vd + 256 * 0)))).
  change 255 with (Z.ones 8).
  rewrite !Z.land_ones by lia. rewrite !Z.shiftr_div_pow2 by lia.
  change (2 ^ 8) with 256. change (2 ^ 16) with 65536.
  change (2 ^ 24) with 16777216.
  assert (H0 : x mod 256 = va).
  { apply (div_mod_unique 256 va (vb + 256 * (vc + 256 * (vd + 256 * 0)))).
    exact Ha. }
  assert (H1 : x / 256 = vb + 256 * (vc + 256 * vd)).
  { unfold x. replace (vd + 256 * 0) with vd by lia.
    apply (div_mod_unique 256 va (vb + 256 * (vc + 256 * vd))). exact Ha. }
  assert (H2 : x / 65536 = vc + 256 * vd).
  { unfold x.
    replace (va + 256 * (vb + 256 * (vc + 256 * (vd + 256 * 0))))
      with ((va + 256 * vb) + 65536 * (vc + 256 * vd)) by lia.
    apply (div_mod_unique 65536 (va + 256 * vb) (vc + 256 * vd)). lia. }
  assert (H3 : x / 16777216 = vd).
  { unfold x.
    replace (va + 256 * (vb + 256 * (vc + 256 * (vd + 256 * 0))))
      with ((va + 256 * vb + 65536 * vc) + 16777216 * vd) by lia.
    apply (div_mod_unique 16777216 (va + 256 * vb + 65536 * vc) vd). lia. }
  rewrite H0, H1, H2, H3.
  assert (E1 : (vb + 256 * (vc + 256 * vd)) mod 256 = vb)
    by (apply (div_mod_unique 256 vb (vc + 256 * vd)); exact Hb).
  assert (E2 : (vc + 256 * vd) mod 256 = vc)
    by (apply (div_mod_unique 256 vc vd); exact Hc).
  rewrite E1, E2, (Z.mod_small vd) by lia.
  rewrite (lor_shiftl_low vc vd 8) by (change (2 ^ 8) with 256; lia).
  rewrite (Z.shiftl_mul_pow2 vb 16) by lia.
  rewrite (lor_shiftl_low va (vb * 2 ^ 16) 24)
    by (change (2 ^ 16) with 65536; change (2 ^ 24) with 16777216; lia).
  replace (va * 2 ^ 24 + vb * 2 ^ 16) with (Z.shiftl (va * 256 + vb) 16)
    by (rewrite Z.shiftl_mul_pow2 by lia;
        change (2 ^ 16) with 65536; change (2 ^ 24) with 16777216; lia).
  rewrite lor_shiftl_low
    by (change (2 ^ 8) with 256; change (2 ^ 16) with 65536; lia).
  change (2 ^ 8) with 256. change (2 ^ 16) with 65536. lia.
Qed.

Lemma ntohl_be (bs : list ascii) :
  length bs = 4%nat -> ntohl (le_decode bs) = be_decode bs.
Proof.
  destruct bs as [| a [| b [| c [| d [| e r]]]]]; try discriminate.
  intros _. apply ntohl_le_decode.
Qed.

Lemma ntohs_be (bs : list ascii) :
  length bs = 2%nat -> ntohs (le_decode bs) = be_decode bs.
Proof.
  destruct bs as [| a [| b [| c r]]]; try discriminate.
  intros _. rewrite ntohs_le_decode. unfold be_decode. cbn. lia.
Qed.

Lemma byte_be (bs : list ascii) :
  length bs = 1%nat -> le_decode bs = be_decode bs.
Proof.
  destruct bs as [| a [| b r]]; try discriminate.
  intros _. unfold be_decode. cbn. lia.
Qed.

Lemma length_bytes_at (s : istream) (k n : nat) :
  (k + n <= avail s)%nat -> length (bytes_at s k n) = n.
Proof.
  intros H. unfold bytes_at. rewrite length_take, length_drop, length_rest.
  lia.
Qed.

Lemma length_resize {A : Type} (n : nat) (fill : A) (v : list A) :
  length (resize n fill v) = n.
Proof.
  unfold resize. rewrite length_app, length_take, length_replicate. lia.
Qed.

(** X7. On a good stream that holds the 32 bytes of the fixed fields,
    every field of the decoded header is the big-endian value of its bytes
    at the offsets of the layout: the radar identifier the bytes 0 to 3, the
    collection time the bytes 4 to 7, the date 8 to 9, the azimuth number 10
    to 11, the azimuth angle (as its 32-bit pattern) 12 to 15, the
    compression indicator 16, the radial length 18 to 19, the five status
    bytes 20 to 23 and 28 to 29, the elevation angle 24 to 27 and the block
    count 30 to 31; byte 17 is skipped. *)
Theorem decoded_header_layout (p : DigitalRadarDataImpl) (s : istream) :
  good s = true -> (32 <= avail s)%nat ->
  radarIdentifier_ (decoded_header p s) = bytes_at s 0 4 /\
  collectionTime_ (decoded_header p s) = be_decode (bytes_at s 4 4) /\
  modifiedJulianDate_ (decoded_header p s) = be_decode (bytes_at s 8 2) /\
  azimuthNumber_ (decoded_header p s) = be_decode (bytes_at s 10 2) /\
  azimuthAngle_ (decoded_header p s) = be_decode (bytes_at s 12 4) /\
  compressionIndicator_ (decoded_header p s) = be_decode (bytes_at s 16 1) /\
  radialLength_ (decoded_header p s) = be_decode (bytes_at s 18 2) /\
  azimuthResolutionSpacing_ (decoded_header p s)
  = be_decode (bytes_at s 20 1) /\
  radialStatus_ (decoded_header p s) = be_decode (bytes_at s 21 1) /\
  elevationNumber_ (decoded_header p s) = be_decode (bytes_at s 22 1) /\
  cutSectorNumber_ (decoded_header p s) = be_decode (bytes_at s 23 1) /\
  elevationAngle_ (decoded_header p s) = be_decode (bytes_at s 24 4) /\
  radialSpotBlankingStatus_ (decoded_header p s)
  = be_decode (bytes_at s 28 1) /\
  azimuthIndexingMode_ (decoded_header p s) = be_decode (bytes_at s 29 1) /\
  dataBlockCount_ (decoded_header p s) = be_decode (bytes_at s 30 2).
Proof.
  intros Hg Hav.
  assert (Hlen : (gpos s + 32 <= length (buf s))%nat)
    by (unfold avail in Hav; lia).
  unfold decoded_header. rewrite (tellg_good s Hg). cbn [snd].
  remember (Parse_fields (header p) s) as X eqn:HX.
  rewrite (at_off_0 s Hg) in HX.
  unfold Parse_fields, bind, ret in HX.
  destruct (read_chars_at_off 4 0 (resize 4 NUL (radarIdentifier_ (header p)))
              s ltac:(lia)) as [Hid Hs].
  destruct (read_chars 4 _ (at_off s 0)) as [id s1].
  cbn [fst snd] in Hid, Hs. subst s1.
  change 1 with (Z.of_nat 1) in HX.
  step_reads HX. subst X. cbn [fst radarIdentifier_ collectionTime_
    modifiedJulianDate_ azimuthNumber_ azimuthAngle_ compressionIndicator_
    radialLength_ azimuthResolutionSpacing_ radialStatus_ elevationNumber_
    cutSectorNumber_ elevationAngle_ radialSpotBlankingStatus_
    azimuthIndexingMode_ dataBlockCount_].
  fold (bytes_at s 0 4) in Hid. fold (bytes_at s 4 4). fold (bytes_at s 8 2).
  fold (bytes_at s 10 2). fold (bytes_at s 12 4). fold (bytes_at s 16 1).
  fold (bytes_at s 18 2). fold (bytes_at s 20 1). fold (bytes_at s 21 1).
  fold (bytes_at s 22 1). fold (bytes_at s 23 1). fold (bytes_at s 24 4).
  fold (bytes_at s 28 1). fold (bytes_at s 29 1). fold (bytes_at s 30 2).
  unfold SwapFloat.
  rewrite !ntohl_be, !ntohs_be, !byte_be by (apply length_bytes_at; lia).
  split; [| repeat split].
  rewrite Hid. rewrite drop_ge by (rewrite length_resize; lia).
  apply app_nil_r.
Qed.

Lemma decoded_header_layout_witness :
  radarIdentifier_ (decoded_header DigitalRadarDataImpl_new sample_valid_stream)
  = map ascii_of_nat [75; 76; 83; 88]%nat /\
  dataBlockCount_ (decoded_header DigitalRadarDataImpl_new sample_valid_stream)
  = be_decode (bytes_at sample_valid_stream 30 2).
Proof.
  destruct (decoded_header_layout DigitalRadarDataImpl_new sample_valid_stream
              eq_refl ltac:(vm_compute; lia))
    as (Hid & _ & _ & _ & _ & _ & _ & _ & _ & _ & _ & _ & _ & _ & Hcount).
  split; [rewrite Hid; reflexivity | exact Hcount].
Defined.

End RdaExtraFacts.

(** ** Further facts about the text-product parser *)

Module AwipsExtraFacts.
Import IStream StreamFacts Awips AwipsFacts AwipsExtra.

Local Open Scope string_scope.

Lemma count_CR_take (l : list ascii) :
  Forall is_line_end (take (count_CR l) l).
Proof.
  induction l as [| c r IH]; cbn [count_CR]; [constructor |].
  destruct (Ascii.eqb_spec c CR) as [-> | _]; [| constructor].
  cbn [take]. constructor; [left; reflexivity | exact IH].
Qed.

(** A line that starts with CR is blank, and what the reader of the line
    grammar takes for it is a run of CR and LF. *)
Lemma getline_lines_blank (s : istream) (r : list ascii) :
  rest s = CR :: r ->
  fst (getline_lines s) = "" /\
  Forall is_line_end (skipped s (snd (getline_lines s))).
Proof.
  intros Hr. unfold skipped, getline_lines. rewrite Hr. cbn [scan_line].
  change (CR =? LF)%char with false. change (CR =? CR)%char with true.
  cbv iota.
  assert (Hrun : forall k, (k = S (count_CR r) \/
                            (k = S (S (count_CR r)) /\
                             exists r', drop (count_CR r) r = LF :: r')) ->
                           Forall is_line_end (take k (CR :: r))).
  { intros k [-> | [-> (r' & Hd)]].
    - cbn [take]. constructor; [left; reflexivity | apply count_CR_take].
    - cbn [take]. constructor; [left; reflexivity |].
      replace (S (count_CR r)) with (count_CR r + 1)%nat by lia.
      rewrite <- (take_take_drop r (count_CR r) 1).
      apply Forall_app. split; [apply count_CR_take |].
      rewrite Hd. cbn. constructor; [right; reflexivity | constructor]. }
  destruct (drop (count_CR r) r) as [| c' r'] eqn:Hd.
  - cbn. split; [reflexivity |].
    replace (gpos s + S (count_CR r) - gpos s)%nat with (S (count_CR r))
      by lia.
    apply Hrun. left. reflexivity.
  - destruct (Ascii.eqb_spec c' LF) as [-> | _].
    + cbn. split; [reflexivity |].
      replace (gpos s + S (S (count_CR r)) - gpos s)%nat
        with (S (S (count_CR r))) by lia.
      apply Hrun. right. split; [reflexivity | eauto].
    + cbn. split; [reflexivity |].
      replace (gpos s + S (count_CR r) - gpos s)%nat with (S (count_CR r))
        by lia.
      apply Hrun. left. reflexivity.
Qed.

Lemma skipped_trans (s s1 s' : istream) :
  buf s1 = buf s -> (gpos s <= gpos s1)%nat -> (gpos s1 <= gpos s')%nat ->
  skipped s s' = (skipped s s1 ++ skipped s1 s')%list.
Proof.
  intros Hb H1 H2. unfold skipped, rest. rewrite Hb.
  replace (gpos s' - gpos s)%nat
    with ((gpos s1 - gpos s) + (gpos s' - gpos s1))%nat by lia.
  rewrite <- take_take_drop. f_equal. rewrite drop_drop.
  do 2 f_equal. lia.
Qed.

Lemma rest_lookup (s : istream) (c : ascii) (r : list ascii) :
  rest s = c :: r -> buf s !! gpos s = Some c.
Proof.
  unfold rest. intros H.
  rewrite <- (Nat.add_0_r (gpos s)), <- lookup_drop, H. reflexivity.
Qed.

Lemma get_good_cons (s : istream) (c : ascii) (r : list ascii) :
  good s = true -> rest s = c :: r ->
  get s = (Some c, set_gpos (S (gpos s)) s).
Proof. intros Hg Hr. unfold get, sentry. rewrite Hg, Hr. reflexivity. Qed.

Section Reader.

Variable getline : istream -> string * istream.
Hypothesis Hreader : line_reader getline.

(** *** Product content *)

Lemma ParseProductContent_loop_buf (n : nat) (s s' : istream)
    (acc r : list string) :
  ParseProductContent_loop getline n s acc = Some (r, s') -> buf s' = buf s.
Proof.
  revert s acc. induction n as [| n IH]; intros s acc Hloop; [discriminate |].
  cbn [ParseProductContent_loop] in Hloop.
  destruct (eof s); [injection Hloop as _ <-; reflexivity |].
  destruct (peek_buf s) as [Hb _].
  destruct (peek s) as [c s0]. cbn [snd] in Hb.
  destruct (is_char ETX c); [injection Hloop as _ <-; exact Hb |].
  pose proof (reader_buf _ Hreader s0) as Hb1.
  destruct (getline s0) as [line s1]. cbn [snd] in Hb1.
  destruct (starts_with (chars "$$") (chars line)).
  - injection Hloop as _ <-. congruence.
  - rewrite (IH _ _ Hloop). congruence.
Qed.

(** X8. The product content [ParseProductContent] returns does not end with
    an empty line, and a line that starts with ["$$"] can only be its last
    line: the content stops with the terminator.  The buffer of the stream
    is untouched. *)
Theorem ParseProductContent_shape (s s' : istream) (content : list string) :
  ParseProductContent getline s = Some (content, s') ->
  buf s' = buf s /\
  last content <> Some "" /\
  terminator_last content.
Proof.
  intros H. split; [| exact (ParseProductContent_shape_of getline _ _ _ H)].
  unfold ParseProductContent in H.
  destruct (ParseProductContent_loop getline (turns s) s [])
    as [[raw s1] |] eqn:Hl; [| discriminate].
  injection H as _ <-. apply (ParseProductContent_loop_buf _ _ _ _ _ Hl).
Qed.

(** X9. On a good stream [ParseProductContent] returns.  At an ETX it
    returns no content and leaves the stream as it is: the ETX is not taken.
    At the end of the buffer it returns no content either, and the stream
    has its [eofbit] and stands where it stood. *)
Theorem ParseProductContent_edges (s : istream) :
  good s = true -> wf s ->
  (exists content s', ParseProductContent getline s = Some (content, s')) /\
  (forall r, rest s = ETX :: r ->
             ParseProductContent getline s = Some ([], s)) /\
  (rest s = [] ->
   exists s', ParseProductContent getline s = Some ([], s') /\
              buf s' = buf s /\ gpos s' = gpos s /\ eofbit s' = true).
Proof.
  intros Hg Hwf. apply good_bits in Hg as Hbits. destruct Hbits as [He Hf].
  split; [| split].
  - unfold ParseProductContent.
    destruct (ParseProductContent_loop_total getline Hreader (turns s) s []
                Hg Hwf (avail_turns s)) as (r & s' & -> & _). eauto.
  - intros r Hr. unfold ParseProductContent, turns.
    cbn [ParseProductContent_loop]. unfold eof. rewrite He.
    rewrite (peek_good_cons s ETX r Hg Hr). reflexivity.
  - intros Hr. unfold ParseProductContent, turns.
    cbn [ParseProductContent_loop]. unfold eof. rewrite He.
    rewrite (peek_good_nil s Hg Hr). cbn [is_char].
    destruct (reader_at_eof getline Hreader (set_eof s) Hr eq_refl)
      as (Hl & Hb & Hp & He1 & _).
    destruct (getline (set_eof s)) as [line s1]. cbn [fst snd] in *.
    subst line. cbn [app chars list_ascii_of_string starts_with].
    destruct (length (buf s)) as [| n]; cbn [ParseProductContent_loop];
      unfold eof; rewrite He1; exists s1; auto.
Qed.

(** *** Blank lines *)

Lemma SkipBlankLines_loop_spec (n : nat) (s s' : istream) :
  SkipBlankLines_loop getline n s = Some s' -> good s = true -> wf s ->
  buf s' = buf s /\ (gpos s <= gpos s')%nat /\
  Forall is_line_end (skipped s s') /\
  ~ is_char CR (fst (peek s')) = true /\
  (~ is_char CR (fst (peek s)) = true -> gpos s' = gpos s).
Proof.
  revert s. induction n as [| n IH]; intros s Hloop Hg Hwf; [discriminate |].
  cbn [SkipBlankLines_loop] in Hloop.
  destruct (rest s) as [| c r] eqn:Hr.
  - rewrite (peek_good_nil s Hg Hr) in *. cbn [is_char fst] in *.
    injection Hloop as <-. cbn [buf gpos set_eof].
    split; [reflexivity |]. split; [lia |].
    split; [unfold skipped; cbn; rewrite Nat.sub_diag; constructor |].
    split; [| reflexivity].
    unfold peek, sentry, good. cbn. discriminate.
  - rewrite (peek_good_cons s c r Hg Hr) in *. cbn [fst].
    destruct (is_char CR (Some c)) eqn:Hc.
    + apply is_char_true in Hc. injection Hc as ->.
      assert (Hne : rest s <> []) by (rewrite Hr; discriminate).
      destruct (reader_progress getline Hreader s Hg Hwf Hne)
        as (Hg1 & Hw1 & Hb1 & _ & Hlt).
      destruct (getline_lines_blank s r Hr) as [_ Hblank].
      rewrite <- (reader_line _ Hreader s Hg Hne) in Hblank.
      destruct (IH _ Hloop Hg1 Hw1) as (Hb & Hle' & Hsk & Hpeek & _).
      split; [congruence |]. split; [lia |].
      split; [| split; [exact Hpeek | intros Hn; exfalso; apply Hn;
                                     reflexivity]].
      rewrite (skipped_trans s (snd (getline s)) s') by (auto; lia).
      apply Forall_app. split; assumption.
    + injection Hloop as <-.
      split; [reflexivity |]. split; [lia |].
      split; [unfold skipped; rewrite Nat.sub_diag; constructor |].
      rewrite (peek_good_cons s c r Hg Hr). cbn [fst].
      split; [congruence | reflexivity].
Qed.

(** X10. On a good stream [SkipBlankLines] returns; what it takes from the
    stream is a run of CR and LF characters, nothing of a line of text; the
    next character is not a CR afterwards; and it takes nothing when the
    next character is not a CR on entry. *)
Theorem SkipBlankLines_skips_line_ends (s : istream) :
  good s = true -> wf s ->
  exists s',
    SkipBlankLines getline s = Some s' /\
    buf s' = buf s /\ (gpos s <= gpos s')%nat /\
    Forall is_line_end (skipped s s') /\
    ~ is_char CR (fst (peek s')) = true /\
    (~ is_char CR (fst (peek s)) = true -> gpos s' = gpos s).
Proof.
  intros Hg Hwf. unfold SkipBlankLines.
  destruct (SkipBlankLines_loop_total getline Hreader (turns s) s Hg Hwf
              ltac:(pose proof (avail_turns s); lia))
    as (s' & Hs & _).
  exists s'. split; [exact Hs |].
  apply (SkipBlankLines_loop_spec (turns s)); assumption.
Qed.

(** *** VTEC lines *)

(** X11. A P-VTEC line on a good stream gives a VTEC.  When the line after
    it carries the H-VTEC key, that line is the H-VTEC and the stream stands
    after it; when it does not, the H-VTEC is empty and the stream stands
    right after the P-VTEC line, as [getline] left it: the line that was
    looked at is still to be read.  The reader raises no [failbit] when it
    is called on a good stream at the end of the buffer. *)
Theorem TryParseVtecString_lines (s : istream) :
  quiet_at_end getline ->
  good s = true -> wf s ->
  rePVtecString (fst (getline s)) = true ->
  TryParseVtecString getline s
  = if reHVtecString (fst (getline (snd (getline s))))
    then (Some (mk_Vtec (fst (getline s))
                  (fst (getline (snd (getline s))))),
          snd (getline (snd (getline s))))
    else (Some (mk_Vtec (fst (getline s)) ""), snd (getline s)).
Proof.
  intros Hquiet Hg Hwf Hp. unfold TryParseVtecString.
  rewrite (tellg_good s Hg).
  assert (Hne : rest s <> []).
  { apply (reader_nonempty getline Hreader).
    apply rePVtecString_nonempty. exact Hp. }
  destruct (reader_progress getline Hreader s Hg Hwf Hne)
    as (Hg1 & Hw1 & _ & _ & _).
  destruct (getline s) as [line s1]. cbn [fst snd] in *.
  rewrite Hp. rewrite (tellg_good s1 Hg1).
  pose proof (reader_buf _ Hreader s1) as Hb2.
  assert (Hf2 : failbit (snd (getline s1)) = false).
  { destruct (rest s1) as [| c r] eqn:Hr1.
    - apply Hquiet; assumption.
    - rewrite (reader_line _ Hreader s1 Hg1) by (rewrite Hr1; discriminate).
      destruct (getline_lines_spec s1) as (_ & -> & _).
      apply good_bits in Hg1. tauto. }
  destruct (getline s1) as [line2 s2]. cbn [fst snd] in *.
  destruct (reHVtecString line2); [reflexivity |].
  rewrite (seekg_restore s1 s2 Hg1 Hw1 Hb2 Hf2). reflexivity.
Qed.

(** *** The end of the product *)

(** X15. On a good stream [TryParseEndOfProduct] answers true at an ETX,
    which it takes from the stream, and at the end of the buffer, where the
    second [peek] leaves the stream with [eofbit] and [failbit].  When it
    answers true the stream has its [eofbit], or stands right after an ETX
    of the buffer: nothing else ends a product. *)
Theorem TryParseEndOfProduct_true (s : istream) :
  good s = true -> wf s ->
  (forall r, rest s = ETX :: r ->
     TryParseEndOfProduct getline s
     = Some (true, set_gpos (S (gpos s)) s)) /\
  (rest s = [] ->
   TryParseEndOfProduct getline s = Some (true, set_fail (set_eof s))) /\
  (forall s', TryParseEndOfProduct getline s = Some (true, s') ->
     buf s' = buf s /\
     (eofbit s' = true \/
      exists k, gpos s' = S k /\ (gpos s <= k)%nat /\
                buf s !! k = Some ETX)).
Proof.
  intros Hg Hwf. unfold TryParseEndOfProduct.
  rewrite (tellg_good s Hg).
  destruct (rest s) as [| c r] eqn:Hr.
  - rewrite (peek_good_nil s Hg Hr). cbn [is_char].
    rewrite (peek_not_good (set_eof s)) by reflexivity.
    split; [discriminate |]. split; [reflexivity |].
    intros s' H. injection H as <-. split; [reflexivity |]. left. reflexivity.
  - rewrite (peek_good_cons s c r Hg Hr). cbn [is_char].
    destruct (Ascii.eqb_spec c ETX) as [-> | Hc].
    + rewrite (get_good_cons s ETX r Hg Hr). cbn [snd].
      split; [reflexivity |]. split; [discriminate |].
      intros s' H. injection H as <-. split; [reflexivity |]. right.
      exists (gpos s). split; [reflexivity |]. split; [lia |].
      apply (rest_lookup s ETX r Hr).
    + split; [intros r' Hr'; congruence |]. split; [discriminate |].
      rewrite (peek_good_cons s c r Hg Hr).
      assert (Hne : rest s <> []) by (rewrite Hr; discriminate).
      destruct (reader_progress getline Hreader s Hg Hwf Hne)
        as (Hg1 & Hw1 & Hb1 & _ & Hle1).
      destruct (getline s) as [line s1]. cbn [snd] in *.
      unfold SkipBlankLines.
      destruct (SkipBlankLines_loop_total getline Hreader (turns s1) s1
                  Hg1 Hw1 ltac:(pose proof (avail_turns s1); lia))
        as (s2 & Hskip & Hf2 & Hb2 & _).
      rewrite Hskip.
      destruct (SkipBlankLines_loop_spec _ _ _ Hskip Hg1 Hw1)
        as (_ & Hle2 & _).
      intros s'.
      destruct (good s2) eqn:Hg2.
      * destruct (rest s2) as [| c2 r2] eqn:Hr2.
        -- rewrite (peek_good_nil s2 Hg2 Hr2). cbn [is_char].
           rewrite (peek_not_good (set_eof s2)) by reflexivity.
           intros H. injection H as <-. split; [cbn; congruence |].
           left. reflexivity.
        -- rewrite (peek_good_cons s2 c2 r2 Hg2 Hr2). cbn [is_char].
           destruct (Ascii.eqb_spec c2 ETX) as [-> | Hc2].
           ++ rewrite (get_good_cons s2 ETX r2 Hg2 Hr2). cbn [snd].
              intros H. injection H as <-. split; [cbn; congruence |].
              right. exists (gpos s2). split; [reflexivity |].
              split; [lia |].
              replace (buf s) with (buf s2) by congruence.
              apply (rest_lookup s2 ETX r2 Hr2).
           ++ rewrite (peek_good_cons s2 c2 r2 Hg2 Hr2). discriminate.
      * rewrite (peek_not_good s2 Hg2). cbn [is_char].
        rewrite (peek_not_good (set_fail s2)).
        2:{ unfold good. cbn. apply andb_false_r. }
        intros H. injection H as <-. split; [cbn; congruence |]. left.
        cbn. unfold good in Hg2. rewrite Hf2 in Hg2.
        destruct (eofbit s2); [reflexivity | discriminate].
Qed.

End Reader.

Section Headers.

Variable getline : istream -> string * istream.

(** *** Headers *)

(** X12. A segment header [TryParseSegmentHeader] returns carries the keys:
    its UGC string is the first line of the stream and has the UGC key;
    every VTEC has a P-VTEC with the P-VTEC key and an H-VTEC that is empty
    or has the H-VTEC key; no UGC name has the date/time key; the issuance
    line is empty or has the date/time key, and when it is empty the header
    was ended by the end of the stream or by a blank line. *)
Theorem TryParseSegmentHeader_keyed (s s' : istream) (h : SegmentHeader) :
  TryParseSegmentHeader getline s = Some (Some h, s') ->
  header_keyed h /\
  ugcString_ h = fst (getline (snd (tellg s))) /\
  (good s = true -> ugcString_ h = fst (getline s)) /\
  (issuanceDateTime_ h = "" -> at_blank_or_end s').
Proof.
  intros H.
  destruct (TryParseSegmentHeader_header getline s s' h H) as (Hk & Hu & Hi).
  split; [exact Hk |]. split; [exact Hu |]. split; [| exact Hi].
  intros Hg. rewrite Hu, (tellg_good s Hg). reflexivity.
Qed.

Lemma TryParseMndHeader_loop_stop (n : nat) (s s' : istream)
    (acc r : list string) :
  TryParseMndHeader_loop getline n s acc = Some (r, s') ->
  at_blank_or_end s'.
Proof.
  revert s acc. induction n as [| n IH]; intros s acc Hloop; [discriminate |].
  cbn [TryParseMndHeader_loop] in Hloop. unfold eof in Hloop.
  destruct (eofbit s) eqn:He.
  { injection Hloop as <- <-. left. exact He. }
  destruct (peek s) as [c s0] eqn:Hpeek.
  destruct (is_char CR c) eqn:Hc.
  { injection Hloop as <- <-. right.
    apply is_char_true in Hc. subst c.
    apply peek_Some in Hpeek as Hs. destruct Hs as (-> & _ & _).
    rewrite Hpeek. reflexivity. }
  destruct (getline s0) as [line s1]. apply (IH _ _ Hloop).
Qed.

(** X13. An MND header [TryParseMndHeader] returns, when it is not empty,
    ends with a line that has the date/time key, and the stream stands at
    its end or before the blank line that ended the header. *)
Theorem TryParseMndHeader_issuance (s s' : istream) (h : list string) :
  TryParseMndHeader getline s = Some (h, s') -> h <> [] ->
  (exists back, last h = Some back /\ reDateTimeString back = true) /\
  at_blank_or_end s'.
Proof.
  unfold TryParseMndHeader. intros H Hne.
  destruct (tellg s) as [b s0].
  destruct (TryParseMndHeader_loop getline (turns s0) s0 [])
    as [[m s1] |] eqn:Hl; [| discriminate].
  apply TryParseMndHeader_loop_stop in Hl.
  destruct (last m) as [back |] eqn:Hlast.
  - destruct (reDateTimeString back) eqn:Hd; cbn [negb] in H.
    + destruct m as [| x m]; [discriminate |].
      injection H as <- <-. split; [| exact Hl]. eauto.
    + injection H as <- _. congruence.
  - destruct m as [| x m].
    + injection H as <- _. congruence.
    + apply last_None in Hlast. discriminate.
Qed.

(** *** The segments of a message *)

(** X14. Every segment of a message [Parse] returns has a header or some
    product content; its header, when it has one, carries the keys; and its
    product content does not end with an empty line and has a ["$$"] line
    only as its last line.  The validity [Parse] returns is the answer of
    the WMO header parser: on an invalid header the message has no MND
    header and no segment, the stream is as the header parser left it, and
    [Create] returns null. *)
Theorem Parse_segments_well_formed (wmo : istream -> bool * istream)
    (s s' : istream) (valid : bool) (p : TextProductMessageImpl) :
  Parse getline wmo s = Some (valid, p, s') ->
  valid = fst (wmo s) /\
  Forall well_formed_segment (segments_ p) /\
  (valid = false ->
   p = mk_TextProductMessageImpl [] [] /\ s' = snd (wmo s)) /\
  Create getline wmo s = Some (if valid then Some p else None, s').
Proof.
  intros H. unfold Create. rewrite H. unfold Parse in H.
  destruct (wmo s) as [v s0]. cbn [fst snd].
  destruct v.
  - destruct (Parse_loop getline (turns s0) 0 s0
                (mk_TextProductMessageImpl [] []))
      as [[p1 s1] |] eqn:Hl; [| discriminate].
    cbn [mbind option_bind] in H. injection H as <- <- <-.
    split; [reflexivity |]. split; [| split; [discriminate | reflexivity]].
    apply (Parse_loop_segments getline _ _ _ _ _ _ Hl). constructor.
  - injection H as <- <- <-.
    split; [reflexivity |]. split; [constructor |].
    split; [auto | reflexivity].
Qed.

End Headers.

(** *** The theorems on sample streams, with the reader of the line
    grammar *)

Lemma ParseProductContent_shape_witness :
  fst <$> ParseProductContent getline_lines sample_content_stream
  = Some ["BODY"; "MORE"; ""; ""; "$$"] /\
  terminator_last ["BODY"; "MORE"; ""; ""; "$$"].
Proof.
  split; [vm_compute; reflexivity |].
  destruct (ParseProductContent getline_lines sample_content_stream)
    as [[c s'] |] eqn:H; [| vm_compute in H; discriminate].
  destruct (ParseProductContent_shape getline_lines getline_lines_reader
              sample_content_stream s' c H) as (_ & _ & Ht).
  vm_compute in H. injection H as <- _. exact Ht.
Defined.

Lemma ParseProductContent_edges_witness :
  ParseProductContent getline_lines sample_etx_stream
  = Some ([], sample_etx_stream).
Proof.
  destruct (ParseProductContent_edges getline_lines getline_lines_reader
              sample_etx_stream eq_refl) as (_ & H & _).
  - unfold wf. vm_compute. lia.
  - apply (H (chars "TRAILING")). reflexivity.
Defined.

Lemma SkipBlankLines_skips_line_ends_witness :
  exists s',
    SkipBlankLines getline_lines sample_blank_stream = Some s' /\
    buf s' = buf sample_blank_stream /\
    (gpos sample_blank_stream <= gpos s')%nat /\
    Forall is_line_end (skipped sample_blank_stream s') /\
    ~ is_char CR (fst (peek s')) = true /\
    (~ is_char CR (fst (peek sample_blank_stream)) = true ->
     gpos s' = gpos sample_blank_stream).
Proof.
  apply (SkipBlankLines_skips_line_ends getline_lines getline_lines_reader
           sample_blank_stream eq_refl).
  unfold wf. vm_compute. lia.
Defined.

Example SkipBlankLines_sample :
  gpos <$> SkipBlankLines getline_lines sample_blank_stream = Some 8%nat.
Proof. vm_compute. reflexivity. Qed.

Lemma TryParseVtecString_lines_witness :
  TryParseVtecString getline_lines sample_vtec_stream
  = (Some (mk_Vtec S3_pvtec ""), snd (getline_lines sample_vtec_stream)) /\
  TryParseVtecString getline_lines sample_hvtec_stream
  = (Some (mk_Vtec S3_pvtec sample_hvtec),
     snd (getline_lines (snd (getline_lines sample_hvtec_stream)))).
Proof.
  split.
  - rewrite (TryParseVtecString_lines getline_lines getline_lines_reader
               sample_vtec_stream getline_lines_quiet_at_end eq_refl).
    + vm_compute. reflexivity.
    + unfold wf. vm_compute. lia.
    + vm_compute. reflexivity.
  - rewrite (TryParseVtecString_lines getline_lines getline_lines_reader
               sample_hvtec_stream getline_lines_quiet_at_end eq_refl).
    + vm_compute. reflexivity.
    + unfold wf. vm_compute. lia.
    + vm_compute. reflexivity.
Defined.

Lemma TryParseSegmentHeader_keyed_witness :
  header_keyed
    (mk_SegmentHeader "MOZ064-ILZ100-010100-" [mk_Vtec S3_pvtec ""]
       ["ST. LOUIS MO-ST. CLAIR IL-"] S3_issuance).
Proof.
  destruct (TryParseSegmentHeader getline_lines sample_header_stream)
    as [[[h |] s'] |] eqn:H; try (vm_compute in H; discriminate).
  destruct (TryParseSegmentHeader_keyed getline_lines sample_header_stream
              s' h H) as (Hk & _ & _).
  vm_compute in H. injection H as <- _. exact Hk.
Defined.

Lemma TryParseMndHeader_issuance_witness :
  exists back,
    last ["BULLETIN - IMMEDIATE BROADCAST REQUESTED";
          "SEVERE THUNDERSTORM WARNING"; S3_issuance] = Some back /\
    reDateTimeString back = true.
Proof.
  destruct (TryParseMndHeader getline_lines sample_mnd_stream)
    as [[h s'] |] eqn:H; [| vm_compute in H; discriminate].
  assert (Hh : h = ["BULLETIN - IMMEDIATE BROADCAST REQUESTED";
                    "SEVERE THUNDERSTORM WARNING"; S3_issuance]).
  { vm_compute in H. injection H as <- _. reflexivity. }
  destruct (TryParseMndHeader_issuance getline_lines sample_mnd_stream s' h H)
    as [Hb _].
  - rewrite Hh. discriminate.
  - rewrite <- Hh. exact Hb.
Defined.

Lemma Parse_segments_well_formed_witness :
  exists p s',
    Parse getline_lines (WmoHeader_placeholder getline_lines)
      (open (chars S3_zone)) = Some (true, p, s') /\
    length (segments_ p) = 1%nat /\
    Forall well_formed_segment (segments_ p).
Proof.
  destruct (Parse getline_lines (WmoHeader_placeholder getline_lines)
              (open (chars S3_zone)))
    as [[[valid p] s'] |] eqn:H; [| vm_compute in H; discriminate].
  destruct (Parse_segments_well_formed _ _ _ _ _ _ H) as (Hv & Hseg & _ & _).
  exists p, s'. vm_compute in Hv. subst valid.
  split; [reflexivity |]. split; [| exact Hseg].
  vm_compute in H. injection H as <- _. reflexivity.
Defined.

Lemma TryParseEndOfProduct_true_witness :
  TryParseEndOfProduct getline_lines sample_etx_stream
  = Some (true, set_gpos 1 sample_etx_stream) /\
  exists s', TryParseEndOfProduct getline_lines sample_identifier_stream
             = Some (true, s')
             /\ gpos s' = 12%nat.
Proof.
  split.
  - destruct (TryParseEndOfProduct_true getline_lines getline_lines_reader
                sample_etx_stream eq_refl) as (H & _ & _).
    + unfold wf. vm_compute. lia.
    + apply (H (chars "TRAILING")). reflexivity.
  - eexists. split; vm_compute; reflexivity.
Defined.

End AwipsExtraFacts.

(** ** Further facts about the radar product manager *)

Module ManagerExtraFacts.
Import Manager ManagerFacts ManagerExtra.

(** *** Whole seconds *)

Lemma time_point_cast_seconds_le (ticks_per_ms t : Z) :
  0 < ticks_per_ms -> 0 <= t ->
  time_point_cast_seconds ticks_per_ms t <= t.
Proof.
  intros Hp Ht. unfold time_point_cast_seconds, ticks_per_second.
  rewrite Z.mul_comm. apply Z.mul_quot_le; lia.
Qed.

Lemma time_point_cast_seconds_idem (ticks_per_ms t : Z) :
  0 < ticks_per_ms ->
  time_point_cast_seconds ticks_per_ms
    (time_point_cast_seconds ticks_per_ms t)
  = time_point_cast_seconds ticks_per_ms t.
Proof.
  intros Hp. unfold time_point_cast_seconds, ticks_per_second.
  rewrite Z.quot_mul by lia. reflexivity.
Qed.

Lemma time_point_cast_seconds_mono (ticks_per_ms a b : Z) :
  0 < ticks_per_ms -> a <= b ->
  time_point_cast_seconds ticks_per_ms a
  <= time_point_cast_seconds ticks_per_ms b.
Proof.
  intros Hp Hab. unfold time_point_cast_seconds, ticks_per_second.
  apply Z.mul_le_mono_nonneg_r; [lia |].
  apply Z.quot_le_mono; lia.
Qed.

(** In a cache keyed by whole seconds, the entry at the second of a time is
    the entry of greatest key at or below the time. *)
Lemma whole_seconds_greatest_le (ticks_per_ms t : Z)
    (cache : RadarProductRecordMap) (r : RadarProductRecord) :
  0 < ticks_per_ms -> 0 <= t ->
  whole_seconds ticks_per_ms cache ->
  cache !! time_point_cast_seconds ticks_per_ms t = Some r ->
  greatest_le cache t (time_point_cast_seconds ticks_per_ms t) r.
Proof.
  intros Hp Ht Hws Hr. split; [exact Hr |].
  split; [apply time_point_cast_seconds_le; assumption |].
  intros k' r' Hk' Hle. rewrite <- (Hws k' r' Hk').
  apply time_point_cast_seconds_mono; assumption.
Qed.

Lemma whole_seconds_insert (ticks_per_ms t : Z)
    (cache : RadarProductRecordMap) (r : RadarProductRecord) :
  0 < ticks_per_ms -> whole_seconds ticks_per_ms cache ->
  whole_seconds ticks_per_ms
    (<[time_point_cast_seconds ticks_per_ms t := r]> cache).
Proof.
  intros Hp Hws k r' Hk.
  destruct (decide (k = time_point_cast_seconds ticks_per_ms t)) as [-> | Hne].
  - apply time_point_cast_seconds_idem. exact Hp.
  - rewrite lookup_insert_ne in Hk by congruence. apply (Hws k r' Hk).
Qed.

Lemma whole_seconds_empty (ticks_per_ms : Z) :
  whole_seconds ticks_per_ms ∅.
Proof. intros k r Hk. rewrite lookup_empty in Hk. discriminate. Qed.

(** *** What a store leaves in the caches *)

(** The record [StoreRadarProductRecord] returns is in the cache of the
    record, at the second of its time. *)
Lemma StoreRadarProductRecord_cached (ticks_per_ms : Z)
    (r : RadarProductRecord) (m : RadarProductManagerImpl) :
  cache_of (snd (StoreRadarProductRecord ticks_per_ms r m)) r
    !! time_point_cast_seconds ticks_per_ms (time r)
  = Some (fst (StoreRadarProductRecord ticks_per_ms r m)).
Proof.
  destruct (StoreRadarProductRecord_cases ticks_per_ms r m) as [Hold Hnew].
  destruct (cache_of m r !! time_point_cast_seconds ticks_per_ms (time r))
    as [old |] eqn:Hk.
  - rewrite (Hold old eq_refl). exact Hk.
  - destruct (Hnew eq_refl) as (-> & -> & _). apply lookup_insert_eq.
Qed.

(** After a store of a Level-3 record its product has a map, the cache of
    the record. *)
Lemma StoreRadarProductRecord_level3 (ticks_per_ms : Z)
    (r : RadarProductRecord) (m : RadarProductManagerImpl) :
  radar_product_group r = Level3 ->
  level3ProductRecordsMap_ (snd (StoreRadarProductRecord ticks_per_ms r m))
    !! radar_product r
  = Some (cache_of (snd (StoreRadarProductRecord ticks_per_ms r m)) r).
Proof.
  intros Hg. unfold cache_of. rewrite Hg.
  unfold StoreRadarProductRecord. rewrite Hg. cbn [group_eqb].
  unfold map_index.
  destruct (level3ProductRecordsMap_ m !! radar_product r) as [pm |] eqn:Hp.
  - destruct (pm !! time_point_cast_seconds ticks_per_ms (time r)).
    + cbn. rewrite Hp. reflexivity.
    + cbn. rewrite lookup_insert_eq. reflexivity.
  - rewrite lookup_empty. cbn. rewrite lookup_insert_eq. reflexivity.
Qed.

(** The cache of the record after a store: the cache before, with the record
    entered when its second was free. *)
Lemma StoreRadarProductRecord_cache (ticks_per_ms : Z)
    (r : RadarProductRecord) (m : RadarProductManagerImpl) :
  cache_of (snd (StoreRadarProductRecord ticks_per_ms r m)) r
  = match cache_of m r !! time_point_cast_seconds ticks_per_ms (time r) with
    | Some _ => cache_of m r
    | None => <[time_point_cast_seconds ticks_per_ms (time r) := r]>
                (cache_of m r)
    end.
Proof.
  destruct (StoreRadarProductRecord_cases ticks_per_ms r m) as [Hold Hnew].
  destruct (cache_of m r !! time_point_cast_seconds ticks_per_ms (time r))
    as [old |] eqn:Hk.
  - rewrite (Hold old eq_refl). reflexivity.
  - destruct (Hnew eq_refl) as (_ & -> & _). reflexivity.
Qed.

Lemma StoreRadarProductRecord_whole_seconds (ticks_per_ms : Z)
    (r : RadarProductRecord) (m : RadarProductManagerImpl) :
  0 < ticks_per_ms -> whole_seconds ticks_per_ms (cache_of m r) ->
  whole_seconds ticks_per_ms
    (cache_of (snd (StoreRadarProductRecord ticks_per_ms r m)) r).
Proof.
  intros Hp Hws. rewrite StoreRadarProductRecord_cache.
  destruct (cache_of m r !! time_point_cast_seconds ticks_per_ms (time r));
    [exact Hws | apply whole_seconds_insert; assumption].
Qed.

(** The other caches after a store. *)
Lemma StoreRadarProductRecord_others (ticks_per_ms : Z)
    (r : RadarProductRecord) (m : RadarProductManagerImpl) :
  (radar_product_group r = Level3 ->
   level2ProductRecords_ (snd (StoreRadarProductRecord ticks_per_ms r m))
   = level2ProductRecords_ m) /\
  (radar_product_group r = Level2 ->
   level3ProductRecordsMap_ (snd (StoreRadarProductRecord ticks_per_ms r m))
   = level3ProductRecordsMap_ m) /\
  (forall product,
     radar_product_group r = Level2 \/ product <> radar_product r ->
     level3ProductRecordsMap_
       (snd (StoreRadarProductRecord ticks_per_ms r m)) !! product
     = level3ProductRecordsMap_ m !! product).
Proof.
  unfold StoreRadarProductRecord.
  destruct (radar_product_group r) eqn:Hg; cbn [group_eqb].
  - destruct (level2ProductRecords_ m
                !! time_point_cast_seconds ticks_per_ms (time r));
      cbn; repeat split; auto; discriminate.
  - unfold map_index.
    destruct (level3ProductRecordsMap_ m !! radar_product r) as [pm |] eqn:Hp.
    + destruct (pm !! time_point_cast_seconds ticks_per_ms (time r)); cbn.
      * repeat split; auto.
      * split; [reflexivity |]. split; [discriminate |].
        intros product [? | Hne]; [discriminate |].
        rewrite lookup_insert_ne by congruence. reflexivity.
    + rewrite lookup_empty. cbn.
      split; [reflexivity |]. split; [discriminate |].
      intros product [? | Hne]; [discriminate |].
      rewrite !lookup_insert_ne by congruence. reflexivity.
Qed.

(** X16. A Level-2 record that was stored is found again at its own time.
    With the cache keyed by whole seconds and a time after the epoch,
    [GetLevel2ProductRecord] at the time of the record returns the record
    [StoreRadarProductRecord] returned for it (the record itself, or the one
    cached for the same second before), unless the Level-2 file of that
    record starts after the time, when it returns null. *)
Theorem Store_then_GetLevel2ProductRecord (ticks_per_ms : Z)
    (r : RadarProductRecord) (m : RadarProductManagerImpl) :
  0 < ticks_per_ms ->
  radar_product_group r = Level2 ->
  0 < time r ->
  whole_seconds ticks_per_ms (level2ProductRecords_ m) ->
  GetLevel2ProductRecord (snd (StoreRadarProductRecord ticks_per_ms r m))
    (time r)
  = if time r
       <? start_time
            (level2_file (fst (StoreRadarProductRecord ticks_per_ms r m)))
    then None
    else Some (fst (StoreRadarProductRecord ticks_per_ms r m)).
Proof.
  intros Hp Hg Ht Hws.
  pose proof (StoreRadarProductRecord_cached ticks_per_ms r m) as Hc.
  pose proof (StoreRadarProductRecord_whole_seconds ticks_per_ms r m Hp)
    as Hws'.
  unfold cache_of in Hc, Hws'. rewrite Hg in Hc, Hws'.
  specialize (Hws' Hws).
  unfold GetLevel2ProductRecord.
  destruct (Z.eqb_spec (time r) 0) as [? | _]; [lia |].
  rewrite andb_false_r.
  rewrite (GetBoundedElementValue_greatest_le _ (time r)
             (time_point_cast_seconds ticks_per_ms (time r))
             (fst (StoreRadarProductRecord ticks_per_ms r m)));
    [reflexivity |].
  apply whole_seconds_greatest_le; auto. lia.
Qed.

Lemma Store_then_GetLevel2ProductRecord_witness :
  GetLevel2ProductRecord
    (snd (StoreRadarProductRecord sample_ticks_per_ms
            (sample_record 1000000700000000 3) no_records))
    1000000700000000
  = Some (sample_record 1000000700000000 3).
Proof.
  etransitivity.
  - apply (Store_then_GetLevel2ProductRecord sample_ticks_per_ms
             (sample_record 1000000700000000 3) no_records).
    + reflexivity.
    + reflexivity.
    + reflexivity.
    + apply whole_seconds_empty.
  - vm_compute. reflexivity.
Defined.

(** *** Lookup of a Level-3 record *)

Lemma GetLevel3ProductRecord_cases (m : RadarProductManagerImpl)
    (product : string) (t : Z) :
  (level3ProductRecordsMap_ m !! product = None ->
   GetLevel3ProductRecord m product t = Some None) /\
  (forall productMap,
     level3ProductRecordsMap_ m !! product = Some productMap ->
     (t = 0 -> productMap <> ∅ ->
      exists k r, greatest productMap k r /\
                  GetLevel3ProductRecord m product t = Some (Some r)) /\
     (t <> 0 ->
      (forall k r, greatest_le productMap t k r ->
                   GetLevel3ProductRecord m product t = Some (Some r)) /\
      ((forall k r, productMap !! k = Some r -> t < k) ->
       GetLevel3ProductRecord m product t = Some None))).
Proof.
  unfold GetLevel3ProductRecord. split.
  - intros ->. reflexivity.
  - intros productMap ->. split.
    + intros -> Hne. cbn.
      destruct (rbegin_greatest productMap Hne) as (k & r & Hgr & ->).
      eauto.
    + intros Ht. destruct (Z.eqb_spec t 0) as [? | _]; [contradiction |].
      split.
      * intros k r Hgr.
        rewrite (GetBoundedElementValue_greatest_le _ _ _ _ Hgr). reflexivity.
      * intros Hall. rewrite (GetBoundedElementValue_None _ _ Hall).
        reflexivity.
Qed.

(** X17. [GetLevel3ProductRecord] returns null for a product that has no
    map.  For a product with a map that is not empty: at the default time
    point it returns the record of greatest key; at any other time the
    record of greatest key at or below the time, and null when every key is
    after the time.  The start time of the file is not looked at, unlike for
    Level 2. *)
Theorem GetLevel3ProductRecord_spec (m : RadarProductManagerImpl)
    (product : string) (t : Z) :
  (level3ProductRecordsMap_ m !! product = None ->
   GetLevel3ProductRecord m product t = Some None) /\
  (forall productMap,
     level3ProductRecordsMap_ m !! product = Some productMap ->
     (t = 0 -> productMap <> ∅ ->
      exists k r, greatest productMap k r /\
                  GetLevel3ProductRecord m product t = Some (Some r)) /\
     (t <> 0 ->
      (forall k r, greatest_le productMap t k r ->
                   GetLevel3ProductRecord m product t = Some (Some r)) /\
      ((forall k r, productMap !! k = Some r -> t < k) ->
       GetLevel3ProductRecord m product t = Some None))).
Proof. exact (GetLevel3ProductRecord_cases m product t). Qed.

(** The lookups on the sample caches: the latest record, the record at or
    below a time, no record before the first, no record for another
    product. *)
Example GetLevel3ProductRecord_samples :
  GetLevel3ProductRecord sample_level3_caches "N0B" 0
  = Some (Some (sample_level3_record (1300 * 1000000000 + 5) 2)) /\
  GetLevel3ProductRecord sample_level3_caches "N0B" (1200 * 1000000000)
  = Some (Some (sample_level3_record (1000 * 1000000000) 1)) /\
  GetLevel3ProductRecord sample_level3_caches "N0B" (999 * 1000000000)
  = Some None /\
  GetLevel3ProductRecord sample_level3_caches "N0Q" 0 = Some None.
Proof. repeat split; vm_compute; reflexivity. Qed.

(** X18. A Level-3 record that was stored is found again: after
    [StoreRadarProductRecord], with the map of the product keyed by whole
    seconds and a time after the epoch, [GetLevel3ProductRecord] for the
    product of the record at its time returns the record the store
    returned; and the lookup for that product has a defined result at every
    time, the default time point too, for the map of the product is not
    empty. *)
Theorem Store_then_GetLevel3ProductRecord (ticks_per_ms : Z)
    (r : RadarProductRecord) (m : RadarProductManagerImpl) :
  0 < ticks_per_ms ->
  radar_product_group r = Level3 ->
  0 < time r ->
  whole_seconds ticks_per_ms (cache_of m r) ->
  GetLevel3ProductRecord (snd (StoreRadarProductRecord ticks_per_ms r m))
    (radar_product r) (time r)
  = Some (Some (fst (StoreRadarProductRecord ticks_per_ms r m))) /\
  forall t, exists record,
    GetLevel3ProductRecord (snd (StoreRadarProductRecord ticks_per_ms r m))
      (radar_product r) t = Some record.
Proof.
  intros Hp Hg Ht Hws.
  pose proof (StoreRadarProductRecord_cached ticks_per_ms r m) as Hc.
  pose proof (StoreRadarProductRecord_whole_seconds ticks_per_ms r m Hp Hws)
    as Hws'.
  pose proof (StoreRadarProductRecord_level3 ticks_per_ms r m Hg) as Hl3.
  split.
  - destruct (GetLevel3ProductRecord_cases
                (snd (StoreRadarProductRecord ticks_per_ms r m))
                (radar_product r) (time r)) as [_ H].
    destruct (H _ Hl3) as [_ H']. destruct H' as [H' _]; [lia |].
    apply (H' (time_point_cast_seconds ticks_per_ms (time r))).
    apply whole_seconds_greatest_le; auto. lia.
  - intros t. unfold GetLevel3ProductRecord. rewrite Hl3.
    destruct (t =? 0); [| eauto].
    destruct (rbegin_greatest
                (cache_of (snd (StoreRadarProductRecord ticks_per_ms r m)) r))
      as (k & r' & _ & ->); [| eauto].
    intros Hempty. rewrite Hempty, lookup_empty in Hc. discriminate.
Qed.

Lemma Store_then_GetLevel3ProductRecord_witness :
  GetLevel3ProductRecord
    (snd (StoreRadarProductRecord sample_ticks_per_ms
            (sample_level3_record 1000000700000000 4) no_records))
    "N0B" 1000000700000000
  = Some (Some (sample_level3_record 1000000700000000 4)).
Proof.
  destruct (Store_then_GetLevel3ProductRecord sample_ticks_per_ms
              (sample_level3_record 1000000700000000 4) no_records)
    as [H _].
  - reflexivity.
  - reflexivity.
  - reflexivity.
  - apply whole_seconds_empty.
  - exact H.
Defined.



(** *** Refresh with the flag off *)

(** The body of a refresh that runs with refresh off leaves the flag off and
    the timer as it is. *)
Lemma RefreshData_body_off (ticks_per_ms : Z) (provider : Provider)
    (pm : ProviderManager) :
  refreshEnabled_ pm = false ->
  fst (RefreshData_body ticks_per_ms provider pm) = pm.
Proof.
  intros Hoff. unfold RefreshData_body, RefreshData_listing.
  destruct (Refresh provider) as [newObjects totalObjects].
  destruct (0 <? newObjects)%nat; rewrite ?Hoff; cbn; rewrite ?Hoff;
    reflexivity.
Qed.

(** What the first part of the body leaves of the manager: the manager as
    it was, but for the flag. *)
Lemma RefreshData_listing_manager (ticks_per_ms : Z) (provider : Provider)
    (pm : ProviderManager) :
  fst (fst (RefreshData_listing ticks_per_ms provider pm))
  = set_refresh pm
      (refreshEnabled_
         (fst (fst (RefreshData_listing ticks_per_ms provider pm))))
      (refreshTimer_ pm).
Proof.
  unfold RefreshData_listing.
  destruct (Refresh provider) as [newObjects totalObjects].
  destruct (0 <? newObjects)%nat;
    [| destruct (refreshEnabled_ pm && (totalObjects =? 0)%nat)];
    cbn; destruct pm; reflexivity.
Qed.

(** A body whose test of the flag (line 505) came before a call that turns
    the flag off, and whose block under the mutex came after it: the timer
    is armed with the flag off; the refresh its expiry starts leaves the
    timer idle. *)
Lemma RefreshData_arm_after_off (ticks_per_ms : Z) (next : Provider)
    (interval : Z) (pm : ProviderManager) :
  refreshEnabled_ pm = false ->
  refreshEnabled_ (RefreshData_arm interval pm) = false /\
  refreshTimer_ (RefreshData_arm interval pm) = Some interval /\
  fst (RefreshData_body ticks_per_ms next
         (fst (timer_expired (RefreshData_arm interval pm))))
  = set_refresh pm false None.
Proof.
  intros Hoff. unfold RefreshData_arm. cbn. rewrite Hoff.
  split; [reflexivity |]. split; [reflexivity |].
  unfold timer_expired, RefreshData. cbn.
  apply RefreshData_body_off. reflexivity.
Qed.

(** X20. Refresh stops once the flag is off.  A body that runs with the
    flag off neither sets the flag nor arms the timer, and so does a body
    that runs after [Disable].  [EnableRefresh] with [false] does not
    cancel the timer; when the timer expires after it, a last refresh runs,
    and its body leaves the flag off and the timer idle whatever the
    provider answers.  The flag is tested outside the mutex of the timer:
    a body that has tested the flag when [Disable] is called arms the timer
    after it, with the flag off, and the refresh the expiry of that timer
    starts is the last one. *)
Theorem refresh_stops_when_off (ticks_per_ms : Z) (provider next : Provider)
    (pm : ProviderManager) :
  (refreshEnabled_ pm = false ->
   fst (RefreshData_body ticks_per_ms provider pm) = pm) /\
  fst (RefreshData_body ticks_per_ms provider (Disable pm)) = Disable pm /\
  refreshTimer_ (fst (EnableRefresh pm false)) = refreshTimer_ pm /\
  refreshEnabled_
    (fst (RefreshData_body ticks_per_ms provider
            (fst (timer_expired (fst (EnableRefresh pm false)))))) = false /\
  refreshTimer_
    (fst (RefreshData_body ticks_per_ms provider
            (fst (timer_expired (fst (EnableRefresh pm false)))))) = None /\
  (forall pm1 interval signals,
     RefreshData_listing ticks_per_ms provider pm = (pm1, interval, signals) ->
     refreshEnabled_ pm1 = true ->
     RefreshData_body ticks_per_ms provider pm
     = (RefreshData_arm interval pm1, signals) /\
     refreshEnabled_ (RefreshData_arm interval (Disable pm1)) = false /\
     refreshTimer_ (RefreshData_arm interval (Disable pm1)) = Some interval /\
     fst (RefreshData_body ticks_per_ms next
            (fst (timer_expired (RefreshData_arm interval (Disable pm1)))))
     = Disable pm).
Proof.
  assert (Hoff : refreshEnabled_ (fst (EnableRefresh pm false)) = false).
  { unfold EnableRefresh. destruct (refreshEnabled_ pm) eqn:He; cbn;
      [reflexivity | exact He]. }
  split; [apply RefreshData_body_off |].
  split; [apply RefreshData_body_off; reflexivity |].
  split; [unfold EnableRefresh; destruct (refreshEnabled_ pm); reflexivity |].
  split; [rewrite RefreshData_body_off; [exact Hoff | exact Hoff] |].
  split; [rewrite RefreshData_body_off; [reflexivity | exact Hoff] |].
  intros pm1 interval signals Hl Hon.
  split; [unfold RefreshData_body; rewrite Hl, Hon; reflexivity |].
  destruct (RefreshData_arm_after_off ticks_per_ms next interval
              (Disable pm1) eq_refl) as (H1 & H2 & H3).
  split; [exact H1 |]. split; [exact H2 |]. rewrite H3.
  pose proof (RefreshData_listing_manager ticks_per_ms provider pm) as Hm.
  rewrite Hl in Hm. cbn [fst] in Hm. rewrite Hm. reflexivity.
Qed.

(** With the sample provider and two new objects, a body that has tested
    the flag before [Disable] leaves the timer armed at 290 s with the flag
    off. *)
Lemma refresh_stops_when_off_witness :
  RefreshData_listing 1000000 (sample_provider 2 5) sample_manager
  = (sample_manager, 290 * 1000,
     [NewDataAvailable Level2 "???" (1735689600 * 1000000000)]) /\
  refreshEnabled_ (RefreshData_arm (290 * 1000) (Disable sample_manager))
  = false /\
  refreshTimer_ (RefreshData_arm (290 * 1000) (Disable sample_manager))
  = Some (290 * 1000) /\
  fst (RefreshData_body 1000000 (sample_provider 2 5)
         (fst (timer_expired
                 (RefreshData_arm (290 * 1000) (Disable sample_manager)))))
  = Disable sample_manager.
Proof.
  split; [vm_compute; reflexivity |].
  destruct (refresh_stops_when_off 1000000 (sample_provider 2 5)
              (sample_provider 2 5) sample_manager)
    as (_ & _ & _ & _ & _ & H).
  destruct (H sample_manager (290 * 1000)
              [NewDataAvailable Level2 "???" (1735689600 * 1000000000)])
    as (_ & H1 & H2 & H3); [vm_compute; reflexivity | reflexivity |].
  split; [exact H1 |]. split; [exact H2 | exact H3].
Defined.

(** X21. [EnableRefresh] sets the flag to what is asked and starts a refresh
    exactly when it turns the flag on; a second call with the same value
    changes nothing and starts nothing.  After the flag is turned on and
    then off, the flag is off, and the timer depends on when the body of
    the refresh that was started runs: a body that runs after the second
    call ends without arming the timer; a body that ran before it, or that
    had tested the flag before it, leaves the timer armed with the flag
    off. *)
Theorem EnableRefresh_twice (ticks_per_ms : Z) (provider : Provider)
    (pm : ProviderManager) (enabled : bool) :
  refreshEnabled_ (fst (EnableRefresh pm enabled)) = enabled /\
  (snd (EnableRefresh pm enabled)
   = if negb (refreshEnabled_ pm) && enabled then [AsyncRefresh] else []) /\
  EnableRefresh (fst (EnableRefresh pm enabled)) enabled
  = (fst (EnableRefresh pm enabled), []) /\
  (refreshEnabled_ pm = false ->
   EnableRefresh pm true = (set_refresh pm true None, [AsyncRefresh]) /\
   fst (RefreshData_body ticks_per_ms provider
          (fst (EnableRefresh (fst (EnableRefresh pm true)) false)))
   = set_refresh pm false None /\
   (forall pm1 interval signals,
      RefreshData_listing ticks_per_ms provider (fst (EnableRefresh pm true))
      = (pm1, interval, signals) ->
      refreshEnabled_ pm1 = true ->
      fst (EnableRefresh
             (fst (RefreshData_body ticks_per_ms provider
                     (fst (EnableRefresh pm true)))) false)
      = set_refresh pm false (Some interval) /\
      RefreshData_arm interval (fst (EnableRefresh pm1 false))
      = set_refresh pm false (Some interval))).
Proof.
  split; [| split; [| split]].
  - unfold EnableRefresh.
    destruct (refreshEnabled_ pm) eqn:He, enabled; cbn; auto.
  - unfold EnableRefresh.
    destruct (refreshEnabled_ pm) eqn:He, enabled; reflexivity.
  - unfold EnableRefresh at 2.
    destruct (refreshEnabled_ pm) eqn:He, enabled; cbn; unfold EnableRefresh;
      cbn; rewrite ?He; reflexivity.
  - intros He.
    assert (Hon : EnableRefresh pm true
                  = (set_refresh pm true None, [AsyncRefresh])).
    { unfold EnableRefresh, RefreshData. rewrite He. reflexivity. }
    split; [exact Hon |]. rewrite Hon. cbn [fst]. split.
    + rewrite RefreshData_body_off; reflexivity.
    + intros pm1 interval signals Hl Hpm1.
      pose proof (RefreshData_listing_manager ticks_per_ms provider
                    (set_refresh pm true None)) as Hm.
      rewrite Hl in Hm. cbn [fst] in Hm. rewrite Hpm1 in Hm.
      cbn in Hm. subst pm1.
      unfold RefreshData_body. rewrite Hl. cbn. split; reflexivity.
Qed.

(** With the sample provider and two new objects: the body that ran before
    the flag was turned off leaves the timer armed at 290 s. *)
Lemma EnableRefresh_twice_witness :
  fst (EnableRefresh
         (fst (RefreshData_body 1000000 (sample_provider 2 5)
                 (fst (EnableRefresh (Disable sample_manager) true)))) false)
  = set_refresh sample_manager false (Some (290 * 1000)) /\
  fst (RefreshData_body 1000000 (sample_provider 2 5)
         (fst (EnableRefresh
                 (fst (EnableRefresh (Disable sample_manager) true)) false)))
  = Disable sample_manager.
Proof.
  destruct (EnableRefresh_twice 1000000 (sample_provider 2 5)
              (Disable sample_manager) true) as (_ & _ & _ & H).
  destruct (H eq_refl) as (_ & H1 & H2).
  split; [| exact H1].
  apply (H2 (set_refresh sample_manager true None) (290 * 1000)
           [NewDataAvailable Level2 "???" (1735689600 * 1000000000)]);
    [vm_compute; reflexivity | reflexivity].
Defined.

(** *** The provider managers *)

Lemma EnableRefresh_names (pm : ProviderManager) (enabled : bool) :
  radarId_ (fst (EnableRefresh pm enabled)) = radarId_ pm /\
  group_ (fst (EnableRefresh pm enabled)) = group_ pm /\
  product_ (fst (EnableRefresh pm enabled)) = product_ pm.
Proof.
  unfold EnableRefresh.
  destruct (negb (eqb (refreshEnabled_ pm) enabled)); [| auto].
  destruct enabled; cbn; auto.
Qed.

Lemma GetLevel3ProviderManager_cases (p : ProviderManagers)
    (product : string) :
  (forall pm,
     level3ProviderManagerMap_ p !! product = Some pm ->
     GetLevel3ProviderManager p product = (pm, p)) /\
  (level3ProviderManagerMap_ p !! product = None ->
   GetLevel3ProviderManager p product
   = (ProviderManager_new (impl_radarId_ p) Level3 product,
      mk_ProviderManagers (impl_radarId_ p) (level2ProviderManager_ p)
        (<[product := ProviderManager_new (impl_radarId_ p) Level3 product]>
           (level3ProviderManagerMap_ p)))).
Proof.
  unfold GetLevel3ProviderManager. split.
  - intros pm H. rewrite H.
    rewrite bool_decide_true by eauto. cbn. rewrite H. destruct p; reflexivity.
  - intros H. rewrite H.
    rewrite bool_decide_false by (intros [? ?]; discriminate).
    cbn. rewrite lookup_insert_eq. reflexivity.
Qed.

(** X22. [RadarProductManager::EnableRefresh] for a Level-3 product makes
    the provider manager of the product when there is none, with refresh
    off.  When the provider does not list the product, nothing else
    happens: no refresh is started and the flag of the manager is not
    touched.  When it lists the product, the flag is set as asked, and a
    refresh is started exactly when that turns the flag on.  The Level-2
    manager and the managers of the other products are not touched, and
    every manager of the map stays the one of the product it is entered
    for. *)
Theorem RadarProductManager_EnableRefresh_level3
    (availableProducts : list string) (p : ProviderManagers)
    (product : string) (enabled : bool) :
  keyed_by_product p ->
  let before :=
    default (ProviderManager_new (impl_radarId_ p) Level3 product)
      (level3ProviderManagerMap_ p !! product) in
  let after :=
    fst (RadarProductManager_EnableRefresh availableProducts p Level3 product
           enabled) in
  let effects :=
    snd (RadarProductManager_EnableRefresh availableProducts p Level3 product
           enabled) in
  keyed_by_product after /\
  level2ProviderManager_ after = level2ProviderManager_ p /\
  (forall other, other <> product ->
     level3ProviderManagerMap_ after !! other
     = level3ProviderManagerMap_ p !! other) /\
  (level3ProviderManagerMap_ p !! product = None ->
   refreshEnabled_ before = false) /\
  (product ∉ availableProducts ->
   level3ProviderManagerMap_ after !! product = Some before /\
   effects = []) /\
  (product ∈ availableProducts ->
   level3ProviderManagerMap_ after !! product
   = Some (fst (EnableRefresh before enabled)) /\
   effects
   = if negb (refreshEnabled_ before) && enabled then [AsyncRefresh]
     else []).
Proof.
  intros Hkeyed before after effects.
  assert (Hget : exists p1,
             GetLevel3ProviderManager p product = (before, p1) /\
             impl_radarId_ p1 = impl_radarId_ p /\
             level2ProviderManager_ p1 = level2ProviderManager_ p /\
             level3ProviderManagerMap_ p1 !! product = Some before /\
             (forall other, other <> product ->
                level3ProviderManagerMap_ p1 !! other
                = level3ProviderManagerMap_ p !! other) /\
             keyed_by_product p1).
  { destruct (GetLevel3ProviderManager_cases p product) as [Hsome Hnone].
    subst before.
    destruct (level3ProviderManagerMap_ p !! product) as [pm |] eqn:Hp.
    - exists p. rewrite (Hsome pm eq_refl). cbn. repeat split; auto.
      + apply (Hkeyed _ _ H).
      + apply (Hkeyed _ _ H).
      + apply (Hkeyed _ _ H).
    - eexists. rewrite (Hnone eq_refl). split; [reflexivity |]. cbn.
      split; [reflexivity |]. split; [reflexivity |].
      split; [apply lookup_insert_eq |].
      split; [intros other Hne; apply lookup_insert_ne; congruence |].
      intros k pm Hk. cbn in Hk.
      destruct (decide (k = product)) as [-> | Hne].
      + rewrite lookup_insert_eq in Hk. injection Hk as <-. cbn. auto.
      + rewrite lookup_insert_ne in Hk by congruence. apply (Hkeyed _ _ Hk). }
  destruct Hget as (p1 & Hget & Hid & Hl2 & Hprod & Hothers & Hk1).
  assert (Hbefore : radarId_ before = impl_radarId_ p /\
                    group_ before = Level3 /\ product_ before = product).
  { rewrite <- Hid. apply (Hk1 _ _ Hprod). }
  subst after effects. unfold RadarProductManager_EnableRefresh.
  cbn [group_eqb]. rewrite Hget.
  split; [| split; [| split; [| split; [| split]]]].
  - destruct (bool_decide (product ∈ availableProducts)).
    + pose proof (EnableRefresh_names before enabled) as (Hn1 & Hn2 & Hn3).
      destruct (EnableRefresh before enabled) as [pm eff]. cbn in *.
      intros k pm' Hk. cbn in Hk.
      destruct (decide (k = product)) as [-> | Hne].
      * rewrite lookup_insert_eq in Hk. injection Hk as <-. cbn.
        rewrite Hn1, Hn2, Hn3, Hid. exact Hbefore.
      * rewrite lookup_insert_ne in Hk by congruence. cbn.
        apply (Hk1 _ _ Hk).
    + exact Hk1.
  - destruct (bool_decide (product ∈ availableProducts)); [| exact Hl2].
    destruct (EnableRefresh before enabled) as [pm eff]. exact Hl2.
  - intros other Hne.
    destruct (bool_decide (product ∈ availableProducts));
      [| apply Hothers; exact Hne].
    destruct (EnableRefresh before enabled) as [pm eff]. cbn.
    rewrite lookup_insert_ne by congruence. apply Hothers. exact Hne.
  - intros Hnone. subst before. rewrite Hnone. reflexivity.
  - intros Hnot. rewrite bool_decide_false by exact Hnot.
    split; [exact Hprod | reflexivity].
  - intros Hin. rewrite bool_decide_true by exact Hin.
    unfold EnableRefresh.
    destruct (refreshEnabled_ before) eqn:He, enabled; cbn;
      rewrite lookup_insert_eq; split; reflexivity.
Qed.

Lemma RadarProductManager_EnableRefresh_level3_witness :
  snd (RadarProductManager_EnableRefresh ["N0B"; "N0Q"]
         (ProviderManagers_new "KLSX") Level3 "N0B" true) = [AsyncRefresh] /\
  snd (RadarProductManager_EnableRefresh ["N0Q"]
         (ProviderManagers_new "KLSX") Level3 "N0B" true) = [].
Proof.
  assert (Hk : keyed_by_product (ProviderManagers_new "KLSX")).
  { intros product pm H. cbn in H. rewrite lookup_empty in H. discriminate. }
  split.
  - destruct (RadarProductManager_EnableRefresh_level3 ["N0B"; "N0Q"]
                (ProviderManagers_new "KLSX") "N0B" true Hk)
      as (_ & _ & _ & _ & _ & H).
    destruct H as [_ H]; [repeat constructor |]. exact H.
  - destruct (RadarProductManager_EnableRefresh_level3 ["N0Q"]
                (ProviderManagers_new "KLSX") "N0B" true Hk)
      as (_ & _ & _ & _ & H & _).
    destruct H as [_ H]; [| exact H].
    intros Hin. apply list_elem_of_singleton in Hin. discriminate.
Defined.

(** *** The instances *)

(** X23. [Instance] hands out one manager for a radar site as long as the
    manager is alive: the instance it returns is the one of the registry for
    the site afterwards, and a later call for the site, with the instance
    still alive, returns the same instance, emits nothing and leaves the
    registry as it is.  A manager that is made is a new object, not an
    instance of another entry, and [RadarProductManagerCreated] is emitted
    for it.  The entries of the other sites are not touched.  After
    [Cleanup] a call for the site makes a second manager, though the first
    may still be alive. *)
Theorem Instance_shared (alive : nat -> bool) (reg : Instances)
    (radarSite : string) :
  instances_ok reg ->
  let instance := fst (fst (Instance alive reg radarSite)) in
  let signals := snd (fst (Instance alive reg radarSite)) in
  let reg' := snd (Instance alive reg radarSite) in
  instances_ok reg' /\
  instanceMap_ reg' !! radarSite = Some instance /\
  (forall other, other <> radarSite ->
     instanceMap_ reg' !! other = instanceMap_ reg !! other) /\
  ((signals = [] /\ reg' = reg /\ alive instance = true) \/
   (signals = [RadarProductManagerCreated radarSite] /\
    forall site it, instanceMap_ reg !! site = Some it -> it <> instance)) /\
  (forall alive' : nat -> bool,
     alive' instance = true ->
     Instance alive' reg' radarSite = (instance, [], reg')) /\
  (forall alive' : nat -> bool,
     snd (fst (Instance alive' (Cleanup reg') radarSite))
     = [RadarProductManagerCreated radarSite] /\
     fst (fst (Instance alive' (Cleanup reg') radarSite)) <> instance).
Proof.
  intros Hok instance signals reg'.
  assert (Hcases :
    (exists it, instanceMap_ reg !! radarSite = Some it /\ alive it = true /\
                Instance alive reg radarSite = (it, [], reg)) \/
    Instance alive reg radarSite
    = (allocated reg, [RadarProductManagerCreated radarSite],
       mk_Instances (<[radarSite := allocated reg]> (instanceMap_ reg))
         (S (allocated reg)))).
  { unfold Instance.
    destruct (instanceMap_ reg !! radarSite) as [it |] eqn:Hit; [| auto].
    destruct (alive it) eqn:Ha; [| auto]. left. eauto. }
  assert (Hlt : (instance < allocated reg')%nat /\
                instanceMap_ reg' !! radarSite = Some instance).
  { subst instance reg'.
    destruct Hcases as [(it & Hit & Ha & ->) | ->]; cbn.
    - split; [apply (Hok _ _ Hit) | exact Hit].
    - split; [lia | apply lookup_insert_eq]. }
  destruct Hlt as [Hlt Hmap].
  split; [| split; [exact Hmap | split; [| split; [| split]]]].
  - subst reg'. destruct Hcases as [(it & Hit & Ha & ->) | ->]; cbn;
      [exact Hok |].
    intros site it Hs. cbn in Hs. cbn [allocated].
    destruct (decide (site = radarSite)) as [-> | Hne].
    + rewrite lookup_insert_eq in Hs. injection Hs as <-. lia.
    + rewrite lookup_insert_ne in Hs by congruence.
      specialize (Hok _ _ Hs). lia.
  - intros other Hne. subst reg'.
    destruct Hcases as [(it & Hit & Ha & ->) | ->]; cbn; [reflexivity |].
    apply lookup_insert_ne. congruence.
  - subst instance signals reg'.
    destruct Hcases as [(it & Hit & Ha & ->) | ->]; cbn.
    + left. auto.
    + right. split; [reflexivity |]. intros site it Hs.
      specialize (Hok _ _ Hs). lia.
  - intros alive' Ha. unfold Instance at 1. rewrite Hmap, Ha. reflexivity.
  - intros alive'. unfold Instance, Cleanup. cbn. rewrite lookup_empty. cbn.
    split; [reflexivity | lia].
Qed.

Lemma Instance_shared_witness :
  Instance (fun _ => true)
    (snd (Instance (fun _ => true) (mk_Instances ∅ 0) "KLSX")) "KLSX"
  = (0%nat, [],
     snd (Instance (fun _ => true) (mk_Instances ∅ 0) "KLSX")).
Proof.
  destruct (Instance_shared (fun _ => true) (mk_Instances ∅ 0) "KLSX")
    as (_ & _ & _ & _ & H & _).
  - intros site it H. cbn in H. rewrite lookup_empty in H. discriminate.
  - apply (H (fun _ => true)). reflexivity.
Defined.

(** *** The coordinates *)

Section CoordinatesFacts.

Variable G R : Z.
Variable F : Type.
Variable Direct : Z -> Z -> F * F.

Hypothesis Hfit : constants_fit G R.

Lemma radialGate_bounds (radialGate : Z) :
  0 <= radialGate < NUM_RADIAL_GATES G R ->
  to_uint16 (radialGate mod G) = radialGate mod G /\
  to_uint16 (radialGate / G) = radialGate / G /\
  to_uint32 (radialGate * 2) = radialGate * 2 /\
  0 <= radialGate / G < R /\ 0 <= radialGate mod G < G /\
  radialGate * 2 + 1 < NUM_COORIDNATES G R.
Proof.
  destruct Hfit as (HG & HR & HN).
  unfold NUM_COORIDNATES, NUM_RADIAL_GATES in *. intros Hrg.
  assert (Hm : 0 <= radialGate mod G < G) by (apply Z.mod_pos_bound; lia).
  assert (Hd : 0 <= radialGate / G < R).
  { split; [apply Z.div_pos; lia |].
    apply Z.div_lt_upper_bound; [lia |]. rewrite Z.mul_comm. lia. }
  unfold to_uint16, to_uint32.
  rewrite (Z.mod_small (radialGate mod G) 65536) by lia.
  rewrite (Z.mod_small (radialGate / G) 65536) by lia.
  rewrite (Z.mod_small (radialGate * 2) 4294967296) by lia.
  repeat split; lia.
Qed.

Lemma set_coordinates_length (coordinates : list F) (radialGate : Z) :
  length (set_coordinates G F Direct coordinates radialGate)
  = length coordinates.
Proof.
  unfold set_coordinates. destruct (Direct _ _) as [latitude longitude].
  rewrite !length_insert. reflexivity.
Qed.

Lemma foldl_set_coordinates_length (order : list Z) (coordinates : list F) :
  length (foldl (set_coordinates G F Direct) coordinates order)
  = length coordinates.
Proof.
  revert coordinates. induction order as [| x order IH]; intros coordinates;
    [reflexivity |].
  cbn [foldl]. rewrite IH. apply set_coordinates_length.
Qed.

(** One turn of the loop writes the two slots of its radial and gate, and
    no other slot. *)
Lemma set_coordinates_lookup (coordinates : list F) (radialGate : Z) :
  0 <= radialGate < NUM_RADIAL_GATES G R ->
  length coordinates = Z.to_nat (NUM_COORIDNATES G R) ->
  set_coordinates G F Direct coordinates radialGate
    !! Z.to_nat (radialGate * 2)
  = Some (fst (Direct (radialGate / G) (radialGate mod G))) /\
  set_coordinates G F Direct coordinates radialGate
    !! S (Z.to_nat (radialGate * 2))
  = Some (snd (Direct (radialGate / G) (radialGate mod G))) /\
  forall i, i <> Z.to_nat (radialGate * 2) ->
            i <> S (Z.to_nat (radialGate * 2)) ->
            set_coordinates G F Direct coordinates radialGate !! i
            = coordinates !! i.
Proof.
  intros Hrg Hlen. unfold set_coordinates.
  destruct (radialGate_bounds radialGate Hrg) as (-> & -> & -> & _ & _ & Hn).
  destruct (Direct (radialGate / G) (radialGate mod G))
    as [latitude longitude]. cbn [fst snd].
  split; [| split].
  - rewrite list_lookup_insert_ne by lia.
    apply list_lookup_insert_eq. lia.
  - apply list_lookup_insert_eq. rewrite length_insert. lia.
  - intros i H1 H2. rewrite !list_lookup_insert_ne by lia. reflexivity.
Qed.

Lemma foldl_set_coordinates_lookup (order : list Z) (coordinates : list F)
    (radialGate : Z) :
  (forall x, x ∈ order -> 0 <= x < NUM_RADIAL_GATES G R) ->
  length coordinates = Z.to_nat (NUM_COORIDNATES G R) ->
  radialGate ∈ order ->
  foldl (set_coordinates G F Direct) coordinates order
    !! Z.to_nat (radialGate * 2)
  = Some (fst (Direct (radialGate / G) (radialGate mod G))) /\
  foldl (set_coordinates G F Direct) coordinates order
    !! S (Z.to_nat (radialGate * 2))
  = Some (snd (Direct (radialGate / G) (radialGate mod G))).
Proof.
  revert coordinates.
  induction order as [| x order IH] using rev_ind; intros coordinates
    Hall Hlen Hin; [inversion Hin |].
  rewrite foldl_app. cbn [foldl].
  assert (Hx : 0 <= x < NUM_RADIAL_GATES G R).
  { apply Hall. apply elem_of_app. right. constructor. }
  assert (Hrg : 0 <= radialGate < NUM_RADIAL_GATES G R) by (apply Hall, Hin).
  destruct (set_coordinates_lookup
              (foldl (set_coordinates G F Direct) coordinates order) x Hx)
    as (Hlat & Hlon & Hother).
  { rewrite foldl_set_coordinates_length. exact Hlen. }
  destruct (decide (radialGate = x)) as [-> | Hne]; [auto |].
  rewrite !Hother by lia.
  apply IH; [| exact Hlen |].
  - intros y Hy. apply Hall. apply elem_of_app. left. exact Hy.
  - apply elem_of_app in Hin as [Hin | Hin]; [exact Hin |].
    apply list_elem_of_singleton in Hin. contradiction.
Qed.

Lemma elem_of_radialGates (x : Z) :
  x ∈ radialGates G R <-> 0 <= x < NUM_RADIAL_GATES G R.
Proof.
  unfold radialGates. rewrite list_elem_of_fmap. split.
  - intros (n & -> & Hn). apply elem_of_seq in Hn. lia.
  - intros Hx. exists (Z.to_nat x). split; [lia |].
    apply elem_of_seq. lia.
Qed.

Lemma calculate_coordinates_slots (fill : F) (order : list Z) :
  order ≡ₚ radialGates G R ->
  length (calculate_coordinates G R F Direct fill order)
  = Z.to_nat (NUM_COORIDNATES G R) /\
  forall radial gate,
    0 <= radial < R -> 0 <= gate < G ->
    calculate_coordinates G R F Direct fill order
      !! latitude_slot G radial gate
    = Some (fst (Direct radial gate)) /\
    calculate_coordinates G R F Direct fill order
      !! longitude_slot G radial gate
    = Some (snd (Direct radial gate)).
Proof.
  intros Hperm. unfold calculate_coordinates. split.
  - rewrite foldl_set_coordinates_length. apply length_replicate.
  - intros radial gate Hradial Hgate.
    unfold longitude_slot, latitude_slot.
    set (radialGate := radial * G + gate).
    assert (Hrg : 0 <= radialGate < NUM_RADIAL_GATES G R).
    { unfold NUM_RADIAL_GATES. subst radialGate. nia. }
    assert (Hd : radialGate / G = radial).
    { subst radialGate. rewrite Z.div_add_l by lia.
      rewrite Z.div_small by lia. lia. }
    assert (Hm : radialGate mod G = gate).
    { subst radialGate. rewrite Z.add_comm, Z.mod_add by lia.
      apply Z.mod_small. lia. }
    clearbody radialGate. rewrite <- Hd, <- Hm.
    apply foldl_set_coordinates_lookup.
    + intros x Hx. apply elem_of_radialGates. rewrite <- Hperm. exact Hx.
    + apply length_replicate.
    + rewrite Hperm. apply elem_of_radialGates. exact Hrg.
Qed.

Lemma calculate_coordinates_order (fill : F) (order : list Z) :
  order ≡ₚ radialGates G R ->
  calculate_coordinates G R F Direct fill order
  = calculate_coordinates G R F Direct fill (radialGates G R).
Proof.
  intros Hperm.
  destruct (calculate_coordinates_slots fill order Hperm) as [Hlen Hslots].
  destruct (calculate_coordinates_slots fill (radialGates G R)) as
    [Hlen' Hslots']; [reflexivity |].
  apply list_eq. intros i.
  destruct (Nat.lt_ge_cases i (Z.to_nat (NUM_COORIDNATES G R))) as [Hi | Hi].
  - destruct Hfit as (HG & HR & HN).
    set (radialGate := Z.of_nat i / 2).
    assert (Hrg : 0 <= radialGate < NUM_RADIAL_GATES G R).
    { subst radialGate. unfold NUM_COORIDNATES in Hi.
      split; [apply Z.div_pos; lia |].
      apply Z.div_lt_upper_bound; lia. }
    assert (Hradial : 0 <= radialGate / G < R).
    { split; [apply Z.div_pos; lia |].
      apply Z.div_lt_upper_bound; [lia |].
      unfold NUM_RADIAL_GATES in Hrg. rewrite Z.mul_comm. lia. }
    assert (Hgate : 0 <= radialGate mod G < G)
      by (apply Z.mod_pos_bound; lia).
    destruct (Hslots _ _ Hradial Hgate) as [H1 H2].
    destruct (Hslots' _ _ Hradial Hgate) as [H1' H2'].
    unfold longitude_slot, latitude_slot in *.
    assert (Hsum : radialGate / G * G + radialGate mod G = radialGate).
    { pose proof (Z.div_mod radialGate G). lia. }
    rewrite Hsum in *.
    pose proof (Z.div_mod (Z.of_nat i) 2 ltac:(lia)) as Hi2.
    pose proof (Z.mod_pos_bound (Z.of_nat i) 2 ltac:(lia)) as Hb.
    fold radialGate in Hi2.
    destruct (decide (Z.of_nat i mod 2 = 0)) as [H0 | H0].
    + replace i with (Z.to_nat (radialGate * 2)) by lia. congruence.
    + replace i with (S (Z.to_nat (radialGate * 2))) by lia. congruence.
  - rewrite !lookup_ge_None_2 by lia. reflexivity.
Qed.

(** The same for the loop over any vector of the length of the
    coordinates. *)
Lemma foldl_set_coordinates_slots (coordinates : list F) (order : list Z) :
  order ≡ₚ radialGates G R ->
  length coordinates = Z.to_nat (NUM_COORIDNATES G R) ->
  forall radial gate,
    0 <= radial < R -> 0 <= gate < G ->
    foldl (set_coordinates G F Direct) coordinates order
      !! latitude_slot G radial gate
    = Some (fst (Direct radial gate)) /\
    foldl (set_coordinates G F Direct) coordinates order
      !! longitude_slot G radial gate
    = Some (snd (Direct radial gate)).
Proof.
  intros Hperm Hlen radial gate Hradial Hgate.
  unfold longitude_slot, latitude_slot.
  set (radialGate := radial * G + gate).
  destruct Hfit as (HG & HR & HN).
  assert (Hrg : 0 <= radialGate < NUM_RADIAL_GATES G R).
  { unfold NUM_RADIAL_GATES. subst radialGate. nia. }
  assert (Hd : radialGate / G = radial).
  { subst radialGate. rewrite Z.div_add_l by lia.
    rewrite Z.div_small by lia. lia. }
  assert (Hm : radialGate mod G = gate).
  { subst radialGate. rewrite Z.add_comm, Z.mod_add by lia.
    apply Z.mod_small. lia. }
  clearbody radialGate. rewrite <- Hd, <- Hm.
  apply foldl_set_coordinates_lookup.
  - intros x Hx. apply elem_of_radialGates. rewrite <- Hperm. exact Hx.
  - exact Hlen.
  - rewrite Hperm. apply elem_of_radialGates. exact Hrg.
Qed.

(** Every slot of the vector is written by one radial gate of the loop, and
    the loop takes every radial gate once. *)
Lemma written_once (order : list Z) :
  order ≡ₚ radialGates G R ->
  NoDup order /\
  forall i, (i < Z.to_nat (NUM_COORIDNATES G R))%nat ->
    exists radialGate,
      radialGate ∈ order /\ i ∈ written radialGate /\
      forall x, x ∈ order -> i ∈ written x -> x = radialGate.
Proof.
  intros Hperm. split.
  - rewrite Hperm. unfold radialGates.
    apply NoDup_fmap_2; [intros a b; lia | apply NoDup_seq].
  - intros i Hi. destruct Hfit as (HG & HR & HN).
    assert (Hslots : forall x, x ∈ order ->
                       written x = [Z.to_nat (x * 2); S (Z.to_nat (x * 2))]
                       /\ 0 <= x).
    { intros x Hx. rewrite Hperm in Hx. apply elem_of_radialGates in Hx.
      destruct (radialGate_bounds x Hx) as (_ & _ & H32 & _).
      unfold written. rewrite H32. split; [reflexivity | lia]. }
    set (radialGate := Z.of_nat i / 2).
    assert (Hrg : 0 <= radialGate < NUM_RADIAL_GATES G R).
    { subst radialGate. unfold NUM_COORIDNATES in Hi.
      split; [apply Z.div_pos; lia |].
      apply Z.div_lt_upper_bound; lia. }
    assert (Hin : radialGate ∈ order).
    { rewrite Hperm. apply elem_of_radialGates. exact Hrg. }
    pose proof (Z.div_mod (Z.of_nat i) 2 ltac:(lia)) as Hi2.
    pose proof (Z.mod_pos_bound (Z.of_nat i) 2 ltac:(lia)) as Hb.
    fold radialGate in Hi2.
    exists radialGate. split; [exact Hin |]. split.
    + destruct (Hslots _ Hin) as [-> _].
      destruct (decide (Z.of_nat i mod 2 = 0)) as [H0 | H0].
      * replace i with (Z.to_nat (radialGate * 2)) at 1 by lia.
        apply list_elem_of_here.
      * replace i with (S (Z.to_nat (radialGate * 2))) at 1 by lia.
        apply list_elem_of_further, list_elem_of_here.
    + intros x Hx Hix. destruct (Hslots _ Hx) as [Hw H0]. rewrite Hw in Hix.
      apply elem_of_cons in Hix as [-> | Hix]; [lia |].
      apply list_elem_of_singleton in Hix. lia.
Qed.

End CoordinatesFacts.

(** X24. The loop of [Initialize] over the radial gates, with constants that
    fit the integer types of the code: the casts to [uint16_t] and the
    [uint32_t] product change no value; the vector keeps the length
    [resize] gave it; for every radial and gate the slot
    [2 * (radial * MAX_DATA_MOMENT_GATES + gate)] holds the latitude computed
    for that radial and gate and the next slot its longitude, so that every
    slot is written; and the vector is the same in whatever order the
    iterations run, for no two of them write the same slot. *)
Theorem calculate_coordinates_any_order (G R : Z) (F : Type)
    (Direct : Z -> Z -> F * F) (fill : F) (order : list Z) :
  constants_fit G R ->
  order ≡ₚ radialGates G R ->
  length (calculate_coordinates G R F Direct fill order)
  = Z.to_nat (NUM_COORIDNATES G R) /\
  (forall radial gate,
     0 <= radial < R -> 0 <= gate < G ->
     calculate_coordinates G R F Direct fill order
       !! latitude_slot G radial gate
     = Some (fst (Direct radial gate)) /\
     calculate_coordinates G R F Direct fill order
       !! longitude_slot G radial gate
     = Some (snd (Direct radial gate))) /\
  calculate_coordinates G R F Direct fill order
  = calculate_coordinates G R F Direct fill (radialGates G R).
Proof.
  intros Hfit Hperm.
  destruct (calculate_coordinates_slots G R F Direct Hfit fill order Hperm)
    as [Hlen Hslots].
  split; [exact Hlen |]. split; [exact Hslots |].
  apply calculate_coordinates_order; assumption.
Qed.

Lemma calculate_coordinates_any_order_witness :
  calculate_coordinates 4 3 Z (fun radial gate => (radial, gate)) (-1)
    (reverse (radialGates 4 3))
  = calculate_coordinates 4 3 Z (fun radial gate => (radial, gate)) (-1)
      (radialGates 4 3).
Proof.
  refine (proj2 (proj2 (calculate_coordinates_any_order 4 3 Z
                          (fun radial gate => (radial, gate)) (-1)
                          (reverse (radialGates 4 3)) _ _))).
  - unfold constants_fit, NUM_COORIDNATES, NUM_RADIAL_GATES. lia.
  - apply reverse_Permutation.
Defined.

Example calculate_coordinates_sample :
  calculate_coordinates 2 2 Z (fun radial gate => (radial, gate)) (-1)
    (radialGates 2 2)
  = [0; 0; 0; 1; 1; 0; 1; 1].
Proof. vm_compute. reflexivity. Qed.

(** *** [Initialize] *)

(** A turn of the loop leaves the slots it does not write as they are. *)
Lemma set_coordinates_elsewhere (G : Z) (F : Type) (Direct : Z -> Z -> F * F)
    (coordinates : list F) (radialGate : Z) (i : nat) :
  i ∉ written radialGate ->
  set_coordinates G F Direct coordinates radialGate !! i = coordinates !! i.
Proof.
  unfold written, set_coordinates. intros Hi.
  destruct (Direct _ _) as [latitude longitude].
  rewrite !list_lookup_insert_ne; [reflexivity | |];
    intros E; apply Hi; subst i; repeat constructor.
Qed.

Lemma clamp_within (lo hi : Z) (q : QArith_base.Q) :
  lo <= hi -> within lo hi (Some (clamp lo hi q)).
Proof.
  intros Hle. unfold clamp, within.
  destruct (QArith_base.Qle_bool q (QArith_base.inject_Z lo)) eqn:E1.
  { split; [apply QArith_base.Qle_refl |].
    rewrite <- QArith_base.Zle_Qle. exact Hle. }
  destruct (QArith_base.Qle_bool (QArith_base.inject_Z hi) q) eqn:E2.
  { split; [| apply QArith_base.Qle_refl].
    rewrite <- QArith_base.Zle_Qle. exact Hle. }
  split; apply QArith_base.Qlt_le_weak, QArith_base.Qnot_le_lt; intros H;
    apply QArith_base.Qle_bool_iff in H; congruence.
Qed.

(** The sample arithmetic is as documented. *)
Lemma sample_arithmetic_as_documented :
  @arithmetic_as_documented sample_arithmetic.
Proof.
  split.
  - intros radial _. split; discriminate.
  - intros site gate _. discriminate.
  - reflexivity.
  - intros lo hi x _ _ H. exact H.
  - intros lat1 lon1 azi1 s12 _ _ _ _. split.
    + apply (clamp_within (-90) 90). lia.
    + apply (clamp_within (-180) 180). lia.
Qed.

Section InitializeFacts.

Context {arithmetic : Arithmetic}.
Variable G R0_5 R1 : Z.

Hypothesis Hfit0_5 : constants_fit G R0_5.
Hypothesis Hfit1 : constants_fit G R1.
Hypothesis Harithmetic : arithmetic_as_documented.

Lemma resize_length (n : nat) (v : list float) : length (resize n v) = n.
Proof.
  unfold resize. rewrite length_app, length_take, length_replicate. lia.
Qed.

(** The two values stored for a radial and a gate are a latitude and a
    longitude. *)
Lemma direct_within (site : RadarSite) (angle : Z -> float)
    (radial gate : Z) :
  within (-90) 90 (double_value (latitude site)) ->
  finite (double_value (longitude site)) ->
  finite (float_value (angle radial)) ->
  0 <= gate < 65536 ->
  within (-90) 90
    (float_value
       (fst (direct (latitude site, longitude site) angle (gate_size site)
               radial gate))) /\
  within (-180) 180
    (float_value
       (snd (direct (latitude site, longitude site) angle (gate_size site)
               radial gate))).
Proof.
  intros Hlat Hlon Hangle Hgate. unfold direct. cbn [fst snd].
  destruct (Direct_range Harithmetic (latitude site) (longitude site)
              (double_of_float (angle radial))
              (double_of_float (range (gate_size site) gate)))
    as [H1 H2]; auto.
  - rewrite (promotion_exact Harithmetic). exact Hangle.
  - rewrite (promotion_exact Harithmetic).
    apply (ranges_finite Harithmetic). exact Hgate.
  - destruct (Geodesic_Direct _ _ _ _) as [latitude longitude].
    cbn [fst snd] in *.
    split; apply (conversion_monotone Harithmetic); auto; cbn; lia.
Qed.


End InitializeFacts.


(** *** The available Level-3 products *)

Section Level3ProductsFacts.

Context {Level3ProductCategory : Type}
  `{Countable Level3ProductCategory}.
Variable categories : list Level3ProductCategory.
Variable products_of : Level3ProductCategory -> list string.
Variable awips_ids_of : string -> list string.

Lemma foldl_push_filter (updated : list string) (l acc : list string) :
  foldl (fun availableAwipsIds awipsId =>
           if bool_decide (awipsId ∈ updated)
           then (availableAwipsIds ++ [awipsId])%list
           else availableAwipsIds) acc l
  = (acc ++ filter (fun awipsId => awipsId ∈ updated) l)%list.
Proof.
  revert acc. induction l as [| x l IH]; intros acc; cbn [foldl].
  - rewrite filter_nil, app_nil_r. reflexivity.
  - rewrite IH. destruct (decide (x ∈ updated)) as [Hin | Hnot].
    + rewrite bool_decide_true by exact Hin.
      rewrite filter_cons_True by exact Hin.
      rewrite <- app_assoc. reflexivity.
    + rewrite bool_decide_false by exact Hnot.
      rewrite filter_cons_False by exact Hnot. reflexivity.
Qed.

Lemma availableAwipsIds_of_filter (updated : list string) (product : string) :
  availableAwipsIds_of awips_ids_of updated product
  = filter (fun awipsId => awipsId ∈ updated) (awips_ids_of product).
Proof. unfold availableAwipsIds_of. apply foldl_push_filter. Qed.

Lemma foldl_products_lookup (updated : list string) (l : list string)
    (m0 : gmap string (list string)) (product : string) :
  foldl (fun availableProducts product =>
           match availableAwipsIds_of awips_ids_of updated product with
           | [] => availableProducts
           | _ => <[product := availableAwipsIds_of awips_ids_of updated
                                 product]> availableProducts
           end) m0 l !! product
  = if bool_decide (product ∈ l /\
                    availableAwipsIds_of awips_ids_of updated product <> [])
    then Some (availableAwipsIds_of awips_ids_of updated product)
    else m0 !! product.
Proof.
  induction l as [| x l IH] using rev_ind.
  - cbn. rewrite bool_decide_false; [reflexivity |].
    intros [Hin _]. inversion Hin.
  - rewrite foldl_app. cbn [foldl].
    destruct (decide (product = x)) as [-> | Hne].
    + destruct (availableAwipsIds_of awips_ids_of updated x) as [| a ids]
        eqn:Hids.
      * rewrite IH. rewrite !bool_decide_false; tauto.
      * rewrite lookup_insert_eq. rewrite bool_decide_true; [reflexivity |].
        split; [| discriminate]. apply elem_of_app. right. constructor.
    + assert (Hstep : forall m : gmap string (list string),
                match availableAwipsIds_of awips_ids_of updated x with
                | [] => m
                | _ => <[x := availableAwipsIds_of awips_ids_of updated x]> m
                end !! product = m !! product).
      { intros m.
        destruct (availableAwipsIds_of awips_ids_of updated x);
          [reflexivity |].
        apply lookup_insert_ne. congruence. }
      rewrite Hstep, IH.
      rewrite (bool_decide_ext
                 (product ∈ l /\
                  availableAwipsIds_of awips_ids_of updated product <> [])
                 (product ∈ (l ++ [x])%list /\
                  availableAwipsIds_of awips_ids_of updated product <> []));
        [reflexivity |].
      rewrite elem_of_app, list_elem_of_singleton. tauto.
Qed.

Lemma foldl_categories_lookup (updated : list string)
    (l : list Level3ProductCategory)
    (m0 : gmap Level3ProductCategory (gmap string (list string)))
    (category : Level3ProductCategory) :
  foldl (fun availableCategoryMap category =>
           if negb (bool_decide
                      (availableProducts_of products_of awips_ids_of updated
                         category = ∅))
           then <[category := availableProducts_of products_of awips_ids_of
                                updated category]> availableCategoryMap
           else delete category availableCategoryMap) m0 l !! category
  = if bool_decide (category ∈ l)
    then (if bool_decide
               (availableProducts_of products_of awips_ids_of updated
                  category = ∅)
          then None
          else Some (availableProducts_of products_of awips_ids_of updated
                       category))
    else m0 !! category.
Proof.
  induction l as [| x l IH] using rev_ind.
  - cbn. rewrite bool_decide_false; [reflexivity |]. intros Hin.
    inversion Hin.
  - rewrite foldl_app. cbn [foldl].
    destruct (decide (category = x)) as [-> | Hne].
    + rewrite (bool_decide_true (x ∈ l ++ [x]))
        by (apply elem_of_app; right; constructor).
      destruct (bool_decide
                  (availableProducts_of products_of awips_ids_of updated x
                   = ∅)); cbn [negb].
      * apply lookup_delete_eq.
      * apply lookup_insert_eq.
    + assert (Hstep :
        forall m : gmap Level3ProductCategory (gmap string (list string)),
          (if negb (bool_decide
                      (availableProducts_of products_of awips_ids_of updated
                         x = ∅))
           then <[x := availableProducts_of products_of awips_ids_of updated
                         x]> m
           else delete x m) !! category = m !! category).
      { intros m. destruct (negb _).
        - apply lookup_insert_ne. congruence.
        - apply lookup_delete_ne. congruence. }
      rewrite Hstep, IH.
      rewrite (bool_decide_ext (category ∈ l) (category ∈ (l ++ [x])%list));
        [reflexivity |].
      rewrite elem_of_app, list_elem_of_singleton. tauto.
Qed.

Lemma availableProducts_of_lookup (updated : list string)
    (category : Level3ProductCategory) (product : string) :
  availableProducts_of products_of awips_ids_of updated category !! product
  = if bool_decide
         (product ∈ products_of category /\
          filter (fun awipsId => awipsId ∈ updated) (awips_ids_of product)
          <> [])
    then Some (filter (fun awipsId => awipsId ∈ updated)
                 (awips_ids_of product))
    else None.
Proof.
  unfold availableProducts_of.
  rewrite (foldl_products_lookup updated (products_of category) ∅ product).
  rewrite availableAwipsIds_of_filter, lookup_empty. reflexivity.
Qed.

(** X25. [UpdateAvailableProducts] runs once: with the flag set it changes
    nothing and emits nothing, and after a run the flag is set, so that a
    second call is such a call.  A run emits [Level3ProductsChanged], makes
    the provider manager of the default product when there is none, and
    leaves the categories outside the iteration as they are.  Of the
    categories of the iteration the map holds those with an available
    product, none with an empty map: a product of the category is listed
    exactly when one of its AWIPS ids is among those the provider answered,
    with those of its AWIPS ids, in the order of its table; so every
    available AWIPS id of a product of a category is found in the map. *)
Theorem UpdateAvailableProducts_categories (updated : list string)
    (p : ProviderManagers) (l3 : Level3Products) :
  let result :=
    UpdateAvailableProducts categories products_of awips_ids_of updated p l3 in
  let l3' := snd (fst result) in
  (level3ProductsInitialized_ l3 = true -> result = (p, l3, [])) /\
  (level3ProductsInitialized_ l3 = false ->
   snd result = [Level3ProductsChanged] /\
   fst (fst result) = snd (GetLevel3ProviderManager p kDefaultLevel3Product_)
   /\
   (forall category,
      category ∉ categories ->
      availableCategoryMap_ l3' !! category
      = availableCategoryMap_ l3 !! category) /\
   (forall category availableProducts,
      category ∈ categories ->
      availableCategoryMap_ l3' !! category = Some availableProducts ->
      availableProducts <> ∅ /\
      forall product,
        availableProducts !! product
        = if bool_decide
               (product ∈ products_of category /\
                filter (fun awipsId => awipsId ∈ updated)
                  (awips_ids_of product) <> [])
          then Some (filter (fun awipsId => awipsId ∈ updated)
                       (awips_ids_of product))
          else None) /\
   (forall category product awipsId,
      category ∈ categories ->
      product ∈ products_of category ->
      awipsId ∈ awips_ids_of product -> awipsId ∈ updated ->
      exists availableProducts availableAwipsIds,
        availableCategoryMap_ l3' !! category = Some availableProducts /\
        availableProducts !! product = Some availableAwipsIds /\
        awipsId ∈ availableAwipsIds)) /\
  level3ProductsInitialized_ l3' = true /\
  UpdateAvailableProducts categories products_of awips_ids_of updated
    (fst (fst result)) l3'
  = (fst (fst result), l3', []).
Proof.
  intros result l3'. subst l3'.
  destruct (level3ProductsInitialized_ l3) eqn:Hinit.
  - assert (Hr : result = (p, l3, [])).
    { subst result. unfold UpdateAvailableProducts. rewrite Hinit.
      reflexivity. }
    clearbody result. subst result. cbn [fst snd].
    split; [auto |]. split; [discriminate |].
    split; [exact Hinit |]. unfold UpdateAvailableProducts. rewrite Hinit.
    reflexivity.
  - assert (Hr : result
                 = (snd (GetLevel3ProviderManager p kDefaultLevel3Product_),
                    mk_Level3Products true
                      (update_categories categories products_of awips_ids_of
                         updated (availableCategoryMap_ l3)),
                    [Level3ProductsChanged])).
    { subst result. unfold UpdateAvailableProducts. rewrite Hinit.
      destruct (GetLevel3ProviderManager p kDefaultLevel3Product_).
      reflexivity. }
    clearbody result. subst result.
    cbn [fst snd availableCategoryMap_ level3ProductsInitialized_].
    split; [discriminate |]. split; [| split; [reflexivity | reflexivity]].
    intros _. split; [reflexivity |]. split; [reflexivity |].
    unfold update_categories.
    split; [| split].
    + intros category Hnot. rewrite foldl_categories_lookup.
      rewrite bool_decide_false by exact Hnot. reflexivity.
    + intros category availableProducts Hin Hlook.
      rewrite foldl_categories_lookup in Hlook.
      rewrite bool_decide_true in Hlook by exact Hin.
      destruct (decide (availableProducts_of products_of awips_ids_of updated
                          category = ∅)) as [He | Hne].
      * rewrite bool_decide_true in Hlook by exact He. discriminate.
      * rewrite bool_decide_false in Hlook by exact Hne.
        injection Hlook as <-. split; [exact Hne |].
        intros product. apply availableProducts_of_lookup.
    + intros category product awipsId Hc Hp Ha Hu.
      assert (Hids : awipsId ∈ filter (fun awipsId => awipsId ∈ updated)
                                 (awips_ids_of product)).
      { apply list_elem_of_filter. auto. }
      assert (Hprod :
        availableProducts_of products_of awips_ids_of updated category
          !! product
        = Some (filter (fun awipsId => awipsId ∈ updated)
                  (awips_ids_of product))).
      { rewrite availableProducts_of_lookup.
        rewrite bool_decide_true; [reflexivity |].
        split; [exact Hp |]. intros He. rewrite He in Hids. inversion Hids. }
      eexists _, _. split; [| split; [exact Hprod | exact Hids]].
      rewrite foldl_categories_lookup.
      rewrite bool_decide_true by exact Hc.
      rewrite bool_decide_false; [reflexivity |].
      intros He. rewrite He, lookup_empty in Hprod. discriminate.
Qed.

End Level3ProductsFacts.

(** With the sample tables and the answer N0B, N1G, XYZ of the provider: the
    first category keeps its two products with the ids that are available,
    the second category is not entered. *)
Example UpdateAvailableProducts_sample :
  availableCategoryMap_
    (snd (fst (UpdateAvailableProducts [0; 1]%nat sample_products
                 sample_awips_ids ["N0B"; "N1G"; "XYZ"]%string
                 (ProviderManagers_new "KLSX")
                 (mk_Level3Products false ∅))))
  = <[0%nat := <["SDR"%string := ["N0B"%string]]>
                 (<["SDV"%string := ["N1G"%string]]> ∅)]> ∅.
Proof. vm_compute. reflexivity. Qed.

End ManagerExtraFacts.
